(** * SQL Sentinel: the SQL gatekeeper and the connection pool manager

    A shallow embedding of
      - [src/services/sqlValidator.ts]   (SQLValidator.validate),
      - [src/constants.ts]               (FORBIDDEN_SQL_KEYWORDS, MOCK_DATABASE_SCHEMA),
      - the RBAC middleware              (checkOperationPermission,
                                          getRolePermissions, validateSqlPermissions),
      - the connection pool utility      (createPool, getConnection, executeQuery),
    and the properties of them that the specification states.

    JavaScript strings are modelled as lists of 8-bit code units, that is
    texts of the characters U+0000 to U+00FF.  On them [toLowerCase],
    [trim] and the regular-expression classes [\w], [\s] are the
    ECMAScript ones, and so is [toUpperCase] (U+00DF gives the two letters
    SS) but for the two letters whose capital lies beyond U+00FF: U+00B5
    and U+00FF are kept, and like their capitals (U+039C, U+0178) they are
    neither ASCII letters, word characters nor white space. *)

From Stdlib Require Import Ascii String ZArith Bool.
From stdpp Require Import base option list gmap.

Local Open Scope Z_scope.

(** ** JavaScript strings *)

Module JsString.

Definition jsstring := list ascii.

(** A string literal of the source. *)
Definition str (s : string) : jsstring := list_ascii_of_string s.

Definition code (c : ascii) : nat := nat_of_ascii c.

Definition inRange (lo hi : nat) (c : ascii) : bool :=
  Nat.leb lo (code c) && Nat.leb (code c) hi.

Definition isUpperAZ : ascii -> bool := inRange 65 90.
Definition isLowerAZ : ascii -> bool := inRange 97 122.
Definition isDigit : ascii -> bool := inRange 48 57.

(** [\w] without the unicode flag: [A-Za-z0-9_]. *)
Definition isWordChar (c : ascii) : bool :=
  isUpperAZ c || isLowerAZ c || isDigit c || Nat.eqb (code c) 95.

(** [\s] and the characters [trim] removes: TAB, LF, VT, FF, CR, SPACE and
    NO-BREAK SPACE. *)
Definition isSpace (c : ascii) : bool :=
  inRange 9 13 c || Nat.eqb (code c) 32 || Nat.eqb (code c) 160.

(** What [.] does not match: LF and CR. *)
Definition isLineTerminator (c : ascii) : bool :=
  Nat.eqb (code c) 10 || Nat.eqb (code c) 13.

(** The letters from U+00C0 on: capitals to U+00DE but for the
    multiplication sign, small letters from U+00E0 to U+00FE but for the
    division sign. *)
Definition isUpperLatin (c : ascii) : bool :=
  inRange 192 222 c && negb (Nat.eqb (code c) 215).
Definition isLowerLatin (c : ascii) : bool :=
  inRange 224 254 c && negb (Nat.eqb (code c) 247).

(** The capital of a character when it is one character; this is also the
    canonical form under which the [i] flag compares two characters. *)
Definition upperChar (c : ascii) : ascii :=
  if isLowerAZ c || isLowerLatin c then ascii_of_nat (code c - 32) else c.

Definition lowerChar (c : ascii) : ascii :=
  if isUpperAZ c || isUpperLatin c then ascii_of_nat (code c + 32) else c.

(** What [toUpperCase] puts for one character: U+00DF gives SS. *)
Definition upperUnits (c : ascii) : jsstring :=
  if Nat.eqb (code c) 223 then ["S"%char; "S"%char] else [upperChar c].

Definition toUpperCase (s : jsstring) : jsstring := flat_map upperUnits s.
Definition toLowerCase (s : jsstring) : jsstring := map lowerChar s.

Definition charEqb (a b : ascii) : bool := Ascii.eqb a b.

Fixpoint strEqb (a b : jsstring) : bool :=
  match a, b with
  | [], [] => true
  | x :: a', y :: b' => charEqb x y && strEqb a' b'
  | _, _ => false
  end.

(** [s.startsWith(p)], returning what follows the prefix. *)
Fixpoint stripPrefix (p s : jsstring) : option jsstring :=
  match p, s with
  | [], _ => Some s
  | x :: p', y :: s' => if charEqb x y then stripPrefix p' s' else None
  | _ :: _, [] => None
  end.

(** [s.includes(k)] *)
Fixpoint includes (s k : jsstring) : bool :=
  match stripPrefix k s with
  | Some _ => true
  | None => match s with
            | [] => false
            | _ :: s' => includes s' k
            end
  end.

Fixpoint trimStart (s : jsstring) : jsstring :=
  match s with
  | c :: s' => if isSpace c then trimStart s' else s
  | [] => []
  end.

Definition trimEnd (s : jsstring) : jsstring := rev (trimStart (rev s)).

(** [s.trim()] *)
Definition trim (s : jsstring) : jsstring := trimEnd (trimStart s).

(** [s.split(sep)] for a one-character separator: never empty, one more
    piece than there are separators. *)
Fixpoint split (sep : ascii) (s : jsstring) : list jsstring :=
  match s with
  | [] => [[]]
  | c :: s' =>
      if charEqb c sep then [] :: split sep s'
      else match split sep s' with
           | p :: ps => (c :: p) :: ps
           | [] => [[c]]
           end
  end.

(** [s.replace(/;$/, '')]: the pattern matches only a semicolon that is the
    last character. *)
Definition stripTrailingSemicolon (s : jsstring) : jsstring :=
  match rev s with
  | c :: r => if charEqb c ";" then rev r else s
  | [] => s
  end.

(** [s.match(/\b\w+\b/g) || []]: the maximal runs of word characters, in
    order.  [cur] is the run being read, reversed. *)
Fixpoint wordTokensFrom (cur : jsstring) (s : jsstring) : list jsstring :=
  match s with
  | [] => match cur with [] => [] | _ => [rev cur] end
  | c :: s' =>
      if isWordChar c then wordTokensFrom (c :: cur) s'
      else match cur with
           | [] => wordTokensFrom [] s'
           | _ => rev cur :: wordTokensFrom [] s'
           end
  end.

Definition wordTokens (s : jsstring) : list jsstring := wordTokensFrom [] s.

End JsString.
Export JsString.

(** ** Regular expressions

    The patterns of the source are concatenations of the atoms below; all
    of them carry the [i] flag, under which two characters match when their
    canonical (upper-case) forms are equal. *)

Module Regex.

Inductive atom : Type :=
| Bol                              (* ^ *)
| WordB                            (* \b *)
| Star (cls : ascii -> bool)       (* c* for a character class c *)
| Lit (alts : list jsstring).      (* (A|B|...), literal alternatives *)

Definition regex := list atom.

Definition isWordOpt (o : option ascii) : bool :=
  match o with
  | Some c => isWordChar c
  | None => false
  end.

(** Match a literal under [i]; on success the last character read (or the
    character before the match when the literal is empty) and the rest. *)
Fixpoint litCI (l : jsstring) (prev : option ascii) (s : jsstring)
  : option (option ascii * jsstring) :=
  match l with
  | [] => Some (prev, s)
  | x :: l' =>
      match s with
      | y :: s' =>
          if charEqb (upperChar x) (upperChar y) then litCI l' (Some y) s'
          else None
      | [] => None
      end
  end.

(** [matchHere re prev s]: [re] matches a prefix of [s], where [prev] is the
    character just before [s] in the subject ([None] at its start). *)
Fixpoint matchHere (re : regex) : option ascii -> jsstring -> bool :=
  match re with
  | [] => fun _ _ => true
  | a :: re' =>
      let k := matchHere re' in
      match a with
      | Bol => fun prev s =>
          match prev with None => k prev s | Some _ => false end
      | WordB => fun prev s =>
          xorb (isWordOpt prev) (isWordOpt (head s)) && k prev s
      | Star cls =>
          fix star (prev : option ascii) (s : jsstring) : bool :=
            k prev s ||
            match s with
            | c :: s' => cls c && star (Some c) s'
            | [] => false
            end
      | Lit alts => fun prev s =>
          existsb (fun alt =>
                     match litCI alt prev s with
                     | Some (prev', s') => k prev' s'
                     | None => false
                     end) alts
      end
  end.

Fixpoint searchFrom (re : regex) (prev : option ascii) (s : jsstring) : bool :=
  matchHere re prev s ||
  match s with
  | c :: s' => searchFrom re (Some c) s'
  | [] => false
  end.

(** [re.test(s)] *)
Definition test (re : regex) (s : jsstring) : bool := searchFrom re None s.

End Regex.
Export Regex.

(** ** The client-side validator: [src/services/sqlValidator.ts] *)

Module Validator.

(** [UserRole] of the type declarations. *)
Inductive UserRole : Type := ANALYST | DEVELOPER | ADMIN.

Definition roleEqb (a b : UserRole) : bool :=
  match a, b with
  | ANALYST, ANALYST | DEVELOPER, DEVELOPER | ADMIN, ADMIN => true
  | _, _ => false
  end.

Record Column : Type := mkColumn {
  name : jsstring;
  type : jsstring;
  description : jsstring }.

Record TableSchema : Type := mkTable {
  tableName : jsstring;
  columns : list Column;
  restrictedRoles : option (list UserRole) }.

Record ValidationResult : Type := mkResult {
  isValid : bool;
  error : option jsstring;
  sanitizedSql : option jsstring }.

Definition col (n t d : string) : Column := mkColumn (str n) (str t) (str d).

(** [src/constants.ts] *)
Definition MOCK_DATABASE_SCHEMA : list TableSchema :=
  [ mkTable (str "sales_orders")
      [ col "order_id" "INT" "Primary key for orders";
        col "customer_id" "INT" "Link to customer";
        col "order_date" "DATE" "Date order was placed";
        col "total_amount" "DECIMAL(10,2)" "Total currency amount";
        col "status" "VARCHAR" "Order status (Pending, Shipped, Cancelled)" ]
      None;
    mkTable (str "inventory")
      [ col "product_id" "INT" "Unique product ID";
        col "product_name" "VARCHAR" "Human readable name";
        col "stock_level" "INT" "Quantity currently in warehouse";
        col "unit_price" "DECIMAL(10,2)" "Cost per single item" ]
      None;
    mkTable (str "financial_reports")
      [ col "report_id" "INT" "Report ID";
        col "period" "VARCHAR" "Fiscal period Q1, Q2, etc.";
        col "net_profit" "DECIMAL(15,2)" "Bottom line profit";
        col "tax_liability" "DECIMAL(15,2)" "Estimated taxes" ]
      (Some [DEVELOPER; ADMIN]);
    mkTable (str "system_logs")
      [ col "log_id" "INT" "ID";
        col "event_type" "VARCHAR" "Security, Error, Info";
        col "timestamp" "DATETIME" "Event time";
        col "user_id" "INT" "Actor ID" ]
      (Some [ADMIN]) ].

Definition FORBIDDEN_SQL_KEYWORDS : list jsstring :=
  map str
    [ "DROP"; "TRUNCATE"; "ALTER"; "DELETE"; "UPDATE"; "INSERT"; "REPLACE";
      "GRANT"; "REVOKE"; "CREATE"; "RENAME"; "EXEC"; "EXECUTE"; "DATABASE";
      "SCHEMA" ]%string.

(** The error messages of [validate]. *)
Definition forbiddenKeywordError (keyword : jsstring) : jsstring :=
  str "Security Violation: Forbidden keyword '" ++ keyword ++ str "' detected.".

Definition multipleStatementsError : jsstring :=
  str "Security Violation: Multiple SQL statements detected.".

Definition accessDeniedError (table : jsstring) : jsstring :=
  str "Access Denied: You do not have permission to query table '" ++ table
    ++ str "'.".

Definition invalid (e : jsstring) : ValidationResult :=
  mkResult false (Some e) None.

Definition valid (sql : jsstring) : ValidationResult :=
  mkResult true None (Some sql).

(** [new RegExp(`\\b${keyword}\\b`, 'i')] *)
Definition keywordRegex (keyword : jsstring) : regex :=
  [WordB; Lit [keyword]; WordB].

(** Step 1: the first forbidden keyword found, for a role other than ADMIN. *)
Definition forbiddenKeywordPass (sql : jsstring) (role : UserRole)
  : option jsstring :=
  if negb (roleEqb role ADMIN)
  then List.find (fun keyword => test (keywordRegex keyword) sql)
         FORBIDDEN_SQL_KEYWORDS
  else None.

(** Step 2: more than one non-blank part between semicolons. *)
Definition multiStatementPass (sql : jsstring) : bool :=
  if includes sql (str ";")
  then
    let parts :=
      List.filter (fun p => Nat.ltb 0 (length (trim p))) (split ";" sql) in
    Nat.ltb 1 (length parts)
  else false.

(** Step 3: the first table of the schema named in the text that the role
    may not query. *)
Definition tableAccessPass (sql : jsstring) (role : UserRole)
    (activeSchema : list TableSchema) : option jsstring :=
  if Nat.ltb 0 (length activeSchema)
  then
    let accessibleTables :=
      map (fun t => toLowerCase (tableName t))
        (List.filter
           (fun table =>
              match restrictedRoles table with
              | None => true
              | Some rs => existsb (roleEqb role) rs
              end) activeSchema) in
    let sqlTokens := wordTokens (toLowerCase sql) in
    let usedTables :=
      List.filter
        (fun token =>
           existsb (fun s => strEqb (toLowerCase (tableName s)) token)
             activeSchema) sqlTokens in
    List.find (fun table => negb (existsb (strEqb table) accessibleTables))
      usedTables
  else None.

(** [/^\s*(SELECT|WITH)\b/i] *)
Definition selectOrCteRegex : regex :=
  [Bol; Star isSpace; Lit [str "SELECT"; str "WITH"]; WordB].

Definition rownumWrap (sanitizedSql : jsstring) : jsstring :=
  str "SELECT * FROM (" ++ sanitizedSql ++ str ") WHERE ROWNUM <= 1000".

(** Step 4: the row limit. *)
Definition enforceLimits (sql : jsstring) : jsstring :=
  let upperSql := toUpperCase sql in
  let sanitizedSql := stripTrailingSemicolon (trim sql) in
  let isSelectOrCTE := test selectOrCteRegex sanitizedSql in
  if isSelectOrCTE && negb (includes upperSql (str "ROWNUM"))
     && negb (includes upperSql (str "FETCH FIRST"))
  then rownumWrap sanitizedSql
  else sanitizedSql.

(** Steps 2 to 4, which every role goes through. *)
Definition afterKeywordPass (sql : jsstring) (role : UserRole)
    (schema : option (list TableSchema)) : ValidationResult :=
  let activeSchema :=
    match schema with Some s => s | None => MOCK_DATABASE_SCHEMA end in
  if multiStatementPass sql then invalid multipleStatementsError
  else
    match tableAccessPass sql role activeSchema with
    | Some table => invalid (accessDeniedError table)
    | None => valid (enforceLimits sql)
    end.

(** [SQLValidator.validate(sql, role, schema?)] *)
Definition validate (sql : jsstring) (role : UserRole)
    (schema : option (list TableSchema)) : ValidationResult :=
  match forbiddenKeywordPass sql role with
  | Some keyword => invalid (forbiddenKeywordError keyword)
  | None => afterKeywordPass sql role schema
  end.

End Validator.

(** ** The role-based access control middleware

    Roles and operations are the strings the functions receive.  The
    [role_permissions] table is a list of rows in storage order; the
    integer columns [is_allowed] and [max_rows] are taken to hold integers
    (not NULL). *)

Module Rbac.

(** A row of [role_permissions]. *)
Record RolePermission : Type := mkPerm {
  role : jsstring;
  operation : jsstring;
  is_allowed : Z;
  max_rows : Z }.

Definition PermissionTable := list RolePermission.

(** The rows [schema.sql] inserts. *)
Definition defaultPermissions : PermissionTable :=
  map (fun '(r, o, a, m) => mkPerm (str r) (str o) a m)
    [ ("ADMIN", "SELECT", 1, 100000); ("ADMIN", "INSERT", 1, 100000);
      ("ADMIN", "UPDATE", 1, 100000); ("ADMIN", "DELETE", 1, 100000);
      ("ADMIN", "JOIN", 1, 100000); ("ADMIN", "CTE", 1, 100000);
      ("DEVELOPER", "SELECT", 1, 10000); ("DEVELOPER", "INSERT", 0, 0);
      ("DEVELOPER", "UPDATE", 0, 0); ("DEVELOPER", "DELETE", 0, 0);
      ("DEVELOPER", "JOIN", 1, 10000); ("DEVELOPER", "CTE", 1, 10000);
      ("ANALYST", "SELECT", 1, 1000); ("ANALYST", "INSERT", 0, 0);
      ("ANALYST", "UPDATE", 0, 0); ("ANALYST", "DELETE", 0, 0);
      ("ANALYST", "JOIN", 0, 0); ("ANALYST", "CTE", 0, 0) ]%string.

(** [permissionQueries.isOperationAllowed.get(role, operation)]:
    the first row [WHERE role = ? AND operation = ?], if any. *)
Definition isOperationAllowed (tbl : PermissionTable) (r o : jsstring)
  : option RolePermission :=
  List.find (fun p => strEqb (role p) r && strEqb (operation p) o) tbl.

(** [permissionQueries.getByRole.all(role)] *)
Definition getByRole (tbl : PermissionTable) (r : jsstring)
  : list RolePermission :=
  List.filter (fun p => strEqb (role p) r) tbl.

Record OperationPermission : Type := mkOpPerm {
  allowed : bool;
  maxRows : Z }.

(** [checkOperationPermission(role, operation)] *)
Definition checkOperationPermission (tbl : PermissionTable)
    (r o : jsstring) : OperationPermission :=
  if strEqb o (str "DDL") then mkOpPerm (strEqb r (str "ADMIN")) 0
  else if strEqb o (str "UNKNOWN") then mkOpPerm false 0
  else
    match isOperationAllowed tbl r (toUpperCase o) with
    | None => mkOpPerm false 0
    | Some permission =>
        mkOpPerm (is_allowed permission =? 1) (max_rows permission)
    end.

Record RolePermissions : Type := mkRolePerms {
  allowedOperations : list jsstring;
  roleMaxRows : Z }.

(** [getRolePermissions(role)]: the loop over the role's rows. *)
Definition getRolePermissions (tbl : PermissionTable) (r : jsstring)
  : RolePermissions :=
  fold_left
    (fun result perm =>
       if negb (is_allowed perm =? 0)
       then mkRolePerms (allowedOperations result ++ [operation perm])
              (Z.max (roleMaxRows result) (max_rows perm))
       else result)
    (getByRole tbl r)
    (mkRolePerms [] 1000).

(** The patterns of [validateSqlPermissions]. *)
Definition startsRegex (alts : list jsstring) : regex :=
  [Bol; Star isSpace; Lit alts].

Definition joinRegex : regex := [WordB; Lit [str "JOIN"]; WordB].

Definition cteRegex : regex :=
  [WordB; Lit [str "WITH"]; WordB;
   Star (fun c => negb (isLineTerminator c));
   WordB; Lit [str "AS"]; WordB].

(** The operation type detected from the text. *)
Definition detectOperation (upperSql : jsstring) : jsstring :=
  if test (startsRegex [str "SELECT"]) upperSql
     || test (startsRegex [str "WITH"]) upperSql then str "SELECT"
  else if test (startsRegex [str "INSERT"; str "INTO"]) upperSql
  then str "INSERT"
  else if test (startsRegex [str "UPDATE"]) upperSql then str "UPDATE"
  else if test (startsRegex [str "DELETE"]) upperSql then str "DELETE"
  else if test (startsRegex [str "CREATE"; str "DROP"; str "ALTER";
                             str "TRUNCATE"; str "GRANT"; str "REVOKE";
                             str "RENAME"]) upperSql
  then str "DDL"
  else str "UNKNOWN".

Record PermissionCheck : Type := mkCheck {
  valid : bool;
  error : option jsstring;
  checkMaxRows : Z }.

Definition operationError (o : jsstring) : jsstring :=
  str "You do not have permission to run " ++ o ++ str " queries".

Definition joinError : jsstring :=
  str "You do not have permission to use JOIN operations".

Definition cteError : jsstring :=
  str "You do not have permission to use Common Table Expressions (CTE)".

(** [validateSqlPermissions(sql, role)] *)
Definition validateSqlPermissions (tbl : PermissionTable)
    (sql r : jsstring) : PermissionCheck :=
  let upperSql := trim (toUpperCase sql) in
  let permissions := getRolePermissions tbl r in
  let o := detectOperation upperSql in
  let opPermission := checkOperationPermission tbl r o in
  if negb (allowed opPermission)
  then mkCheck false (Some (operationError o)) 0
  else if test joinRegex upperSql
          && negb (allowed (checkOperationPermission tbl r (str "JOIN")))
  then mkCheck false (Some joinError) 0
  else if test cteRegex upperSql
          && negb (allowed (checkOperationPermission tbl r (str "CTE")))
  then mkCheck false (Some cteError) 0
  else mkCheck true None (maxRows opPermission).

End Rbac.

(** ** The connection pool manager

    The functions of the pool utility are [async]: between two [await]s a
    call runs without interruption, and at an [await] other calls may run.
    A call of [getConnection] is therefore modelled as a task that advances
    by atomic segments ([step]); a single caller runs the segments back to
    back ([getConnection]), concurrent callers interleave them
    ([runSchedule]).  What the drivers, the credential store and the
    backends do is given by a [World].  [executionTimeMs], a wall-clock
    difference, is left out of the query result; connection ids and
    [maxRows] are integers. *)

Module Pool.

(** The [type] tag of a pool: the engines [createPool] knows. *)
Inductive Engine : Type := ORACLE | MYSQL | POSTGRESQL.

(** A row of [db_connections]. *)
Record DbConnection : Type := mkDbConnection {
  id : Z;
  name : jsstring;
  db_type : jsstring;
  host : jsstring;
  port : Z;
  database_name : jsstring;
  username : jsstring;
  password_encrypted : jsstring;
  is_active : Z }.

(** A pool a driver has built: its rank among all pools built so far, and
    the settings it was given. *)
Record PoolObject : Type := mkPoolObject {
  serial : nat;
  builtFor : DbConnection;
  password : jsstring;
  poolMax : Z }.

(** [{ type, pool }] *)
Record PoolInfo : Type := mkPoolInfo {
  type : Engine;
  pool : PoolObject }.

(** [{ connection, type, release }] *)
Record Handle : Type := mkHandle {
  connection : PoolObject;
  handleType : Engine }.

Inductive PoolError : Type :=
| ConnectionNotFound (connectionId : Z)
| ConnectionInactive (connName : jsstring)
| DecryptFailed
| UnsupportedType (dbType : jsstring)
| DriverNotInstalled (e : Engine)
| PoolCreationFailed (e : Engine)
| AcquireFailed (e : Engine)
| ExecutionFailed (msg : jsstring).

Definition Row := list (jsstring * jsstring).

Inductive outcome (A : Type) : Type :=
| Returns (a : A)
| Throws (msg : jsstring).
Arguments Returns {A} a.
Arguments Throws {A} msg.

(** What [connection.execute] and [connection.query] resolve to. *)
Record OracleResult : Type := mkOracleResult {
  metaData : option (list jsstring);
  oracleRows : option (list Row) }.

Record MysqlResult : Type := mkMysqlResult {
  mysqlRows : list Row;
  mysqlFields : option (list jsstring) }.

Record PgResult : Type := mkPgResult {
  pgFields : option (list jsstring);
  pgRows : list Row }.

(** The environment of the pool manager. *)
Record World : Type := mkWorld {
  decrypt : jsstring -> option jsstring;
  importDriver : Engine -> bool;
  constructPool : Engine -> DbConnection -> bool;
  acquire : PoolObject -> bool;
  (* connection.execute(sql, [], { outFormat, maxRows }) *)
  oracleExecute : PoolObject -> jsstring -> Z -> outcome OracleResult;
  (* connection.execute(sql) *)
  mysqlExecute : PoolObject -> jsstring -> outcome MysqlResult;
  (* connection.query(sql) *)
  pgQuery : PoolObject -> jsstring -> outcome PgResult }.

(** The module state: the [pools] map, every pool built so far (registered
    or not), and the number of connections handed out and not released. *)
Record State : Type := mkState {
  pools : gmap Z PoolInfo;
  constructed : list PoolObject;
  borrowed : nat }.

Definition initialState : State := mkState ∅ [] 0.

(** [connectionQueries.findById.get(connectionId)] *)
Definition findById (conns : list DbConnection) (connectionId : Z)
  : option DbConnection :=
  List.find (fun c => id c =? connectionId) conns.

(** The [switch] on [db_type.toUpperCase()]. *)
Definition engineOf (dbType : jsstring) : option Engine :=
  let t := toUpperCase dbType in
  if strEqb t (str "ORACLE") then Some ORACLE
  else if strEqb t (str "MYSQL") then Some MYSQL
  else if strEqb t (str "POSTGRESQL") then Some POSTGRESQL
  else None.

(** Where a call of [getConnection] stands. *)
Inductive Task : Type :=
| Start (connectionId : Z)
| Importing (connectionId : Z) (connConfig : DbConnection)
    (pw : jsstring) (e : Engine)
| Constructing (connectionId : Z) (poolInfo : PoolInfo)
| Acquiring (poolInfo : PoolInfo)
| Done (h : Handle)
| Failed (err : PoolError).

(** One atomic segment of [getConnection] (with [createPool] and
    [getDriver] inlined), up to its next [await]. *)
Definition step (w : World) (conns : list DbConnection) (t : Task)
    (st : State) : Task * State :=
  match t with
  | Start connectionId =>
      match findById conns connectionId with
      | None => (Failed (ConnectionNotFound connectionId), st)
      | Some connConfig =>
          if is_active connConfig =? 0
          then (Failed (ConnectionInactive (name connConfig)), st)
          else
            match pools st !! connectionId with
            | Some poolInfo => (Acquiring poolInfo, st)
            | None =>
                (* createPool(connConfig), up to [await getDriver(...)] *)
                match decrypt w (password_encrypted connConfig) with
                | None => (Failed DecryptFailed, st)
                | Some pw =>
                    match engineOf (db_type connConfig) with
                    | None => (Failed (UnsupportedType (db_type connConfig)), st)
                    | Some e => (Importing connectionId connConfig pw e, st)
                    end
                end
            end
      end
  | Importing connectionId connConfig pw e =>
      (* the driver is there: the pool is built *)
      if negb (importDriver w e) then (Failed (DriverNotInstalled e), st)
      else if negb (constructPool w e connConfig)
      then (Failed (PoolCreationFailed e), st)
      else
        let p := mkPoolObject (length (constructed st)) connConfig pw 5 in
        (Constructing connectionId (mkPoolInfo e p),
         mkState (pools st) (constructed st ++ [p]) (borrowed st))
  | Constructing connectionId poolInfo =>
      (* pools.set(connectionId, poolInfo); pools.get(connectionId) *)
      (Acquiring poolInfo,
       mkState (<[connectionId := poolInfo]> (pools st)) (constructed st)
         (borrowed st))
  | Acquiring poolInfo =>
      if acquire w (pool poolInfo)
      then (Done (mkHandle (pool poolInfo) (type poolInfo)),
            mkState (pools st) (constructed st) (S (borrowed st)))
      else (Failed (AcquireFailed (type poolInfo)), st)
  | Done h => (Done h, st)
  | Failed err => (Failed err, st)
  end.

Fixpoint runTask (w : World) (conns : list DbConnection) (n : nat)
    (t : Task) (st : State) : Task * State :=
  match n with
  | O => (t, st)
  | S n' => let '(t', st') := step w conns t st in runTask w conns n' t' st'
  end.

(** [await createPool(connection)] with no other call in flight. *)
Definition createPool (w : World) (connConfig : DbConnection) (st : State)
  : (PoolError + PoolInfo) * State :=
  match decrypt w (password_encrypted connConfig) with
  | None => (inl DecryptFailed, st)
  | Some pw =>
      match engineOf (db_type connConfig) with
      | None => (inl (UnsupportedType (db_type connConfig)), st)
      | Some e =>
          if negb (importDriver w e) then (inl (DriverNotInstalled e), st)
          else if negb (constructPool w e connConfig)
          then (inl (PoolCreationFailed e), st)
          else
            let p := mkPoolObject (length (constructed st)) connConfig pw 5 in
            (inr (mkPoolInfo e p),
             mkState (pools st) (constructed st ++ [p]) (borrowed st))
      end
  end.

(** Borrowing a connection from the pool: the [switch (poolInfo.type)]. *)
Definition acquireFrom (w : World) (poolInfo : PoolInfo) (st : State)
  : (PoolError + Handle) * State :=
  if acquire w (pool poolInfo)
  then (inr (mkHandle (pool poolInfo) (type poolInfo)),
        mkState (pools st) (constructed st) (S (borrowed st)))
  else (inl (AcquireFailed (type poolInfo)), st).

(** [await getConnection(connectionId)] with no other call in flight.
    [pools.get] right after [pools.set] reads the pool just stored. *)
Definition getConnection (w : World) (conns : list DbConnection)
    (connectionId : Z) (st : State) : (PoolError + Handle) * State :=
  match findById conns connectionId with
  | None => (inl (ConnectionNotFound connectionId), st)
  | Some connConfig =>
      if is_active connConfig =? 0
      then (inl (ConnectionInactive (name connConfig)), st)
      else
        match pools st !! connectionId with
        | Some poolInfo => acquireFrom w poolInfo st
        | None =>
            match createPool w connConfig st with
            | (inl err, st') => (inl err, st')
            | (inr poolInfo, st') =>
                acquireFrom w poolInfo
                  (mkState (<[connectionId := poolInfo]> (pools st'))
                     (constructed st') (borrowed st'))
            end
        end
  end.

(** Concurrent calls: the scheduler picks which task runs its next segment. *)
Definition System : Type := list Task * State.

Definition sysStep (w : World) (conns : list DbConnection) (i : nat)
    (sys : System) : System :=
  match fst sys !! i with
  | Some t =>
      let '(t', st') := step w conns t (snd sys) in
      (<[i := t']> (fst sys), st')
  | None => sys
  end.

Definition runSchedule (w : World) (conns : list DbConnection)
    (schedule : list nat) (sys : System) : System :=
  fold_left (fun s i => sysStep w conns i s) schedule sys.

(** [rows.slice(0, maxRows)] for an integer [maxRows]. *)
Definition slice0 {A : Type} (l : list A) (maxRows : Z) : list A :=
  let len := Z.of_nat (length l) in
  let final := if maxRows <? 0 then Z.max (len + maxRows) 0
               else Z.min maxRows len in
  firstn (Z.to_nat final) l.

Record QueryResult : Type := mkQueryResult {
  columns : list jsstring;
  rows : list Row;
  rowCount : Z }.

Definition orEmpty {A : Type} (o : option (list A)) : list A :=
  match o with Some l => l | None => [] end.

(** The [switch (type)] of [executeQuery], on a borrowed connection. *)
Definition runOn (w : World) (h : Handle) (sql : jsstring) (maxRows : Z)
  : PoolError + QueryResult :=
  match handleType h with
  | ORACLE =>
      if negb (importDriver w ORACLE) then inl (DriverNotInstalled ORACLE)
      else
        match oracleExecute w (connection h) sql maxRows with
        | Throws msg => inl (ExecutionFailed msg)
        | Returns result =>
            inr (mkQueryResult (orEmpty (metaData result))
                   (orEmpty (oracleRows result))
                   (match oracleRows result with
                    | Some r => Z.of_nat (length r)
                    | None => 0
                    end))
        end
  | MYSQL =>
      match mysqlExecute w (connection h) sql with
      | Throws msg => inl (ExecutionFailed msg)
      | Returns result =>
          let limitedRows := slice0 (mysqlRows result) maxRows in
          inr (mkQueryResult (orEmpty (mysqlFields result)) limitedRows
                 (Z.of_nat (length limitedRows)))
      end
  | POSTGRESQL =>
      match pgQuery w (connection h) sql with
      | Throws msg => inl (ExecutionFailed msg)
      | Returns result =>
          let limitedRows := slice0 (pgRows result) maxRows in
          inr (mkQueryResult (orEmpty (pgFields result)) limitedRows
                 (Z.of_nat (length limitedRows)))
      end
  end.

(** [release()] *)
Definition release (st : State) : State :=
  mkState (pools st) (constructed st) (Nat.pred (borrowed st)).

(** [executeQuery(connectionId, sql, maxRows = 1000)] with no other call in
    flight. *)
Definition executeQuery (w : World) (conns : list DbConnection)
    (connectionId : Z) (sql : jsstring) (maxRows : option Z) (st : State)
  : (PoolError + QueryResult) * State :=
  let limit := match maxRows with Some m => m | None => 1000 end in
  match getConnection w conns connectionId st with
  | (inr h, st') => (runOn w h sql limit, release st')
  | (inl err, st') => (inl err, st')
  end.

End Pool.

(** ** The words of the specification *)

Module Words.

(** Equal up to the case of letters, character by character: what a
    pattern with the [i] flag takes for the same. *)
Definition sameWord (m kw : jsstring) : Prop :=
  map upperChar m = map upperChar kw.

(** [kw] stands in [s] as a word of its own: neither the character before
    it nor the one after it is a word character. *)
Definition occursAsWholeWord (kw s : jsstring) : Prop :=
  exists pre m post,
    s = pre ++ m ++ post /\ sameWord m kw /\
    isWordOpt (last pre) = false /\ isWordOpt (head post) = false.



(** A keyword: letters, digits and underscores, at least one. *)
Definition isKeyword (kw : jsstring) : Prop :=
  kw <> [] /\ forallb isWordChar kw = true.

(** The character before the rest once [m] has been read. *)
Definition lastOr (prev : option ascii) (m : jsstring) : option ascii :=
  match last m with
  | Some c => Some c
  | None => prev
  end.

(** The rows of a role whose [is_allowed] is set. *)
Definition allowedRows (tbl : Rbac.PermissionTable) (r : jsstring)
  : list Rbac.RolePermission :=
  List.filter (fun p => negb (Rbac.is_allowed p =? 0)) (Rbac.getByRole tbl r).

(** The largest [max_rows] among the allowed operations of a role, when it
    has one: what the specification gives as the role's [maxRows]. *)
Definition maxOverAllowed (tbl : Rbac.PermissionTable) (r : jsstring)
  : option Z :=
  match allowedRows tbl r with
  | [] => None
  | p :: ps => Some (fold_right Z.max (Rbac.max_rows p) (map Rbac.max_rows ps))
  end.

(** The table holds no row for the role and the operation. *)
Definition noRowFor (tbl : Rbac.PermissionTable) (r o : jsstring) : Prop :=
  forall p, In p tbl -> ~ (Rbac.role p = r /\ Rbac.operation p = o).

(** What the specification expects of stacked statements: an invalid
    result with the multiple-statements error. *)
Definition isMultipleStatementsRejection (r : Validator.ValidationResult)
  : Prop :=
  Validator.isValid r = false /\
  Validator.error r = Some Validator.multipleStatementsError.

(** The pool the [j]-th of several calls builds for one connection, when
    [base] pools were built before. *)
Definition nthPool (c : Pool.DbConnection) (pw : jsstring) (base j : nat)
  : Pool.PoolObject :=
  Pool.mkPoolObject (base + j) c pw 5.

(** A result that keeps to the row limit. *)
Definition withinLimit (maxRows : Z) (res : Pool.QueryResult) : Prop :=
  Z.of_nat (length (Pool.rows res)) <= maxRows /\
  Pool.rowCount res <= maxRows.

End Words.
Export Words.

(** ** A deployment to run the pool manager on

    Three connections, one per engine; every driver is installed and every
    backend answers.  The Oracle backend answers with one row, the two
    others with three. *)

Module Scenario.
Import Pool.

Definition connections : list DbConnection :=
  [ mkDbConnection 1 (str "hr") (str "ORACLE") (str "ora.local") 1521
      (str "XE") (str "hr") (str "c2VjcmV0") 1;
    mkDbConnection 2 (str "shop") (str "MYSQL") (str "my.local") 3306
      (str "shop") (str "app") (str "c2VjcmV0") 1;
    mkDbConnection 3 (str "crm") (str "POSTGRESQL") (str "pg.local") 5432
      (str "crm") (str "app") (str "c2VjcmV0") 1;
    mkDbConnection 4 (str "old") (str "MYSQL") (str "old.local") 3306
      (str "old") (str "app") (str "c2VjcmV0") 0 ].

Definition row (n : string) : Row := [(str "ID", str n)].

Definition world : World :=
  mkWorld
    (fun blob => Some blob)
    (fun _ => true)
    (fun _ _ => true)
    (fun _ => true)
    (fun _ _ _ => Returns (mkOracleResult (Some [str "ID"]) (Some [row "1"])))
    (fun _ _ =>
       Returns (mkMysqlResult [row "1"; row "2"; row "3"] (Some [str "ID"])))
    (fun _ _ =>
       Returns (mkPgResult (Some [str "ID"]) [row "1"; row "2"; row "3"])).

End Scenario.

(** ** Further notions

    Words for the properties of the functions beyond the ones above. *)

Module Notions.

(** The text has something to run: a character that is neither white space
    nor a semicolon. *)
Definition hasStatement (s : jsstring) : Prop :=
  exists c, In c s /\ isSpace c = false /\ c <> ";"%char.

(** Only white space. *)
Definition isBlank (s : jsstring) : Prop := forallb isSpace s = true.

(** [tok] is a maximal run of word characters of [s]. *)
Definition isWordOf (tok s : jsstring) : Prop :=
  exists pre post,
    s = pre ++ tok ++ post /\ tok <> [] /\ forallb isWordChar tok = true /\
    isWordOpt (last pre) = false /\ isWordOpt (head post) = false.

(** The role is not shut out of the table. *)
Definition mayQuery (role : Validator.UserRole) (t : Validator.TableSchema)
  : bool :=
  match Validator.restrictedRoles t with
  | None => true
  | Some rs => existsb (Validator.roleEqb role) rs
  end.

(** The schema [validate] works with. *)
Definition activeSchemaOf (schema : option (list Validator.TableSchema))
  : list Validator.TableSchema :=
  match schema with
  | Some s => s
  | None => Validator.MOCK_DATABASE_SCHEMA
  end.

(** The role can query some table of the schema that goes by the name
    [d] once in lower case. *)
Definition accessibleName (role : Validator.UserRole)
    (schema : list Validator.TableSchema) (d : jsstring) : Prop :=
  exists t, In t schema /\ mayQuery role t = true /\
            toLowerCase (Validator.tableName t) = d.

(** After white space, the text begins with the letters of one of the
    words [kws], in any case; what follows them is left open. *)
Definition beginsWith (kws : list jsstring) (sql : jsstring) : Prop :=
  exists ws kw m rest,
    sql = ws ++ m ++ rest /\ isBlank ws /\ In kw kws /\ sameWord m kw.

(** The keywords [validateSqlPermissions] takes for DDL. *)
Definition DDL_KEYWORDS : list jsstring :=
  map str
    [ "CREATE"; "DROP"; "ALTER"; "TRUNCATE"; "GRANT"; "REVOKE";
      "RENAME" ]%string.

(** The first letters of the thirteen keywords the classification knows. *)
Definition KEYWORD_INITIALS : list ascii :=
  [ "S"; "W"; "I"; "U"; "D"; "C"; "A"; "T"; "G"; "R" ]%char.

(** What [schema.sql] and the update route keep of [role_permissions]:
    [is_allowed] is 0 or 1, and a role has one row per operation. *)
Definition wellFormedTable (tbl : Rbac.PermissionTable) : Prop :=
  (forall p, In p tbl -> Rbac.is_allowed p = 0 \/ Rbac.is_allowed p = 1) /\
  (forall p q, In p tbl -> In q tbl ->
     Rbac.role p = Rbac.role q -> Rbac.operation p = Rbac.operation q ->
     p = q).

End Notions.
Export Notions.

(** ** The role middleware and the grants

    [ROLE_HIERARCHY] is a plain object read with the role as key.  A key
    of its own gives the rank.  The name of a member that every object
    inherits ([toString], [constructor], [__proto__], ...) gives that
    member, a function or an object; any other name gives [undefined].
    Under [>=] two ranks compare as numbers; a member is turned into the
    text it prints as, which is no number, so against a rank the
    comparison is false and two members compare as their texts do; and a
    comparison with [undefined] is false. *)

Module Middleware.

Definition ROLE_HIERARCHY : list (jsstring * Z) :=
  [ (str "ADMIN", 3); (str "DEVELOPER", 2); (str "ANALYST", 1) ].

(** The own keys: the rank of a role. *)
Definition rank (r : jsstring) : option Z :=
  option_map snd (List.find (fun e => strEqb (fst e) r) ROLE_HIERARCHY).

(** What the object inherits: for the name of a member, the text the
    member prints as. *)
Definition Prototype : Type := jsstring -> option jsstring.

Inductive Entry : Type :=
| Rank (n : Z)
| Inherited (text : jsstring)
| Undefined.

(** [ROLE_HIERARCHY[role]] *)
Definition entryOf (proto : Prototype) (r : jsstring) : Entry :=
  match rank r with
  | Some n => Rank n
  | None =>
      match proto r with
      | Some text => Inherited text
      | None => Undefined
      end
  end.

(** [a >= b] on two texts: by code units from the left, a text being at
    least each of its beginnings. *)
Fixpoint textGeq (a b : jsstring) : bool :=
  match a, b with
  | _, [] => true
  | [], _ :: _ => false
  | x :: a', y :: b' =>
      if Nat.ltb (code y) (code x) then true
      else if Nat.ltb (code x) (code y) then false
      else textGeq a' b'
  end.

(** [a >= b] *)
Definition geq (a b : Entry) : bool :=
  match a, b with
  | Rank x, Rank y => y <=? x
  | Inherited s, Inherited t => textGeq s t
  | _, _ => false
  end.

(** [hasRole(userRole, requiredRole)] *)
Definition hasRole (proto : Prototype) (userRole requiredRole : jsstring)
  : bool :=
  geq (entryOf proto userRole) (entryOf proto requiredRole).

(** The members a plain object inherits under Node.js, with the texts
    they print as: the functions of [Object.prototype], and [__proto__],
    which gives the prototype itself. *)
Definition nativeFunction (f : string) : jsstring :=
  str "function " ++ str f ++ str "() { [native code] }".

Definition nodePrototype : Prototype := fun r =>
  option_map snd
    (List.find (fun e => strEqb (fst e) r)
       [ (str "constructor", nativeFunction "Object");
         (str "__defineGetter__", nativeFunction "__defineGetter__");
         (str "__defineSetter__", nativeFunction "__defineSetter__");
         (str "hasOwnProperty", nativeFunction "hasOwnProperty");
         (str "__lookupGetter__", nativeFunction "__lookupGetter__");
         (str "__lookupSetter__", nativeFunction "__lookupSetter__");
         (str "isPrototypeOf", nativeFunction "isPrototypeOf");
         (str "propertyIsEnumerable", nativeFunction "propertyIsEnumerable");
         (str "toString", nativeFunction "toString");
         (str "valueOf", nativeFunction "valueOf");
         (str "__proto__", str "[object Object]");
         (str "toLocaleString", nativeFunction "toLocaleString") ]).

(** [req.user] *)
Record User : Type := mkUser {
  userId : Z;
  email : jsstring;
  userName : jsstring;
  userRole : jsstring }.

(** What a middleware does: it hands on to the next handler, or answers
    with a status and an error (and, for 403, the caller's role). *)
Inductive Outcome : Type :=
| Next
| Status (code : Z) (error : jsstring) (yourRole : option jsstring).

(** [requireRole(requiredRole)], applied to a request. *)
Definition requireRole (proto : Prototype) (requiredRole : jsstring)
    (user : option User) : Outcome :=
  match user with
  | None => Status 401 (str "Authentication required") None
  | Some u =>
      if negb (hasRole proto (userRole u) requiredRole)
      then Status 403 (str "Access denied. Required role: " ++ requiredRole)
             (Some (userRole u))
      else Next
  end.

Definition requireAdmin (proto : Prototype) : option User -> Outcome :=
  requireRole proto (str "ADMIN").

Definition requireDeveloper (proto : Prototype) : option User -> Outcome :=
  requireRole proto (str "DEVELOPER").

(** A row of [user_db_access]. *)
Record Grant : Type := mkGrant {
  user_id : Z;
  db_connection_id : Z }.

(** [hasDbAccess(userId, connectionId)] *)
Definition hasDbAccess (grants : list Grant) (uid connectionId : Z) : bool :=
  match List.find
          (fun g => (user_id g =? uid) && (db_connection_id g =? connectionId))
          grants with
  | Some _ => true
  | None => false
  end.

End Middleware.

(** ** Closing pools and reading the schema *)

Module Lifecycle.
Import Pool.

(** [closePool(connectionId)]: the pool's own close is called (what it
    throws is logged and dropped) and the entry is deleted.  [closed]
    collects the pools on which close was called. *)
Definition closePool (connectionId : Z) (st : State)
    (closed : list PoolObject) : State * list PoolObject :=
  match pools st !! connectionId with
  | Some poolInfo =>
      (mkState (delete connectionId (pools st)) (constructed st)
         (borrowed st),
       closed ++ [pool poolInfo])
  | None => (st, closed)
  end.

(** [closeAllPools()] with no other call in flight: [closePool] for every
    id of the registry.  (The ids are taken in the order of the model's
    map; the registry does not record the order of insertion.) *)
Definition closeAllPools (st : State) (closed : list PoolObject)
  : State * list PoolObject :=
  fold_left (fun acc connectionId => closePool connectionId (fst acc) (snd acc))
    (map fst (map_to_list (pools st))) (st, closed).

(** What the catalog queries of [getSchema] answer: the table names, and
    for a table its columns as (name, type). *)
Record Catalog : Type := mkCatalog {
  oracleTables : PoolObject -> outcome (option (list jsstring));
  oracleColumns :
    PoolObject -> jsstring -> outcome (option (list (jsstring * jsstring)));
  mysqlTables : PoolObject -> outcome (list jsstring);
  mysqlColumns : PoolObject -> jsstring -> outcome (list (jsstring * jsstring));
  pgTables : PoolObject -> outcome (list jsstring);
  pgColumns : PoolObject -> jsstring -> outcome (list (jsstring * jsstring)) }.

Definition columnOf (c : jsstring * jsstring) : Validator.Column :=
  Validator.mkColumn (fst c) (snd c) [].

(** The loop over the tables: one entry per table, and the first query
    that throws ends it. *)
Fixpoint collect (tables : list jsstring)
    (columnsOf : jsstring -> outcome (list (jsstring * jsstring)))
  : PoolError + list Validator.TableSchema :=
  match tables with
  | [] => inr []
  | t :: rest =>
      match columnsOf t with
      | Throws msg => inl (ExecutionFailed msg)
      | Returns cols =>
          match collect rest columnsOf with
          | inl err => inl err
          | inr schema =>
              inr (Validator.mkTable t (map columnOf cols) None :: schema)
          end
      end
  end.

Definition orNone {A : Type} (o : outcome (option (list A)))
  : outcome (list A) :=
  match o with
  | Returns r => Returns (orEmpty r)
  | Throws msg => Throws msg
  end.

(** The [switch (type)] of [getSchema], on a borrowed connection. *)
Definition readSchema (w : World) (cat : Catalog) (h : Handle)
  : PoolError + list Validator.TableSchema :=
  match handleType h with
  | ORACLE =>
      if negb (importDriver w ORACLE) then inl (DriverNotInstalled ORACLE)
      else
        match oracleTables cat (connection h) with
        | Throws msg => inl (ExecutionFailed msg)
        | Returns tables =>
            collect (orEmpty tables)
              (fun t => orNone (oracleColumns cat (connection h) t))
        end
  | MYSQL =>
      match mysqlTables cat (connection h) with
      | Throws msg => inl (ExecutionFailed msg)
      | Returns tables => collect tables (mysqlColumns cat (connection h))
      end
  | POSTGRESQL =>
      match pgTables cat (connection h) with
      | Throws msg => inl (ExecutionFailed msg)
      | Returns tables => collect tables (pgColumns cat (connection h))
      end
  end.

(** [getSchema(connectionId)] with no other call in flight. *)
Definition getSchema (w : World) (cat : Catalog) (conns : list DbConnection)
    (connectionId : Z) (st : State)
  : (PoolError + list Validator.TableSchema) * State :=
  match getConnection w conns connectionId st with
  | (inr h, st') => (readSchema w cat h, release st')
  | (inl err, st') => (inl err, st')
  end.

End Lifecycle.

(** ** A catalog for the deployment above *)

Module Deployment.
Import Pool Lifecycle.

Definition shopColumns (t : jsstring) : list (jsstring * jsstring) :=
  if strEqb t (str "orders")
  then [(str "id", str "int"); (str "total", str "decimal")]
  else [(str "id", str "int")].

Definition catalog : Catalog :=
  mkCatalog
    (fun _ => Returns (Some [str "EMPLOYEES"]))
    (fun _ _ => Returns (Some [(str "ID", str "NUMBER")]))
    (fun _ => Returns [str "customers"; str "orders"])
    (fun _ t => Returns (shopColumns t))
    (fun _ => Returns [str "accounts"])
    (fun _ t => Throws (str "permission denied for table " ++ t)).

End Deployment.

(** ** The route [POST /api/query/execute]

    The handler, after [authMiddleware] has attached the user.  The state
    it works on is the pool manager's and the rows of [query_logs]
    ([execution_time_ms], a wall-clock difference, is left out).  Foreign
    keys are on: a log row can be inserted only for a connection id that
    [db_connections] holds, and the insert throws otherwise.  What is
    thrown outside the handler's [try] ends it without a response.  The
    [connectionId] of the body is a number or missing: this is what the
    model covers of it. *)

Module QueryRoute.
Import Pool Middleware.

Inductive LogStatus : Type := SUCCESS | FAILED | BLOCKED.

(** An error message: a text of the handler, the message of what the pool
    utility threw, or that of a failed insert. *)
Inductive Message : Type :=
| Text (msg : jsstring)
| Raised (err : PoolError)
| ConstraintFailed.

Record LogEntry : Type := mkLog {
  logUser : Z;
  logConnection : Z;
  logSql : jsstring;
  logStatus : LogStatus;
  logError : option Message;
  logRows : Z }.

Inductive Body : Type :=
| ErrorBody (error : option Message)
| RowsBody (result : QueryResult) (sql : jsstring).

Record Response : Type := mkResponse {
  status : Z;
  body : Body }.

(** [req.user] and [req.body]; a field that is missing is [None]. *)
Record Request : Type := mkRequest {
  user : User;
  connectionId : option Z;
  sql : option jsstring }.

Definition ServerState : Type := State * list LogEntry.

Definition respond (code : Z) (msg : string) : Response :=
  mkResponse code (ErrorBody (Some (Text (str msg)))).

(** [logQueries.create.run(...)] *)
Definition insertLog (conns : list DbConnection) (entry : LogEntry)
    (logs : list LogEntry) : option (list LogEntry) :=
  match findById conns (logConnection entry) with
  | Some _ => Some (logs ++ [entry])
  | None => None
  end.

(** The [catch] of the handler. *)
Definition onError (conns : list DbConnection) (uid cid : Z) (q : jsstring)
    (msg : Message) (st : State) (logs : list LogEntry)
  : option Response * ServerState :=
  match insertLog conns (mkLog uid cid q FAILED (Some msg) 0) logs with
  | Some logs' =>
      (Some (mkResponse 500 (ErrorBody (Some msg))), (st, logs'))
  | None => (None, (st, logs))
  end.

(** A refusal: the BLOCKED row, then the 403. *)
Definition block (conns : list DbConnection) (uid cid : Z) (q : jsstring)
    (logged answered : option Message) (st : State) (logs : list LogEntry)
  : option Response * ServerState :=
  match insertLog conns (mkLog uid cid q BLOCKED logged 0) logs with
  | Some logs' => (Some (mkResponse 403 (ErrorBody answered)), (st, logs'))
  | None => (None, (st, logs))
  end.

Definition execute (w : World) (conns : list DbConnection)
    (grants : list Grant) (tbl : Rbac.PermissionTable) (req : Request)
    (sv : ServerState) : option Response * ServerState :=
  let '(st, logs) := sv in
  let uid := userId (user req) in
  match connectionId req with
  | None | Some 0 =>
      (Some (respond 400 "Database connection ID is required"), sv)
  | Some cid =>
      match sql req with
      | None => (Some (respond 400 "SQL query is required"), sv)
      | Some q =>
          if Nat.eqb (length q) 0 || Nat.eqb (length (trim q)) 0
          then (Some (respond 400 "SQL query is required"), sv)
          else if negb (strEqb (userRole (user req)) (str "ADMIN"))
                  && negb (hasDbAccess grants uid cid)
          then
            block conns uid cid q
              (Some (Text (str "User does not have access to this database")))
              (Some (Text (str "You do not have access to this database")))
              st logs
          else
            let permissionCheck :=
              Rbac.validateSqlPermissions tbl q (userRole (user req)) in
            if negb (Rbac.valid permissionCheck)
            then
              block conns uid cid q
                (option_map Text (Rbac.error permissionCheck))
                (option_map Text (Rbac.error permissionCheck)) st logs
            else
              match executeQuery w conns cid q
                      (Some (Rbac.checkMaxRows permissionCheck)) st with
              | (inr result, st') =>
                  match insertLog conns
                          (mkLog uid cid q SUCCESS None (rowCount result))
                          logs with
                  | Some logs' =>
                      (Some (mkResponse 200 (RowsBody result q)), (st', logs'))
                  | None => onError conns uid cid q ConstraintFailed st' logs
                  end
              | (inl err, st') => onError conns uid cid q (Raised err) st' logs
              end
      end
  end.

End QueryRoute.

Module RouteNotions.
Import Pool Middleware QueryRoute.

(** What the handler leaves behind, by what it answered. *)
Definition answered (conns : list DbConnection) (req : Request)
    (resp : option Response) (st st' : State) (logs logs' : list LogEntry)
  : Prop :=
  match resp with
  | Some r =>
      (status r = 400 /\ st' = st /\ logs' = logs) \/
      exists entry c,
        logs' = logs ++ [entry] /\
        logUser entry = userId (user req) /\
        connectionId req = Some (logConnection entry) /\
        findById conns (logConnection entry) = Some c /\
        ((status r = 403 /\ logStatus entry = BLOCKED /\ st' = st) \/
         (status r = 200 /\ logStatus entry = SUCCESS /\
          logError entry = None) \/
         (status r = 500 /\ logStatus entry = FAILED))
  | None =>
      st' = st /\ logs' = logs /\
      exists cid, connectionId req = Some cid /\ findById conns cid = None
  end.

End RouteNotions.
Export RouteNotions.

(** ** The administrative routes

    [PUT /api/admin/permissions], the grant routes and
    [DELETE /api/connections/:id], after [requireAdmin].  [is_allowed] of
    the request body is any JSON value ([JsValue] tells apart what the
    handler tells apart); [max_rows] is an integer or missing, which is
    what the model covers of it.  An id of a path is what [parseInt] makes
    of the segment: an integer, or NaN, which is bound as NULL. *)

Module AdminRoutes.
Import Pool Middleware Lifecycle QueryRoute.

Inductive JsValue : Type :=
| JUndefined
| JNull
| JBool (b : bool)
| JNum (n : Z)
| JStr (s : jsstring).

(** The truth of a value in a condition. *)
Definition truthy (v : JsValue) : bool :=
  match v with
  | JUndefined | JNull => false
  | JBool b => b
  | JNum n => negb (n =? 0)
  | JStr s => negb (Nat.eqb (length s) 0)
  end.

(** [v === 0] *)
Definition isNumberZero (v : JsValue) : bool :=
  match v with
  | JNum n => n =? 0
  | _ => false
  end.

Definition validRoles : list jsstring :=
  [str "ADMIN"; str "DEVELOPER"; str "ANALYST"].

Definition validOps : list jsstring :=
  [str "SELECT"; str "INSERT"; str "UPDATE"; str "DELETE"; str "JOIN";
   str "CTE"].

(** [permissionQueries.update.run(is_allowed, max_rows, role, operation)] *)
Definition updateRows (tbl : Rbac.PermissionTable) (flag limit : Z)
    (r o : jsstring) : Rbac.PermissionTable :=
  map (fun p =>
         if strEqb (Rbac.role p) r && strEqb (Rbac.operation p) o
         then Rbac.mkPerm (Rbac.role p) (Rbac.operation p) flag limit
         else p) tbl.

(** The handler of [PUT /api/admin/permissions], for a [max_rows] that is
    an integer ([Some]) or missing ([None]). *)
Definition putPermission (tbl : Rbac.PermissionTable) (r o : jsstring)
    (is_allowed : JsValue) (max_rows : option Z)
  : Z * jsstring * Rbac.PermissionTable :=
  if negb (existsb (strEqb r) validRoles)
  then (400, str "Invalid role", tbl)
  else if negb (existsb (strEqb o) validOps)
  then (400, str "Invalid operation", tbl)
  else if strEqb r (str "ADMIN") && isNumberZero is_allowed
  then (400, str "Cannot remove permissions from ADMIN role", tbl)
  else
    (200, str "Permission updated successfully",
     updateRows tbl
       (if truthy is_allowed then 1 else 0)
       (match max_rows with
        | Some n => if n =? 0 then 1000 else n
        | None => 1000
        end) r o).

(** A row of [user_db_access] as stored: either column may hold NULL. *)
Record AccessRow : Type := mkAccessRow {
  row_user : option Z;
  row_connection : option Z }.

(** The rows a comparison can match, those without NULL: what
    [hasDbAccess] reads. *)
Definition grantsOf (rows : list AccessRow) : list Grant :=
  flat_map
    (fun row =>
       match row_user row, row_connection row with
       | Some u, Some c => [mkGrant u c]
       | _, _ => []
       end) rows.

(** A foreign key: NULL refers to nothing and passes. *)
Definition refersTo (ids : list Z) (v : option Z) : bool :=
  match v with
  | Some n => existsb (Z.eqb n) ids
  | None => true
  end.

(** [UNIQUE(user_id, db_connection_id)]: a row like the new one is there
    already; a row with NULL is like no other. *)
Definition duplicates (rows : list AccessRow) (uid cid : option Z) : bool :=
  match uid, cid with
  | Some u, Some c => hasDbAccess (grantsOf rows) u c
  | _, _ => false
  end.

(** The handler of [POST /api/connections/:id/grant/:userId], around
    [accessQueries.grantAccess.run(userId, connectionId)]
    ([INSERT OR IGNORE]): a row that is there already is left alone; a new
    row needs the user and the connection it names, the insert throws
    otherwise. *)
Definition postGrant (userIds : list Z) (conns : list DbConnection)
    (rows : list AccessRow) (cid uid : option Z) : Z * list AccessRow :=
  if duplicates rows uid cid then (200, rows)
  else if refersTo userIds uid && refersTo (map id conns) cid
  then (200, rows ++ [mkAccessRow uid cid])
  else (500, rows).

(** The handler of [DELETE /api/connections/:id/grant/:userId], around
    [accessQueries.revokeAccess.run(userId, connectionId)]: a comparison
    with NULL matches no row. *)
Definition deleteGrant (rows : list AccessRow) (cid uid : option Z)
  : Z * list AccessRow :=
  (200,
   match uid, cid with
   | Some u, Some c =>
       List.filter
         (fun row =>
            negb (match row_user row, row_connection row with
                  | Some u', Some c' => (u' =? u) && (c' =? c)
                  | _, _ => false
                  end)) rows
   | _, _ => rows
   end).

(** What [DELETE /api/connections/:id] works on. *)
Record Store : Type := mkStore {
  connections : list DbConnection;
  grants : list Grant;
  logs : list LogEntry;
  manager : State;
  closedPools : list PoolObject }.

(** The handler of [DELETE /api/connections/:id]: the pool is closed
    first; the delete cascades to the grants and is refused, by the foreign
    key of [query_logs], while a log row refers to the connection. *)
Definition deleteConnection (s : Store) (connectionId : Z) : Z * Store :=
  match findById (connections s) connectionId with
  | None => (404, s)
  | Some _ =>
      let '(st, closed) := closePool connectionId (manager s) (closedPools s) in
      if existsb (fun l => logConnection l =? connectionId) (logs s)
      then (500, mkStore (connections s) (grants s) (logs s) st closed)
      else
        (200,
         mkStore
           (List.filter (fun c => negb (id c =? connectionId)) (connections s))
           (List.filter (fun g => negb (db_connection_id g =? connectionId))
              (grants s))
           (logs s) st closed)
  end.

End AdminRoutes.

(** * Properties *)

(** ** Strings *)

Lemma charEqb_eq (a b : ascii) : charEqb a b = true <-> a = b.
Proof. apply Ascii.eqb_eq. Qed.

Lemma charEqb_refl (a : ascii) : charEqb a a = true.
Proof. apply Ascii.eqb_refl. Qed.

Lemma strEqb_eq (a b : jsstring) : strEqb a b = true <-> a = b.
Proof.
  revert b; induction a as [|x a IH]; intros [|y b]; simpl; try (split; congruence).
  rewrite andb_true_iff, charEqb_eq, IH. split.
  - intros [-> ->]; reflexivity.
  - intros [= -> ->]; split; reflexivity.
Qed.

Lemma strEqb_refl (a : jsstring) : strEqb a a = true.
Proof. apply strEqb_eq; reflexivity. Qed.

Lemma strEqb_neq (a b : jsstring) : a <> b -> strEqb a b = false.
Proof.
  intros H. destruct (strEqb a b) eqn:E; [|reflexivity].
  apply strEqb_eq in E. contradiction.
Qed.

Lemma stripPrefix_spec (p s r : jsstring) :
  stripPrefix p s = Some r <-> s = p ++ r.
Proof.
  revert s; induction p as [|x p IH]; intros s; simpl.
  - split; [intros [= ->]|intros ->]; reflexivity.
  - destruct s as [|y s]; [split; discriminate|].
    destruct (charEqb x y) eqn:E.
    + apply charEqb_eq in E; subst y. rewrite IH. split; [intros ->|intros [= ->]]; reflexivity.
    + split; [discriminate|]. intros [= -> _]. rewrite charEqb_refl in E; discriminate.
Qed.

Lemma includes_spec (s k : jsstring) :
  includes s k = true <-> exists pre post, s = pre ++ k ++ post.
Proof.
  induction s as [|c s IH]; simpl.
  - destruct (stripPrefix k []) as [l|] eqn:E.
    + apply stripPrefix_spec in E. split; [intros _|reflexivity].
      exists [], l. exact E.
    + split; [discriminate|]. intros (pre & post & H).
      destruct pre; [|discriminate]. simpl in H.
      apply (proj2 (stripPrefix_spec k [] post)) in H. congruence.
  - destruct (stripPrefix k (c :: s)) as [l|] eqn:E.
    + apply stripPrefix_spec in E. split; [intros _|reflexivity].
      exists [], l. exact E.
    + rewrite IH. split.
      * intros (pre & post & ->). exists (c :: pre), post. reflexivity.
      * intros (pre & post & H). destruct pre as [|d pre].
        -- simpl in H. apply (proj2 (stripPrefix_spec k _ post)) in H. congruence.
        -- injection H as -> ->. eauto.
Qed.


(** ** Regular expressions *)

Lemma isWordChar_upperChar (c : ascii) :
  isWordChar (upperChar c) = isWordChar c.
Proof. destruct c as [[] [] [] [] [] [] [] []]; reflexivity. Qed.

Lemma lastOr_nil (prev : option ascii) : lastOr prev [] = prev.
Proof. reflexivity. Qed.

Lemma lastOr_cons (prev : option ascii) (c : ascii) (m : jsstring) :
  lastOr prev (c :: m) = lastOr (Some c) m.
Proof.
  unfold lastOr. destruct m as [|d m]; [reflexivity|].
  change (last (c :: d :: m)) with (last (d :: m)).
  destruct (last (d :: m)) eqn:E; [reflexivity|].
  apply last_None in E. discriminate.
Qed.

Lemma lastOr_app (prev : option ascii) (a b : jsstring) :
  lastOr prev (a ++ b) = lastOr (lastOr prev a) b.
Proof.
  revert prev; induction a as [|c a IH]; intros prev; [reflexivity|].
  simpl. rewrite !lastOr_cons. apply IH.
Qed.

Lemma lastOr_None (m : jsstring) : lastOr None m = last m.
Proof. unfold lastOr. destruct (last m); reflexivity. Qed.

Lemma litCI_spec (l : jsstring) (prev prev' : option ascii) (s s' : jsstring) :
  litCI l prev s = Some (prev', s') <->
  exists m, s = m ++ s' /\ sameWord m l /\ prev' = lastOr prev m.
Proof.
  unfold sameWord. revert prev s; induction l as [|x l IH]; intros prev s; simpl.
  - split.
    + intros [= -> ->]. exists []. auto.
    + intros (m & -> & Hm & ->). destruct m; [reflexivity|discriminate].
  - destruct s as [|y s].
    + split; [discriminate|]. intros (m & Hs & Hm & _).
      destruct m; discriminate.
    + destruct (charEqb (upperChar x) (upperChar y)) eqn:E.
      * apply charEqb_eq in E. rewrite IH. split.
        -- intros (m & -> & Hm & ->). exists (y :: m).
           rewrite lastOr_cons. simpl. rewrite E, Hm. auto.
        -- intros (m & Hs & Hm & ->). destruct m as [|z m]; [discriminate|].
           injection Hs as <- ->. injection Hm as _ Hm.
           exists m. rewrite lastOr_cons. auto.
      * split; [discriminate|]. intros (m & Hs & Hm & _).
        destruct m as [|z m]; [discriminate|].
        injection Hs as <- ->. injection Hm as Hx _.
        rewrite Hx, charEqb_refl in E. discriminate.
Qed.

Lemma searchFrom_spec (re : regex) (prev : option ascii) (s : jsstring) :
  searchFrom re prev s = true <->
  exists pre post, s = pre ++ post /\ matchHere re (lastOr prev pre) post = true.
Proof.
  revert prev; induction s as [|c s IH]; intros prev; simpl.
  - rewrite orb_false_r. split.
    + intros H. exists [], []. auto.
    + intros (pre & post & Hs & H). symmetry in Hs.
      apply app_eq_nil in Hs as [-> ->]. exact H.
  - rewrite orb_true_iff, IH. split.
    + intros [H|(pre & post & -> & H)].
      * exists [], (c :: s). auto.
      * exists (c :: pre), post. rewrite lastOr_cons. auto.
    + intros (pre & post & Hs & H). destruct pre as [|d pre].
      * simpl in Hs. subst post. left. exact H.
      * injection Hs as <- ->. right. exists pre, post.
        rewrite lastOr_cons in H. auto.
Qed.

Lemma sameWord_length (m kw : jsstring) : sameWord m kw -> length m = length kw.
Proof.
  unfold sameWord, toUpperCase. intros H.
  apply (f_equal length) in H. rewrite !length_map in H. exact H.
Qed.

Lemma sameWord_wordChars (m kw : jsstring) :
  sameWord m kw -> forallb isWordChar kw = true -> forallb isWordChar m = true.
Proof.
  unfold sameWord. revert kw; induction m as [|c m IH]; intros [|k kw] H Hw;
    try discriminate; [reflexivity|].
  simpl in *. injection H as Hc Hm.
  apply andb_true_iff in Hw as [Hk Hw].
  rewrite <- isWordChar_upperChar, Hc, isWordChar_upperChar, Hk.
  simpl. eauto.
Qed.

Lemma keyword_head (m kw rest : jsstring) :
  isKeyword kw -> sameWord m kw -> isWordOpt (head (m ++ rest)) = true.
Proof.
  intros [Hne Hw] Hm. pose proof (sameWord_wordChars _ _ Hm Hw) as Hmw.
  destruct m as [|c m].
  - apply sameWord_length in Hm. destruct kw; [contradiction|discriminate].
  - simpl in *. apply andb_true_iff in Hmw as [Hc _]. exact Hc.
Qed.

Lemma wordChars_lastOr (prev : option ascii) (m : jsstring) :
  m <> [] -> forallb isWordChar m = true -> isWordOpt (lastOr prev m) = true.
Proof.
  revert prev; induction m as [|c m IH]; intros prev Hne Hw; [contradiction|].
  rewrite lastOr_cons. simpl in Hw. apply andb_true_iff in Hw as [Hc Hw].
  destruct m as [|d m]; [exact Hc|]. apply IH; [discriminate|exact Hw].
Qed.

Lemma keyword_last (prev : option ascii) (m kw : jsstring) :
  isKeyword kw -> sameWord m kw -> isWordOpt (lastOr prev m) = true.
Proof.
  intros [Hne Hw] Hm. apply wordChars_lastOr.
  - intros ->. apply sameWord_length in Hm. destruct kw; [contradiction|discriminate].
  - eapply sameWord_wordChars; eauto.
Qed.

(** [\bKEYWORD\b] at a given place. *)
Lemma matchHere_keyword (kw : jsstring) (prev : option ascii) (s : jsstring) :
  isKeyword kw ->
  matchHere [WordB; Lit [kw]; WordB] prev s = true <->
  isWordOpt prev = false /\
  exists m post, s = m ++ post /\ sameWord m kw /\ isWordOpt (head post) = false.
Proof.
  intros Hk. simpl. rewrite orb_false_r, andb_true_iff. split.
  - intros [Hb H]. destruct (litCI kw prev s) as [[prev' s']|] eqn:E; [|discriminate].
    apply litCI_spec in E as (m & -> & Hm & ->).
    rewrite (keyword_head _ _ _ Hk Hm) in Hb.
    rewrite (keyword_last _ _ _ Hk Hm), andb_true_r in H.
    split; [destruct (isWordOpt prev); [discriminate|reflexivity]|].
    exists m, s'. repeat split; auto.
    destruct (isWordOpt (head s')); [discriminate|reflexivity].
  - intros (Hp & m & post & -> & Hm & Hpost).
    rewrite (keyword_head _ _ _ Hk Hm), Hp. split; [reflexivity|].
    assert (E : litCI kw prev (m ++ post) = Some (lastOr prev m, post)).
    { apply litCI_spec. exists m. auto. }
    rewrite E, (keyword_last _ _ _ Hk Hm), Hpost. reflexivity.
Qed.

(** [/\bKEYWORD\b/i.test(s)] holds exactly when the keyword stands in [s]
    as a word of its own. *)
Lemma test_keyword_spec (kw s : jsstring) :
  isKeyword kw ->
  test [WordB; Lit [kw]; WordB] s = true <-> occursAsWholeWord kw s.
Proof.
  intros Hk. unfold test, occursAsWholeWord. rewrite searchFrom_spec. split.
  - intros (pre & post & -> & H). rewrite lastOr_None in H.
    apply matchHere_keyword in H as (Hp & m & post' & -> & Hm & Hpost); [|exact Hk].
    exists pre, m, post'. auto.
  - intros (pre & m & post & -> & Hm & Hp & Hpost).
    exists pre, (m ++ post). split; [reflexivity|].
    rewrite lastOr_None. apply matchHere_keyword; [exact Hk|].
    split; [exact Hp|]. exists m, post. auto.
Qed.


(** ** The validator *)

Import Validator.

Lemma forbidden_keywords_wellformed :
  Forall isKeyword FORBIDDEN_SQL_KEYWORDS.
Proof. repeat constructor; try discriminate. Qed.

Lemma forbidden_isKeyword (kw : jsstring) :
  In kw FORBIDDEN_SQL_KEYWORDS -> isKeyword kw.
Proof.
  intros H. pose proof forbidden_keywords_wellformed as F.
  rewrite List.Forall_forall in F. auto.
Qed.

Lemma forbiddenKeywordError_inj (a b : jsstring) :
  forbiddenKeywordError a = forbiddenKeywordError b -> a = b.
Proof.
  unfold forbiddenKeywordError. intros H.
  apply app_inv_head in H. apply app_inv_tail in H. exact H.
Qed.

Lemma afterKeywordPass_no_keyword_error (sql : jsstring) (role : UserRole)
    (schema : option (list TableSchema)) (kw : jsstring) :
  afterKeywordPass sql role schema <> invalid (forbiddenKeywordError kw).
Proof.
  unfold afterKeywordPass.
  destruct (multiStatementPass sql); [intros [= H]; discriminate H|].
  destruct (tableAccessPass _ _ _); intros [= H]; discriminate H.
Qed.

Lemma forbiddenKeywordPass_ADMIN (sql : jsstring) :
  forbiddenKeywordPass sql ADMIN = None.
Proof. reflexivity. Qed.

Lemma forbiddenKeywordPass_other (sql : jsstring) (role : UserRole) :
  role <> ADMIN ->
  forbiddenKeywordPass sql role =
  List.find (fun keyword => test (keywordRegex keyword) sql)
    FORBIDDEN_SQL_KEYWORDS.
Proof. destruct role; [reflexivity|reflexivity|contradiction]. Qed.

(** C2.  For a role other than ADMIN, a text in which a forbidden keyword
    stands as a word of its own, wherever in the text, is rejected with the
    forbidden-keyword error of such a keyword; a forbidden keyword that
    occurs only inside longer identifiers is never the reason of a
    rejection, and when no forbidden keyword stands as a word the result is
    that of the remaining steps alone.  For ADMIN the result always is that
    of the remaining steps. *)
Theorem forbidden_keyword_pass_whole_words
    (sql : jsstring) (role : UserRole) (schema : option (list TableSchema)) :
  (role <> ADMIN ->
   (exists kw, In kw FORBIDDEN_SQL_KEYWORDS /\ occursAsWholeWord kw sql) ->
   exists kw, In kw FORBIDDEN_SQL_KEYWORDS /\ occursAsWholeWord kw sql /\
     validate sql role schema = invalid (forbiddenKeywordError kw)) /\
  (role <> ADMIN ->
   forall kw, In kw FORBIDDEN_SQL_KEYWORDS -> ~ occursAsWholeWord kw sql ->
     validate sql role schema <> invalid (forbiddenKeywordError kw)) /\
  (role <> ADMIN ->
   (forall kw, In kw FORBIDDEN_SQL_KEYWORDS -> ~ occursAsWholeWord kw sql) ->
   validate sql role schema = afterKeywordPass sql role schema) /\
  validate sql ADMIN schema = afterKeywordPass sql ADMIN schema.
Proof.
  unfold validate. repeat split.
  - intros Hrole (kw & Hin & Hocc).
    rewrite (forbiddenKeywordPass_other _ _ Hrole).
    destruct (List.find _ _) as [kw'|] eqn:E.
    + apply List.find_some in E as [Hin' Ht].
      exists kw'. repeat split; auto.
      apply test_keyword_spec; [apply forbidden_isKeyword; exact Hin'|exact Ht].
    + exfalso. pose proof (List.find_none _ _ E _ Hin) as Hf.
      apply test_keyword_spec in Hocc; [|apply forbidden_isKeyword; assumption].
      unfold keywordRegex in Hf. congruence.
  - intros Hrole kw Hin Hocc.
    rewrite (forbiddenKeywordPass_other _ _ Hrole).
    destruct (List.find _ _) as [kw'|] eqn:E.
    + intros [= H]. apply app_inv_tail in H. subst kw'.
      apply List.find_some in E as [_ Ht].
      apply Hocc, test_keyword_spec; [apply forbidden_isKeyword; assumption|exact Ht].
    + apply afterKeywordPass_no_keyword_error.
  - intros Hrole Hnone.
    rewrite (forbiddenKeywordPass_other _ _ Hrole).
    destruct (List.find _ _) as [kw'|] eqn:E; [|reflexivity].
    apply List.find_some in E as [Hin Ht]. exfalso.
    apply (Hnone kw' Hin), test_keyword_spec; [apply forbidden_isKeyword; assumption|exact Ht].
Qed.

Ltac in_list := repeat first [left; reflexivity | right].

Ltac absent_keywords :=
  let kw := fresh "kw" in
  let Hin := fresh "Hin" in
  let Hocc := fresh "Hocc" in
  intros kw Hin Hocc;
  apply test_keyword_spec in Hocc; [|apply forbidden_isKeyword; exact Hin];
  unfold FORBIDDEN_SQL_KEYWORDS in Hin; simpl in Hin;
  repeat (destruct Hin as [<-|Hin]; [vm_compute in Hocc; discriminate Hocc|]);
  exact Hin.

Lemma forbidden_keyword_pass_witness :
  (exists kw, In kw FORBIDDEN_SQL_KEYWORDS /\
     occursAsWholeWord kw
       (str "SELECT * FROM inventory WHERE product_id IN (DELETE FROM inventory)") /\
     validate
       (str "SELECT * FROM inventory WHERE product_id IN (DELETE FROM inventory)")
       ANALYST None = invalid (forbiddenKeywordError kw)) /\
  validate (str "SELECT CREATED_AT FROM sales_orders") ANALYST None <>
    invalid (forbiddenKeywordError (str "CREATE")) /\
  validate (str "SELECT CREATED_AT FROM sales_orders") ANALYST None =
    afterKeywordPass (str "SELECT CREATED_AT FROM sales_orders") ANALYST None.
Proof.
  split; [|split].
  - apply (proj1 (forbidden_keyword_pass_whole_words _ ANALYST None));
      [discriminate|].
    exists (str "DELETE"). split; [in_list|].
    apply test_keyword_spec; [split; [discriminate|reflexivity]|].
    vm_compute. reflexivity.
  - apply (proj1 (proj2 (forbidden_keyword_pass_whole_words _ ANALYST None)));
      [discriminate|in_list|].
    intros Hocc. apply test_keyword_spec in Hocc;
      [vm_compute in Hocc; discriminate Hocc|split; [discriminate|reflexivity]].
  - apply (proj1 (proj2 (proj2 (forbidden_keyword_pass_whole_words _ ANALYST None))));
      [discriminate|].
    absent_keywords.
Defined.

Example created_at_is_accepted :
  validate (str "SELECT CREATED_AT FROM sales_orders") ANALYST None =
  valid (str "SELECT * FROM (SELECT CREATED_AT FROM sales_orders) WHERE ROWNUM <= 1000").
Proof. vm_compute. reflexivity. Qed.









(** C7 as stated fails: for ANALYST the two stacked statements are turned
    down by the keyword pass, which runs first, and the error names DROP. *)
Lemma stacked_drop_not_multiple_statements_error :
  ~ isMultipleStatementsRejection
      (validate (str "SELECT * FROM t; DROP TABLE t;") ANALYST None).
Proof. intros [_ H]. vm_compute in H. discriminate H. Qed.

(** C7, amended.  For ANALYST the text [SELECT * FROM t; DROP TABLE t;] is
    invalid with the forbidden-keyword error for DROP, whatever the schema;
    for ADMIN, whose text skips the keyword pass, it is invalid with the
    multiple-statements error. *)
Theorem stacked_drop_rejected (schema : option (list TableSchema)) :
  validate (str "SELECT * FROM t; DROP TABLE t;") ANALYST schema =
    invalid (str "Security Violation: Forbidden keyword 'DROP' detected.") /\
  validate (str "SELECT * FROM t; DROP TABLE t;") ADMIN schema =
    invalid (str "Security Violation: Multiple SQL statements detected.").
Proof.
  unfold validate. split.
  - replace (forbiddenKeywordPass (str "SELECT * FROM t; DROP TABLE t;") ANALYST)
      with (Some (str "DROP")) by (vm_compute; reflexivity).
    reflexivity.
  - rewrite forbiddenKeywordPass_ADMIN. unfold afterKeywordPass.
    replace (multiStatementPass (str "SELECT * FROM t; DROP TABLE t;"))
      with true by (vm_compute; reflexivity).
    reflexivity.
Qed.

(** ** The permission checks *)

Import Rbac.

Lemma detectOperation_select_sales_orders :
  detectOperation (trim (toUpperCase (str "SELECT * FROM sales_orders"))) =
  str "SELECT".
Proof. vm_compute. reflexivity. Qed.

Lemma detectOperation_wrapped_sales_orders :
  detectOperation
    (trim (toUpperCase
             (str "SELECT * FROM (SELECT * FROM sales_orders) WHERE ROWNUM <= 1000"))) =
  str "SELECT".
Proof. vm_compute. reflexivity. Qed.

(** C4.  Whatever [max_rows] the stored row that allows SELECT to ANALYST
    holds (1000 in the claim), the text [SELECT * FROM sales_orders] is
    accepted with that value: [validate] returns the text inside the
    ROWNUM wrapper, and [validateSqlPermissions], on the text and on the
    wrapped text that is sent on to it, returns [valid] with the
    [max_rows] of the row, which is what the permission lookup
    [checkOperationPermission] gives for (ANALYST, SELECT). *)
Theorem select_sales_orders_for_analyst (tbl : PermissionTable) (p : RolePermission) :
  isOperationAllowed tbl (str "ANALYST") (str "SELECT") = Some p ->
  is_allowed p = 1 ->
  Validator.validate (str "SELECT * FROM sales_orders") ANALYST None =
    Validator.valid
      (str "SELECT * FROM (SELECT * FROM sales_orders) WHERE ROWNUM <= 1000") /\
  validateSqlPermissions tbl (str "SELECT * FROM sales_orders") (str "ANALYST") =
    mkCheck true None (max_rows p) /\
  validateSqlPermissions tbl
    (str "SELECT * FROM (SELECT * FROM sales_orders) WHERE ROWNUM <= 1000")
    (str "ANALYST") = mkCheck true None (max_rows p) /\
  checkOperationPermission tbl (str "ANALYST") (str "SELECT") =
    mkOpPerm true (max_rows p).
Proof.
  intros Hrow Hallowed.
  assert (Hcheck : checkOperationPermission tbl (str "ANALYST") (str "SELECT") =
                   mkOpPerm true (max_rows p)).
  { unfold checkOperationPermission.
    replace (strEqb (str "SELECT") (str "DDL")) with false by reflexivity.
    replace (strEqb (str "SELECT") (str "UNKNOWN")) with false by reflexivity.
    change (toUpperCase (str "SELECT")) with (str "SELECT").
    rewrite Hrow, Hallowed. reflexivity. }
  split; [vm_compute; reflexivity|]. split; [|split; [|exact Hcheck]].
  - unfold validateSqlPermissions.
    rewrite detectOperation_select_sales_orders, Hcheck.
    replace (test joinRegex (trim (toUpperCase (str "SELECT * FROM sales_orders"))))
      with false by (vm_compute; reflexivity).
    replace (test cteRegex (trim (toUpperCase (str "SELECT * FROM sales_orders"))))
      with false by (vm_compute; reflexivity).
    reflexivity.
  - unfold validateSqlPermissions.
    rewrite detectOperation_wrapped_sales_orders, Hcheck.
    replace (test joinRegex
               (trim (toUpperCase
                  (str "SELECT * FROM (SELECT * FROM sales_orders) WHERE ROWNUM <= 1000"))))
      with false by (vm_compute; reflexivity).
    replace (test cteRegex
               (trim (toUpperCase
                  (str "SELECT * FROM (SELECT * FROM sales_orders) WHERE ROWNUM <= 1000"))))
      with false by (vm_compute; reflexivity).
    reflexivity.
Qed.

Lemma select_sales_orders_for_analyst_witness :
  Validator.validate (str "SELECT * FROM sales_orders") ANALYST None =
    Validator.valid
      (str "SELECT * FROM (SELECT * FROM sales_orders) WHERE ROWNUM <= 1000") /\
  validateSqlPermissions defaultPermissions (str "SELECT * FROM sales_orders")
    (str "ANALYST") = mkCheck true None 1000 /\
  validateSqlPermissions defaultPermissions
    (str "SELECT * FROM (SELECT * FROM sales_orders) WHERE ROWNUM <= 1000")
    (str "ANALYST") = mkCheck true None 1000 /\
  checkOperationPermission defaultPermissions (str "ANALYST") (str "SELECT") =
    mkOpPerm true 1000.
Proof.
  apply (select_sales_orders_for_analyst defaultPermissions
           (mkPerm (str "ANALYST") (str "SELECT") 1 1000));
    reflexivity.
Defined.

Lemma noRowFor_lookup (tbl : PermissionTable) (r o : jsstring) :
  noRowFor tbl r o <-> isOperationAllowed tbl r o = None.
Proof.
  unfold noRowFor, isOperationAllowed. split.
  - intros H. destruct (List.find _ tbl) as [p|] eqn:E; [|reflexivity].
    apply List.find_some in E as [Hin Hp].
    apply andb_true_iff in Hp as [Hr Ho].
    apply strEqb_eq in Hr, Ho. exfalso. exact (H p Hin (conj Hr Ho)).
  - intros H p Hin [Hr Ho].
    pose proof (List.find_none _ _ H p Hin) as Hf. simpl in Hf.
    rewrite Hr, Ho, !strEqb_refl in Hf. discriminate Hf.
Qed.

(** The hardcoded rule for DDL stands beside the table: the table that
    [schema.sql] fills has no row for (ADMIN, DDL), and cannot have one,
    and DDL is allowed to ADMIN. *)
Remark admin_ddl_allowed_without_row :
  ~ (noRowFor defaultPermissions (str "ADMIN") (str "DDL") ->
     allowed (checkOperationPermission defaultPermissions (str "ADMIN")
                (str "DDL")) = false).
Proof.
  intros H. enough (Hf : true = false) by discriminate Hf.
  apply H. apply noRowFor_lookup. vm_compute. reflexivity.
Qed.

(** C1.  The lookup is hardcoded for DDL and UNKNOWN and fails closed for
    the rest.  For every table and role: DDL is allowed exactly for ADMIN,
    with [maxRows = 0]; UNKNOWN is never allowed; and every other
    operation, which is looked up in the table under the role and the
    upper-cased operation name, is not allowed (with [maxRows = 0]) when
    the table has no row for that pair. *)
Theorem checkOperationPermission_fail_closed
    (tbl : PermissionTable) (r o : jsstring) :
  (allowed (checkOperationPermission tbl r (str "DDL")) = true <->
   r = str "ADMIN") /\
  maxRows (checkOperationPermission tbl r (str "DDL")) = 0 /\
  allowed (checkOperationPermission tbl r (str "UNKNOWN")) = false /\
  (o <> str "DDL" -> noRowFor tbl r (toUpperCase o) ->
   checkOperationPermission tbl r o = mkOpPerm false 0).
Proof.
  repeat split.
  - intros H. apply strEqb_eq. exact H.
  - intros ->. reflexivity.
  - intros Hddl Hnone. unfold checkOperationPermission.
    rewrite (strEqb_neq _ _ Hddl).
    apply noRowFor_lookup in Hnone. rewrite Hnone.
    destruct (strEqb o (str "UNKNOWN")); reflexivity.
Qed.

Lemma checkOperationPermission_fail_closed_witness :
  checkOperationPermission defaultPermissions (str "ANALYST") (str "merge") =
  mkOpPerm false 0.
Proof.
  apply (proj2 (proj2 (proj2 (checkOperationPermission_fail_closed
           defaultPermissions (str "ANALYST") (str "merge"))))).
  - discriminate.
  - apply noRowFor_lookup. vm_compute. reflexivity.
Defined.

(** The loop of [getRolePermissions], from any accumulator. *)
Lemma fold_right_max_acc (m x : Z) (l : list Z) :
  fold_right Z.max (Z.max m x) l = Z.max x (fold_right Z.max m l).
Proof. induction l as [|y l IH]; simpl; lia. Qed.

Lemma fold_right_max_swap (a b : Z) (l : list Z) :
  Z.max a (fold_right Z.max b l) = Z.max b (fold_right Z.max a l).
Proof. induction l as [|y l IH]; simpl; lia. Qed.

Lemma getRolePermissions_loop (l : list RolePermission)
    (ops : list jsstring) (m : Z) :
  fold_left
    (fun result perm =>
       if negb (is_allowed perm =? 0)
       then mkRolePerms (allowedOperations result ++ [operation perm])
              (Z.max (roleMaxRows result) (max_rows perm))
       else result) l (mkRolePerms ops m) =
  mkRolePerms
    (ops ++ map operation (List.filter (fun p => negb (is_allowed p =? 0)) l))
    (fold_right Z.max m
       (map max_rows (List.filter (fun p => negb (is_allowed p =? 0)) l))).
Proof.
  revert ops m; induction l as [|p l IH]; intros ops m; simpl.
  - rewrite app_nil_r. reflexivity.
  - destruct (negb (is_allowed p =? 0)); simpl; [|apply IH].
    rewrite IH, <- app_assoc, fold_right_max_acc. reflexivity.
Qed.

(** C5 as stated fails: with SELECT allowed to ANALYST up to 500 rows and
    nothing else, the largest [max_rows] among the allowed operations is
    500, and [getRolePermissions] returns 1000. *)
Lemma role_max_rows_not_max_of_allowed :
  Some (roleMaxRows
          (getRolePermissions [mkPerm (str "ANALYST") (str "SELECT") 1 500]
             (str "ANALYST"))) <>
  maxOverAllowed [mkPerm (str "ANALYST") (str "SELECT") 1 500] (str "ANALYST").
Proof. vm_compute. discriminate. Qed.

(** C5, amended.  [getRolePermissions] returns as [allowedOperations] the
    operations of the role's rows whose [is_allowed] is set, in table order
    (an operation is listed exactly when such a row exists), and as
    [maxRows] the larger of 1000 and the largest [max_rows] among those
    rows: 1000 when the role has no allowed operation. *)
Theorem getRolePermissions_spec (tbl : PermissionTable) (r : jsstring) :
  allowedOperations (getRolePermissions tbl r) =
    map operation (allowedRows tbl r) /\
  (forall o, In o (allowedOperations (getRolePermissions tbl r)) <->
     exists p, In p tbl /\ role p = r /\ operation p = o /\ is_allowed p <> 0) /\
  roleMaxRows (getRolePermissions tbl r) =
    match maxOverAllowed tbl r with
    | Some m => Z.max 1000 m
    | None => 1000
    end.
Proof.
  unfold getRolePermissions. rewrite getRolePermissions_loop. simpl.
  split; [reflexivity|]. split.
  - intros o. rewrite List.in_map_iff. unfold getByRole. split.
    + intros (p & Ho & Hin).
      apply List.filter_In in Hin as [Hin Ha].
      apply List.filter_In in Hin as [Hin Hr].
      apply strEqb_eq in Hr. apply negb_true_iff, Z.eqb_neq in Ha.
      exists p. auto.
    + intros (p & Hin & Hr & Ho & Ha). exists p. split; [exact Ho|].
      apply List.filter_In. split.
      * apply List.filter_In. split; [exact Hin|]. apply strEqb_eq, Hr.
      * apply negb_true_iff, Z.eqb_neq, Ha.
  - unfold maxOverAllowed, allowedRows.
    destruct (List.filter _ (getByRole tbl r)) as [|p ps]; [reflexivity|].
    simpl. apply fold_right_max_swap.
Qed.

(** An anchored pattern matches at the start of the text or nowhere. *)
Lemma searchFrom_anchored (re : regex) (c : ascii) (s : jsstring) :
  searchFrom (Bol :: re) (Some c) s = false.
Proof. revert c; induction s as [|d s IH]; intros c; simpl; auto. Qed.

Lemma test_anchored (re : regex) (s : jsstring) :
  test (Bol :: re) s = matchHere (Bol :: re) None s.
Proof.
  unfold test. destruct s as [|c s]; simpl.
  - apply orb_false_r.
  - rewrite searchFrom_anchored. apply orb_false_r.
Qed.

(** C6, on the code: the classification looks at the first letters of the
    text only.  Whatever follows them, a text that begins with the letters
    of a keyword is classified as that keyword's operation; so the
    identifiers [SELECTION] and [CREATED_DATE] are classified as the
    keywords they begin with, and ANALYST's [SELECTION FROM T] passes as a
    SELECT. *)
Theorem detectOperation_ignores_word_boundary (rest : jsstring) :
  Forall (fun '(kw, op) => detectOperation (str kw ++ rest) = str op)
    [ ("SELECT", "SELECT"); ("WITH", "SELECT"); ("INSERT", "INSERT");
      ("INTO", "INSERT"); ("UPDATE", "UPDATE"); ("DELETE", "DELETE");
      ("CREATE", "DDL"); ("DROP", "DDL"); ("ALTER", "DDL");
      ("TRUNCATE", "DDL"); ("GRANT", "DDL"); ("REVOKE", "DDL");
      ("RENAME", "DDL") ]%string /\
  detectOperation (trim (toUpperCase (str "SELECTION FROM T"))) = str "SELECT" /\
  detectOperation (trim (toUpperCase (str "created_date"))) = str "DDL" /\
  validateSqlPermissions defaultPermissions (str "SELECTION FROM T")
    (str "ANALYST") = mkCheck true None 1000.
Proof.
  split.
  - repeat constructor;
      unfold detectOperation, startsRegex; rewrite !test_anchored; reflexivity.
  - repeat split; vm_compute; reflexivity.
Qed.

(** On texts whose first word is a keyword and nothing more, the
    classification is as the specification lists it. *)
Example detectOperation_keywords :
  map (fun s => detectOperation (trim (toUpperCase (str s))))
    [ "select 1"; "  with a as (select 1) select * from a"; "insert into t values (1)";
      "into t"; "update t set a = 1"; "delete from t"; "create table t (a int)";
      "drop table t"; "alter table t add b int"; "truncate table t";
      "grant select on t to u"; "revoke select on t from u";
      "rename t to u"; "explain select 1"; "" ]%string =
  map str
    [ "SELECT"; "SELECT"; "INSERT"; "INSERT"; "UPDATE"; "DELETE"; "DDL"; "DDL";
      "DDL"; "DDL"; "DDL"; "DDL"; "DDL"; "UNKNOWN"; "UNKNOWN" ]%string.
Proof. vm_compute. reflexivity. Qed.

(** ** The connection pool manager *)

Import Pool.

Lemma slice0_nonneg {A : Type} (l : list A) (m : Z) :
  0 <= m -> slice0 l m = firstn (Z.to_nat m) l.
Proof.
  intros Hm. unfold slice0.
  destruct (m <? 0) eqn:E; [apply Z.ltb_lt in E; lia|].
  destruct (Z.le_ge_cases m (Z.of_nat (length l))) as [H|H].
  - rewrite Z.min_l by exact H. reflexivity.
  - rewrite Z.min_r by lia. rewrite Nat2Z.id.
    rewrite !firstn_all2; [reflexivity|lia|lia].
Qed.

Lemma slice0_length {A : Type} (l : list A) (m : Z) :
  0 <= m -> Z.of_nat (length (slice0 l m)) <= m.
Proof.
  intros Hm. rewrite slice0_nonneg by exact Hm.
  rewrite length_take. lia.
Qed.

(** C10.  When the table has no row for the connection id, or the row's
    [is_active] is 0, [getConnection] fails at once: its first segment ends
    in the error, and the state (the pool registry and the pools built so
    far) is the one it started from. *)
Theorem getConnection_missing_or_inactive
    (w : World) (conns : list DbConnection) (connectionId : Z) (st : State) :
  (findById conns connectionId = None \/
   exists c, findById conns connectionId = Some c /\ is_active c = 0) ->
  exists err,
    getConnection w conns connectionId st = (inl err, st) /\
    step w conns (Start connectionId) st = (Failed err, st) /\
    (err = ConnectionNotFound connectionId \/
     exists c, findById conns connectionId = Some c /\
               err = ConnectionInactive (name c)).
Proof.
  unfold getConnection, step. intros [H|(c & H & Hc)]; rewrite H.
  - exists (ConnectionNotFound connectionId). auto.
  - rewrite Hc. simpl. exists (ConnectionInactive (name c)).
    repeat split; eauto.
Qed.

Lemma getConnection_missing_or_inactive_witness :
  (exists err,
     getConnection Scenario.world Scenario.connections 9 initialState =
       (inl err, initialState) /\
     step Scenario.world Scenario.connections (Start 9) initialState =
       (Failed err, initialState) /\
     (err = ConnectionNotFound 9 \/
      exists c, findById Scenario.connections 9 = Some c /\
                err = ConnectionInactive (name c))) /\
  (exists err,
     getConnection Scenario.world Scenario.connections 4 initialState =
       (inl err, initialState) /\
     step Scenario.world Scenario.connections (Start 4) initialState =
       (Failed err, initialState) /\
     (err = ConnectionNotFound 4 \/
      exists c, findById Scenario.connections 4 = Some c /\
                err = ConnectionInactive (name c))).
Proof.
  split.
  - apply (getConnection_missing_or_inactive Scenario.world
             Scenario.connections 9 initialState).
    left. reflexivity.
  - apply (getConnection_missing_or_inactive Scenario.world
             Scenario.connections 4 initialState).
    right. eexists. split; reflexivity.
Defined.

(** The single-caller [getConnection] is the task run segment by segment. *)
Lemma getConnection_runTask
    (w : World) (conns : list DbConnection) (connectionId : Z) (st : State) :
  runTask w conns 4 (Start connectionId) st =
  match getConnection w conns connectionId st with
  | (inl err, st') => (Failed err, st')
  | (inr h, st') => (Done h, st')
  end.
Proof.
  unfold getConnection, createPool, acquireFrom. simpl.
  destruct (findById conns connectionId) as [c|]; [|reflexivity].
  destruct (is_active c =? 0); [reflexivity|].
  destruct (pools st !! connectionId) as [poolInfo|]; simpl.
  - destruct (acquire w (pool poolInfo)); reflexivity.
  - destruct (decrypt w (password_encrypted c)) as [pw|]; [|reflexivity].
    destruct (engineOf (db_type c)) as [e|]; [|reflexivity]. simpl.
    destruct (importDriver w e); [|reflexivity]. simpl.
    destruct (constructPool w e c); [|reflexivity]. simpl.
    destruct (acquire w _); reflexivity.
Qed.

(** C9, on the code.  The ORACLE branch of [executeQuery] does not cut the
    rows it is handed: it passes [maxRows] to the driver, for which 0
    means no limit, and returns what the driver answers.  Called with
    [maxRows = 0] on the Oracle connection of the deployment, whose
    backend answers with one row, it returns that row: more rows than
    [maxRows], and a [rowCount] above it.  (The MYSQL and POSTGRESQL
    branches take [slice(0, maxRows)], see [executeQuery_row_limit].) *)
Theorem oracle_rows_exceed_limit :
  match fst (executeQuery Scenario.world Scenario.connections 1
               (str "SELECT * FROM employees") (Some 0) initialState) with
  | inr res => ~ withinLimit 0 res
  | inl _ => False
  end.
Proof. vm_compute. intros [H _]. apply H. reflexivity. Qed.

(** The limit at the result layer, engine by engine.  For a limit that is
    not negative, a successful
    [executeQuery] on a MYSQL or POSTGRESQL connection returns the first
    [maxRows] rows of what the backend answered, so at most [maxRows] rows
    and a [rowCount] of at most [maxRows].  On an ORACLE connection
    [maxRows] is handed to the driver's [execute] and the rows the driver
    answers with are returned unchanged, [rowCount] being their number. *)
Theorem executeQuery_row_limit
    (w : World) (conns : list DbConnection) (connectionId : Z)
    (sql : jsstring) (maxRows : Z) (st st' : State) (res : QueryResult) :
  0 <= maxRows ->
  executeQuery w conns connectionId sql (Some maxRows) st = (inr res, st') ->
  exists h st1,
    getConnection w conns connectionId st = (inr h, st1) /\
    match handleType h with
    | ORACLE =>
        exists r, oracleExecute w (connection h) sql maxRows = Returns r /\
          rows res = orEmpty (oracleRows r) /\
          rowCount res = Z.of_nat (length (rows res))
    | MYSQL =>
        exists r, mysqlExecute w (connection h) sql = Returns r /\
          rows res = firstn (Z.to_nat maxRows) (mysqlRows r) /\
          withinLimit maxRows res
    | POSTGRESQL =>
        exists r, pgQuery w (connection h) sql = Returns r /\
          rows res = firstn (Z.to_nat maxRows) (pgRows r) /\
          withinLimit maxRows res
    end.
Proof.
  intros Hm. unfold executeQuery.
  destruct (getConnection w conns connectionId st) as [[err|h] st1];
    [discriminate|].
  intros [= Hrun _]. exists h, st1. split; [reflexivity|].
  unfold runOn in Hrun. destruct (handleType h).
  - destruct (importDriver w ORACLE); [|discriminate]. simpl in Hrun.
    destruct (oracleExecute w (connection h) sql maxRows) as [r|msg];
      [|discriminate].
    injection Hrun as <-. exists r. simpl.
    repeat split. destruct (oracleRows r); reflexivity.
  - destruct (mysqlExecute w (connection h) sql) as [r|msg]; [|discriminate].
    injection Hrun as <-. exists r. unfold withinLimit. simpl.
    pose proof (slice0_length (mysqlRows r) maxRows Hm).
    rewrite <- slice0_nonneg by exact Hm. auto.
  - destruct (pgQuery w (connection h) sql) as [r|msg]; [|discriminate].
    injection Hrun as <-. exists r. unfold withinLimit. simpl.
    pose proof (slice0_length (pgRows r) maxRows Hm).
    rewrite <- slice0_nonneg by exact Hm. auto.
Qed.

Lemma executeQuery_row_limit_witness :
  exists res st',
    executeQuery Scenario.world Scenario.connections 2
      (str "SELECT * FROM orders") (Some 2) initialState = (inr res, st') /\
    rows res = [Scenario.row "1"; Scenario.row "2"] /\
    withinLimit 2 res.
Proof.
  eexists. eexists. split; [vm_compute; reflexivity|].
  split; [reflexivity|].
  destruct (executeQuery_row_limit Scenario.world Scenario.connections 2
              (str "SELECT * FROM orders") 2 initialState
              (release (snd (getConnection Scenario.world
                               Scenario.connections 2 initialState)))
              (mkQueryResult [str "ID"] [Scenario.row "1"; Scenario.row "2"] 2))
    as (h & st1 & Hget & Hlimit).
  - lia.
  - vm_compute. reflexivity.
  - vm_compute in Hget. injection Hget as <- _.
    destruct Hlimit as (r & _ & _ & H). exact H.
Defined.

(** Without interleaving the registry does its work: once a call has
    succeeded, the next call for the same id finds the pool and builds
    nothing. *)
Lemma getConnection_registers
    (w : World) (conns : list DbConnection) (connectionId : Z)
    (st st1 : State) (h : Handle) :
  getConnection w conns connectionId st = (inr h, st1) ->
  is_Some (pools st1 !! connectionId).
Proof.
  unfold getConnection, createPool, acquireFrom.
  destruct (findById conns connectionId) as [c|]; [|discriminate].
  destruct (is_active c =? 0); [discriminate|].
  destruct (pools st !! connectionId) as [poolInfo|] eqn:E.
  - destruct (acquire w (pool poolInfo)); [|discriminate].
    intros [= _ <-]. simpl. rewrite E. eauto.
  - destruct (decrypt w (password_encrypted c)) as [pw|]; [|discriminate].
    destruct (engineOf (db_type c)) as [e|]; [|discriminate].
    destruct (negb (importDriver w e)); [discriminate|].
    destruct (negb (constructPool w e c)); [discriminate|].
    destruct (acquire w _); [|discriminate].
    intros [= _ <-]. simpl. rewrite lookup_insert_eq. eauto.
Qed.

Lemma getConnection_reuses_pool
    (w : World) (conns : list DbConnection) (connectionId : Z) (st : State) :
  is_Some (pools st !! connectionId) ->
  constructed (snd (getConnection w conns connectionId st)) = constructed st /\
  pools (snd (getConnection w conns connectionId st)) = pools st.
Proof.
  intros [poolInfo E]. unfold getConnection, acquireFrom.
  destruct (findById conns connectionId) as [c|]; [|auto].
  destruct (is_active c =? 0); [auto|].
  rewrite E. destruct (acquire w (pool poolInfo)); auto.
Qed.

Section ConcurrentAcquire.

Variables (w : World) (conns : list DbConnection) (connectionId : Z).
Variables (c : DbConnection) (pw : jsstring) (e : Engine).

Hypothesis Hfind : findById conns connectionId = Some c.
Hypothesis Hactive : is_active c <> 0.
Hypothesis Hdecrypt : decrypt w (password_encrypted c) = Some pw.
Hypothesis Hengine : engineOf (db_type c) = Some e.
Hypothesis Hdriver : importDriver w e = true.
Hypothesis Hconstruct : constructPool w e c = true.

Let importing : Task := Importing connectionId c pw e.

Let constructing (base j : nat) : Task :=
  Constructing connectionId (mkPoolInfo e (nthPool c pw base j)).

Lemma step_start (st : State) :
  pools st !! connectionId = None ->
  step w conns (Start connectionId) st = (importing, st).
Proof.
  intros Hmiss. unfold step.
  rewrite Hfind, (proj2 (Z.eqb_neq _ _) Hactive), Hmiss, Hdecrypt, Hengine.
  reflexivity.
Qed.

Lemma step_importing (st : State) :
  step w conns importing st =
  (constructing (length (constructed st)) 0,
   mkState (pools st)
     (constructed st ++ [nthPool c pw (length (constructed st)) 0])
     (borrowed st)).
Proof.
  unfold importing, constructing, nthPool, step.
  rewrite Hdriver, Hconstruct, Nat.add_0_r. reflexivity.
Qed.

Lemma nthPool_shift (base k : nat) :
  nthPool c pw (base + k) 0 = nthPool c pw base k.
Proof. unfold nthPool. rewrite Nat.add_0_r. reflexivity. Qed.

Lemma runSchedule_app (s1 s2 : list nat) (sys : System) :
  runSchedule w conns (s1 ++ s2) sys =
  runSchedule w conns s2 (runSchedule w conns s1 sys).
Proof. apply fold_left_app. Qed.

Lemma insert_frontier {A : Type} (a b : A) (done : list A) (k n : nat) :
  length done = k -> (k < n)%nat ->
  (done ++ replicate (n - k) b) !! k = Some b /\
  <[k := a]> (done ++ replicate (n - k) b) =
    (done ++ [a]) ++ replicate (n - S k) b.
Proof.
  intros Hlen Hk. replace (n - k)%nat with (S (n - S k)) by lia. split.
  - rewrite lookup_app_r by lia. rewrite Hlen, Nat.sub_diag. reflexivity.
  - rewrite insert_app_r_alt by lia. rewrite Hlen, Nat.sub_diag. simpl.
    rewrite <- app_assoc. reflexivity.
Qed.

(** Every caller runs its first segment: all of them miss the registry. *)
Lemma first_round (n k : nat) (st : State) :
  (k <= n)%nat -> pools st !! connectionId = None ->
  runSchedule w conns (seq 0 k) (replicate n (Start connectionId), st) =
  (replicate k importing ++ replicate (n - k) (Start connectionId), st).
Proof.
  intros Hk Hmiss. induction k as [|k IH].
  - rewrite Nat.sub_0_r. reflexivity.
  - rewrite seq_S, runSchedule_app, IH by lia. simpl.
    destruct (insert_frontier importing (Start connectionId)
                (replicate k importing) k n) as [Hl Hi];
      [apply length_replicate|lia|].
    unfold sysStep. simpl. rewrite Hl, (step_start _ Hmiss), Hi.
    rewrite <- replicate_S_end. reflexivity.
Qed.

(** Every caller runs its second segment: each builds a pool of its own. *)
Lemma second_round (n k : nat) (st : State) :
  (k <= n)%nat ->
  runSchedule w conns (seq 0 k) (replicate n importing, st) =
  (map (constructing (length (constructed st))) (seq 0 k)
     ++ replicate (n - k) importing,
   mkState (pools st)
     (constructed st ++ map (nthPool c pw (length (constructed st))) (seq 0 k))
     (borrowed st)).
Proof.
  intros Hk. induction k as [|k IH].
  - simpl. rewrite Nat.sub_0_r, app_nil_r. destruct st; reflexivity.
  - rewrite seq_S, runSchedule_app, IH by lia. simpl.
    destruct (insert_frontier
                (constructing (length (constructed st)) k) importing
                (map (constructing (length (constructed st))) (seq 0 k)) k n)
      as [Hl Hi]; [rewrite length_map; apply length_seq|lia|].
    unfold sysStep. simpl. rewrite Hl, step_importing. simpl.
    rewrite length_app, length_map, length_seq.
    assert (Hc : constructing (length (constructed st) + k) 0 =
                 constructing (length (constructed st)) k)
      by (unfold constructing; rewrite nthPool_shift; reflexivity).
    rewrite Hc, nthPool_shift, Hi, !map_app, <- !app_assoc. reflexivity.
Qed.

(** C3, on the code.  Let [n] calls of [getConnection] arrive together for
    a connection id that is configured and active and has no pool yet, with
    the credential readable and the driver at hand.  When each call has run
    up to its first [await] and then up to its second, [n] pools have been
    built, one per call, and none is registered yet: the check
    [pools.has(connectionId)] of every call came before the [pools.set] of
    any. *)
Theorem concurrent_acquire_builds_a_pool_per_call (n : nat) (st : State) :
  pools st !! connectionId = None ->
  let sys :=
    runSchedule w conns (seq 0 n ++ seq 0 n)
      (replicate n (Start connectionId), st) in
  fst sys = map (constructing (length (constructed st))) (seq 0 n) /\
  constructed (snd sys) =
    constructed st ++ map (nthPool c pw (length (constructed st))) (seq 0 n) /\
  length (constructed (snd sys)) = (length (constructed st) + n)%nat /\
  pools (snd sys) = pools st.
Proof.
  intros Hmiss. simpl.
  rewrite runSchedule_app, (first_round n n st (le_n n) Hmiss).
  rewrite Nat.sub_diag, app_nil_r, (second_round n n st (le_n n)).
  rewrite Nat.sub_diag, app_nil_r. simpl.
  rewrite length_app, length_map, length_seq. auto.
Qed.

End ConcurrentAcquire.

Lemma concurrent_acquire_builds_a_pool_per_call_witness :
  length (constructed (snd (runSchedule Scenario.world Scenario.connections
                              [0; 1; 0; 1]%nat
                              ([Start 2; Start 2], initialState)))) = 2%nat.
Proof.
  refine (proj1 (proj2 (proj2
            (concurrent_acquire_builds_a_pool_per_call
               Scenario.world Scenario.connections 2
               (mkDbConnection 2 (str "shop") (str "MYSQL") (str "my.local")
                  3306 (str "shop") (str "app") (str "c2VjcmV0") 1)
               (str "c2VjcmV0") MYSQL _ _ _ _ _ _ 2 initialState _))));
    try reflexivity.
  discriminate.
Defined.

(** Two callers at once on the MySQL connection, run to the end: both get
    a connection, each from a pool of its own; the registry keeps the pool
    stored last, and the other one is closed by nobody. *)
Example two_callers_two_pools :
  let shop := mkDbConnection 2 (str "shop") (str "MYSQL") (str "my.local")
                3306 (str "shop") (str "app") (str "c2VjcmV0") 1 in
  let first := mkPoolObject 0 shop (str "c2VjcmV0") 5 in
  let second := mkPoolObject 1 shop (str "c2VjcmV0") 5 in
  let sys := runSchedule Scenario.world Scenario.connections
               [0; 1; 0; 1; 0; 1; 0; 1]%nat
               ([Start 2; Start 2], initialState) in
  fst sys = [Done (mkHandle first MYSQL); Done (mkHandle second MYSQL)] /\
  constructed (snd sys) = [first; second] /\
  pools (snd sys) !! 2 = Some (mkPoolInfo MYSQL second).
Proof. vm_compute. auto. Qed.

(** One caller after the other: a single pool. *)
Example two_callers_in_turn :
  let sys := runSchedule Scenario.world Scenario.connections
               [0; 0; 0; 0; 1; 1; 1; 1]%nat
               ([Start 2; Start 2], initialState) in
  length (constructed (snd sys)) = 1%nat.
Proof. vm_compute. reflexivity. Qed.

(** * Further properties *)

(** ** White space and splitting *)

Lemma trimStart_decompose (s : jsstring) :
  exists ws, s = ws ++ trimStart s /\ forallb isSpace ws = true.
Proof.
  induction s as [|c s (ws & Hs & Hws)]; simpl.
  - exists []. auto.
  - destruct (isSpace c) eqn:E.
    + exists (c :: ws). simpl. rewrite E, Hws. split; [congruence|reflexivity].
    + exists []. auto.
Qed.

Lemma trimStart_head (s : jsstring) (c : ascii) :
  head (trimStart s) = Some c -> isSpace c = false.
Proof.
  induction s as [|d s IH]; simpl; [discriminate|].
  destruct (isSpace d) eqn:E; [exact IH|].
  simpl. intros [= <-]. exact E.
Qed.

Lemma trimStart_nonspace (c : ascii) (s : jsstring) :
  isSpace c = false -> trimStart (c :: s) = c :: s.
Proof. intros H. simpl. rewrite H. reflexivity. Qed.

Lemma trimStart_blank (ws s : jsstring) :
  forallb isSpace ws = true -> trimStart (ws ++ s) = trimStart s.
Proof.
  induction ws as [|c ws IH]; simpl; [reflexivity|].
  intros H. apply andb_true_iff in H as [Hc Hws]. rewrite Hc. auto.
Qed.

Lemma last_rev {A : Type} (l : list A) : last (rev l) = head l.
Proof.
  destruct l as [|x l]; [reflexivity|]. simpl. apply last_snoc.
Qed.

Lemma head_rev {A : Type} (l : list A) : head (rev l) = last l.
Proof. rewrite <- (rev_involutive l) at 2. symmetry. apply last_rev. Qed.

(** [trim] takes white space off both ends and nothing else. *)
Lemma trim_decompose (s : jsstring) :
  exists ws1 ws2,
    s = ws1 ++ trim s ++ ws2 /\
    forallb isSpace ws1 = true /\ forallb isSpace ws2 = true /\
    (forall c, head (trim s) = Some c -> isSpace c = false) /\
    (forall c, last (trim s) = Some c -> isSpace c = false).
Proof.
  destruct (trimStart_decompose s) as (ws1 & Hs & Hws1).
  destruct (trimStart_decompose (rev (trimStart s))) as (ws2 & Hr & Hws2).
  assert (Ht : trimStart s = trim s ++ rev ws2).
  { unfold trim, trimEnd. rewrite <- rev_app_distr, <- Hr, rev_involutive.
    reflexivity. }
  exists ws1, (rev ws2). repeat split.
  - rewrite <- Ht. exact Hs.
  - exact Hws1.
  - rewrite forallb_forall in *. intros c Hc. apply Hws2, in_rev. exact Hc.
  - intros c Hc. apply (trimStart_head s).
    rewrite Ht. destruct (trim s); [discriminate|exact Hc].
  - intros c Hc. unfold trim, trimEnd in Hc. rewrite last_rev in Hc.
    exact (trimStart_head _ _ Hc).
Qed.

Lemma trim_blank (s : jsstring) : isBlank s -> trim s = [].
Proof.
  unfold isBlank. intros H.
  assert (E : trimStart s = []).
  { rewrite <- (app_nil_r s), trimStart_blank by exact H. reflexivity. }
  unfold trim, trimEnd. rewrite E. reflexivity.
Qed.

Lemma trim_nil_blank (s : jsstring) : trim s = [] -> isBlank s.
Proof.
  intros E. destruct (trim_decompose s) as (ws1 & ws2 & Hs & H1 & H2 & _).
  rewrite E in Hs. simpl in Hs. unfold isBlank.
  rewrite Hs, forallb_app, H1, H2. reflexivity.
Qed.

(** [p.trim().length > 0] *)
Lemma nonblank_iff (p : jsstring) :
  Nat.ltb 0 (length (trim p)) = true <->
  exists c, In c p /\ isSpace c = false.
Proof.
  split.
  - intros H. destruct (trim p) as [|c t] eqn:E; [discriminate|].
    destruct (trim_decompose p) as (ws1 & ws2 & Hs & _ & _ & Hh & _).
    exists c. split.
    + rewrite Hs, E. apply in_or_app. right. left. reflexivity.
    + apply Hh. rewrite E. reflexivity.
  - intros (c & Hin & Hc). destruct (trim p) eqn:E; [|reflexivity].
    apply trim_nil_blank in E. unfold isBlank in E.
    rewrite forallb_forall in E. rewrite (E c Hin) in Hc. discriminate.
Qed.

Lemma split_nonempty (sep : ascii) (s : jsstring) : split sep s <> [].
Proof.
  induction s as [|c s IH]; simpl; [discriminate|].
  destruct (charEqb c sep); [discriminate|].
  destruct (split sep s); discriminate.
Qed.

(** Splitting goes through a separator. *)
Lemma split_app (sep : ascii) (a b : jsstring) :
  split sep (a ++ sep :: b) = split sep a ++ split sep b.
Proof.
  induction a as [|c a IH]; simpl.
  - rewrite charEqb_refl. reflexivity.
  - destruct (charEqb c sep); [rewrite IH; reflexivity|].
    rewrite IH. pose proof (split_nonempty sep a) as Hne.
    destruct (split sep a); [contradiction|reflexivity].
Qed.

Lemma split_no_sep (sep : ascii) (s : jsstring) :
  ~ In sep s -> split sep s = [s].
Proof.
  induction s as [|c s IH]; simpl; [reflexivity|].
  intros H. destruct (charEqb c sep) eqn:E.
  - apply charEqb_eq in E. exfalso. apply H. left. exact E.
  - rewrite IH; [reflexivity|]. intros Hin. apply H. right. exact Hin.
Qed.

Lemma split_piece (sep c : ascii) (s : jsstring) :
  In c s -> c <> sep -> exists p, In p (split sep s) /\ In c p.
Proof.
  induction s as [|d s IH]; simpl; [contradiction|].
  intros Hin Hc. pose proof (split_nonempty sep s) as Hne.
  destruct (charEqb d sep) eqn:E.
  - apply charEqb_eq in E. destruct Hin as [->|Hin]; [contradiction|].
    destruct (IH Hin Hc) as (p & Hp & Hcp). exists p. split; [right|]; assumption.
  - destruct (split sep s) as [|p0 ps]; [contradiction|].
    destruct Hin as [->|Hin].
    + exists (c :: p0). split; left; reflexivity.
    + destruct (IH Hin Hc) as (p & [<-|Hp] & Hcp).
      * exists (d :: p0). split; [left; reflexivity|right; exact Hcp].
      * exists p. split; [right; exact Hp|exact Hcp].
Qed.

Lemma hasStatement_part (s : jsstring) :
  hasStatement s ->
  (1 <= length (List.filter (fun p => Nat.ltb 0 (length (trim p)))
                  (split ";" s)))%nat.
Proof.
  intros (c & Hin & Hsp & Hsemi).
  destruct (split_piece ";" c s Hin Hsemi) as (p & Hp & Hcp).
  assert (Hf : In p (List.filter (fun p => Nat.ltb 0 (length (trim p)))
                       (split ";" s))).
  { apply List.filter_In. split; [exact Hp|]. apply nonblank_iff. eauto. }
  destruct (List.filter _ _); [contradiction|simpl; lia].
Qed.

Lemma multiStatementPass_stacked (a b : jsstring) :
  hasStatement a -> hasStatement b ->
  multiStatementPass (a ++ str ";" ++ b) = true.
Proof.
  intros Ha Hb. unfold multiStatementPass.
  replace (includes (a ++ str ";" ++ b) (str ";")) with true
    by (symmetry; apply includes_spec; eauto).
  change (a ++ str ";" ++ b) with (a ++ ";"%char :: b).
  rewrite split_app, List.filter_app, length_app.
  apply hasStatement_part in Ha, Hb. apply Nat.ltb_lt. lia.
Qed.

Lemma multiStatementPass_trailing (s ws : jsstring) :
  ~ In ";"%char s -> isBlank ws ->
  multiStatementPass (s ++ str ";" ++ ws) = false.
Proof.
  intros Hs Hws. unfold multiStatementPass.
  destruct (includes _ _); [|reflexivity].
  change (s ++ str ";" ++ ws) with (s ++ ";"%char :: ws).
  rewrite split_app, (split_no_sep _ s Hs), (split_no_sep _ ws).
  - simpl. rewrite (trim_blank ws Hws). simpl.
    destruct (Nat.ltb 0 (length (trim s))); reflexivity.
  - intros Hin. unfold isBlank in Hws. rewrite forallb_forall in Hws.
    specialize (Hws _ Hin). discriminate Hws.
Qed.

(** ** The validator, continued *)

Lemma keyword_error_not_stacking_error (kw : jsstring) :
  Validator.invalid (forbiddenKeywordError kw) <>
  Validator.invalid multipleStatementsError.
Proof. intros [=]. Qed.

Lemma access_error_not_stacking_error (t : jsstring) :
  Validator.invalid (accessDeniedError t) <>
  Validator.invalid multipleStatementsError.
Proof. intros [=]. Qed.

Lemma forbiddenKeywordPass_found (sql : jsstring) (role : UserRole)
    (kw : jsstring) :
  forbiddenKeywordPass sql role = Some kw ->
  In kw FORBIDDEN_SQL_KEYWORDS /\ role <> ADMIN /\ occursAsWholeWord kw sql.
Proof.
  intros H. assert (Hr : role <> ADMIN) by (intros ->; discriminate H).
  rewrite (forbiddenKeywordPass_other _ _ Hr) in H.
  apply List.find_some in H as [Hin Ht].
  split; [exact Hin|split; [exact Hr|]].
  apply test_keyword_spec; auto using forbidden_isKeyword.
Qed.

(** X1.  Two statements behind one another are never accepted: when the
    text before a semicolon and the text after it both hold something to
    run, [validate] answers invalid for every role and schema, with the
    multiple-statements error unless a forbidden keyword stopped a role
    other than ADMIN first. *)
Theorem stacked_statements_rejected
    (a b : jsstring) (role : UserRole) (schema : option (list TableSchema)) :
  hasStatement a -> hasStatement b ->
  validate (a ++ str ";" ++ b) role schema =
    Validator.invalid multipleStatementsError \/
  exists kw, In kw FORBIDDEN_SQL_KEYWORDS /\ role <> ADMIN /\
    occursAsWholeWord kw (a ++ str ";" ++ b) /\
    validate (a ++ str ";" ++ b) role schema =
      Validator.invalid (forbiddenKeywordError kw).
Proof.
  intros Ha Hb. unfold validate.
  destruct (forbiddenKeywordPass _ role) as [kw|] eqn:E.
  - right. exists kw. apply forbiddenKeywordPass_found in E as (H1 & H2 & H3).
    auto.
  - left. unfold afterKeywordPass.
    rewrite (multiStatementPass_stacked a b Ha Hb). reflexivity.
Qed.

Lemma stacked_statements_rejected_witness :
  validate (str "select 1; select 2") ADMIN None =
    Validator.invalid multipleStatementsError \/
  exists kw, In kw FORBIDDEN_SQL_KEYWORDS /\ ADMIN <> ADMIN /\
    occursAsWholeWord kw (str "select 1; select 2") /\
    validate (str "select 1; select 2") ADMIN None =
      Validator.invalid (forbiddenKeywordError kw).
Proof.
  apply (stacked_statements_rejected (str "select 1") (str " select 2")
           ADMIN None).
  - exists "s"%char. repeat split; [left; reflexivity|discriminate].
  - exists "s"%char. repeat split; [right; left; reflexivity|discriminate].
Defined.

Lemma trim_statement_semicolon (s ws : jsstring) :
  isBlank ws -> trim (s ++ str ";" ++ ws) = trimStart s ++ str ";".
Proof.
  intros Hws.
  assert (E1 : trimStart (s ++ str ";" ++ ws) = trimStart s ++ str ";" ++ ws).
  { destruct (trimStart_decompose s) as (w & Hs & Hw).
    rewrite Hs at 1. rewrite <- app_assoc, trimStart_blank by exact Hw.
    destruct (trimStart s) as [|c t] eqn:Et; [reflexivity|].
    apply trimStart_nonspace, (trimStart_head s). rewrite Et. reflexivity. }
  unfold trim, trimEnd. rewrite E1, !rev_app_distr, <- app_assoc.
  rewrite trimStart_blank.
  - simpl. rewrite rev_involutive. reflexivity.
  - unfold isBlank in Hws. rewrite forallb_forall in *.
    intros c Hc. apply Hws, in_rev. exact Hc.
Qed.

Lemma stripTrailingSemicolon_snoc (t : jsstring) :
  stripTrailingSemicolon (t ++ str ";") = t.
Proof.
  unfold stripTrailingSemicolon. rewrite rev_app_distr. simpl.
  apply rev_involutive.
Qed.

(** X2.  One statement closed by a semicolon, with white space after it or
    not, is never refused as stacked statements; when it is accepted, the
    text handed on is the statement without its leading white space and
    without the semicolon, as it is or inside the ROWNUM wrapper. *)
Theorem closing_semicolon_is_dropped
    (s ws : jsstring) (role : UserRole) (schema : option (list TableSchema)) :
  ~ In ";"%char s -> isBlank ws ->
  validate (s ++ str ";" ++ ws) role schema <>
    Validator.invalid multipleStatementsError /\
  (isValid (validate (s ++ str ";" ++ ws) role schema) = true ->
   sanitizedSql (validate (s ++ str ";" ++ ws) role schema) =
     Some (trimStart s) \/
   sanitizedSql (validate (s ++ str ";" ++ ws) role schema) =
     Some (rownumWrap (trimStart s))).
Proof.
  intros Hs Hws. unfold validate.
  destruct (forbiddenKeywordPass _ role) as [kw|].
  { split; [apply keyword_error_not_stacking_error|discriminate]. }
  unfold afterKeywordPass. rewrite (multiStatementPass_trailing s ws Hs Hws).
  destruct (tableAccessPass _ _ _) as [t|].
  { split; [apply access_error_not_stacking_error|discriminate]. }
  split; [discriminate|]. intros _. unfold enforceLimits.
  rewrite (trim_statement_semicolon s ws Hws), stripTrailingSemicolon_snoc.
  destruct (_ && _); simpl; auto.
Qed.

Lemma closing_semicolon_is_dropped_witness :
  sanitizedSql (validate (str "  select * from inventory; ") ANALYST None) =
    Some (str "select * from inventory") \/
  sanitizedSql (validate (str "  select * from inventory; ") ANALYST None) =
    Some (rownumWrap (str "select * from inventory")).
Proof.
  apply (proj2 (closing_semicolon_is_dropped (str "  select * from inventory")
                  (str " ") ANALYST None
                  ltac:(vm_compute; intuition discriminate)
                  ltac:(reflexivity))).
  vm_compute. reflexivity.
Defined.

(** [/\b\w+\b/g]: the tokens are the maximal runs of word characters. *)
Lemma wordTokensFrom_spec (s cur tok : jsstring) :
  In tok (wordTokensFrom cur s) <->
  (exists run rest,
     s = run ++ rest /\ forallb isWordChar run = true /\
     isWordOpt (head rest) = false /\ tok = rev cur ++ run /\ tok <> []) \/
  (exists pre c post,
     s = pre ++ c :: tok ++ post /\ isWordChar c = false /\ tok <> [] /\
     forallb isWordChar tok = true /\ isWordOpt (head post) = false).
Proof.
  revert cur; induction s as [|d s IH]; intros cur.
  - simpl. split.
    + intros H. left. exists [], []. destruct cur as [|x cur]; [contradiction|].
      destruct H as [<-|[]]. repeat split; auto.
      * rewrite app_nil_r. reflexivity.
      * simpl. intros E. apply app_eq_nil in E as [_ E]. discriminate E.
    + intros [(run & rest & Hs & _ & _ & -> & Hne)|(pre & c & post & Hs & _)].
      * symmetry in Hs. apply app_eq_nil in Hs as [-> _].
        rewrite app_nil_r in *. destruct cur; [contradiction|]. left. reflexivity.
      * destruct pre; discriminate Hs.
  - simpl. destruct (isWordChar d) eqn:Hd.
    + rewrite IH. split.
      * intros [(run & rest & -> & Hrun & Hrest & -> & Hne)
               |(pre & c & post & -> & Hc & Hne & Htok & Hpost)].
        -- left. exists (d :: run), rest. simpl. rewrite Hd, Hrun.
           simpl in Hne. rewrite <- app_assoc in *. repeat split; auto.
        -- right. exists (d :: pre), c, post. repeat split; auto.
      * intros [(run & rest & Hs & Hrun & Hrest & -> & Hne)
               |(pre & c & post & Hs & Hc & Hne & Htok & Hpost)].
        -- destruct run as [|x run].
           ++ simpl in Hs. subst rest. simpl in Hrest. congruence.
           ++ injection Hs as <- ->. simpl in Hrun.
              apply andb_true_iff in Hrun as [_ Hrun].
              left. exists run, rest. simpl. rewrite <- app_assoc.
              repeat split; auto.
        -- destruct pre as [|x pre].
           ++ injection Hs as <- _. congruence.
           ++ injection Hs as <- ->. right. exists pre, c, post.
              repeat split; auto.
    + assert (Hrest :
        In tok (wordTokensFrom [] s) <->
        (exists post, s = tok ++ post /\ tok <> [] /\
           forallb isWordChar tok = true /\ isWordOpt (head post) = false) \/
        (exists pre c post,
           s = pre ++ c :: tok ++ post /\ isWordChar c = false /\ tok <> [] /\
           forallb isWordChar tok = true /\ isWordOpt (head post) = false)).
      { rewrite IH. split; (intros [H|H]; [left|right; exact H]).
        - destruct H as (run & rest & -> & Hrun & Hr & -> & Hne).
          exists rest. auto.
        - destruct H as (post & -> & Hne & Htok & Hpost).
          exists tok, post. auto. }
      assert (Hcases :
        In tok (match cur with
                | [] => wordTokensFrom [] s
                | _ :: _ => rev cur :: wordTokensFrom [] s
                end) <->
        (cur <> [] /\ tok = rev cur) \/ In tok (wordTokensFrom [] s)).
      { destruct cur as [|x cur]; simpl.
        - split; [auto|]. intros [[H _]|H]; [contradiction|exact H].
        - split.
          + intros [<-|H]; [left; split; [discriminate|reflexivity]|auto].
          + intros [[_ ->]|H]; auto. }
      rewrite Hcases, Hrest. split.
      * intros [[Hcur ->]|[(post & -> & Hne & Htok & Hpost)
                          |(pre & c & post & -> & Hc & Hne & Htok & Hpost)]].
        -- left. exists [], (d :: s). simpl. rewrite Hd, app_nil_r.
           repeat split; auto.
           intros E. apply (f_equal (@rev ascii)) in E.
           rewrite rev_involutive in E. contradiction.
        -- right. exists [], d, post. repeat split; auto.
        -- right. exists (d :: pre), c, post. repeat split; auto.
      * intros [(run & rest & Hs & Hrun & Hr & -> & Hne)
               |(pre & c & post & Hs & Hc & Hne & Htok & Hpost)].
        -- destruct run as [|x run].
           ++ left. rewrite app_nil_r in *. split; [|reflexivity].
              intros ->. contradiction.
           ++ injection Hs as <- _. simpl in Hrun. rewrite Hd in Hrun.
              discriminate Hrun.
        -- destruct pre as [|x pre].
           ++ injection Hs as _ ->. right. left. exists post. auto.
           ++ injection Hs as _ ->. right. right. exists pre, c, post. auto.
Qed.

Lemma wordTokens_spec (tok s : jsstring) :
  In tok (wordTokens s) <-> isWordOf tok s.
Proof.
  unfold wordTokens, isWordOf. rewrite wordTokensFrom_spec. split.
  - intros [(run & rest & -> & Hrun & Hr & -> & Hne)
           |(pre & c & post & -> & Hc & Hne & Htok & Hpost)].
    + exists [], rest. simpl in *. repeat split; auto.
    + exists (pre ++ [c]), post. rewrite <- app_assoc, last_snoc.
      repeat split; auto.
  - intros (pre & post & -> & Hne & Htok & Hpre & Hpost).
    destruct pre as [|x pre _] using rev_ind.
    + left. exists tok, post. repeat split; auto.
    + right. exists pre, x, post. rewrite last_snoc in Hpre.
      rewrite <- app_assoc. repeat split; auto.
Qed.









Lemma existsb_strEqb (d : jsstring) (l : list jsstring) :
  existsb (strEqb d) l = true <-> In d l.
Proof.
  rewrite existsb_exists. split.
  - intros (x & Hin & E). apply strEqb_eq in E. subst x. exact Hin.
  - intros H. exists d. split; [exact H|apply strEqb_refl].
Qed.

Lemma roleEqb_eq (a b : UserRole) : roleEqb a b = true <-> a = b.
Proof. destruct a, b; simpl; split; congruence. Qed.

(** What the table step finds, and when it finds nothing. *)
Lemma tableAccessPass_Some (sql : jsstring) (role : UserRole)
    (schema : list TableSchema) (d : jsstring) :
  tableAccessPass sql role schema = Some d ->
  isWordOf d (toLowerCase sql) /\
  (exists t, In t schema /\ toLowerCase (tableName t) = d) /\
  ~ accessibleName role schema d.
Proof.
  unfold tableAccessPass. destruct (Nat.ltb 0 (length schema)); [|discriminate].
  intros H. apply List.find_some in H as [Hused Hacc].
  apply List.filter_In in Hused as [Htok Htab].
  apply existsb_exists in Htab as (t & Ht & E). apply strEqb_eq in E.
  split; [apply wordTokens_spec; exact Htok|]. split; [eauto|].
  intros (t' & Ht' & Hq & Hn). apply negb_true_iff in Hacc.
  assert (Hin : existsb (strEqb d)
                  (map (fun t => toLowerCase (tableName t))
                     (List.filter
                        (fun table =>
                           match restrictedRoles table with
                           | None => true
                           | Some rs => existsb (roleEqb role) rs
                           end) schema)) = true).
  { apply existsb_strEqb, List.in_map_iff. exists t'. split; [exact Hn|].
    apply List.filter_In. split; [exact Ht'|exact Hq]. }
  congruence.
Qed.




Lemma accessDeniedError_inj (a b : jsstring) :
  accessDeniedError a = accessDeniedError b -> a = b.
Proof.
  unfold accessDeniedError. intros H.
  apply app_inv_head in H. apply app_inv_tail in H. exact H.
Qed.

(** X4.  An access refusal has a cause: when [validate] answers with the
    access-denied error for [d], then [d] is a whole word of the lower-cased
    text, it is the lower-cased name of a table of the schema in use, and
    the role can query no table of that name.  So a word that merely
    contains a table name, and a table whose name is not made of letters,
    digits and underscores, never lead to this error. *)
Theorem access_refusal_is_sound
    (sql : jsstring) (role : UserRole) (schema : option (list TableSchema))
    (d : jsstring) :
  validate sql role schema = Validator.invalid (accessDeniedError d) ->
  isWordOf d (toLowerCase sql) /\
  (exists t, In t (activeSchemaOf schema) /\ toLowerCase (tableName t) = d) /\
  ~ accessibleName role (activeSchemaOf schema) d.
Proof.
  unfold validate.
  destruct (forbiddenKeywordPass sql role); [intros [=]|].
  unfold afterKeywordPass. destruct (multiStatementPass sql); [intros [=]|].
  fold (activeSchemaOf schema).
  destruct (tableAccessPass sql role (activeSchemaOf schema)) as [d'|] eqn:E;
    [|intros [=]].
  intros H. assert (d' = d) as ->.
  { apply accessDeniedError_inj. unfold Validator.invalid in H. congruence. }
  exact (tableAccessPass_Some _ _ _ _ E).
Qed.

Lemma access_refusal_is_sound_witness :
  isWordOf (str "system_logs")
    (toLowerCase (str "select * from sales_orders, SYSTEM_LOGS")) /\
  (exists t, In t (activeSchemaOf None) /\
             toLowerCase (tableName t) = str "system_logs") /\
  ~ accessibleName DEVELOPER (activeSchemaOf None) (str "system_logs").
Proof.
  apply (access_refusal_is_sound
           (str "select * from sales_orders, SYSTEM_LOGS") DEVELOPER None).
  vm_compute. reflexivity.
Defined.

(** ** The role middleware *)

Import Middleware.

Lemma rank_cases (r : jsstring) :
  (r = str "ADMIN" /\ rank r = Some 3) \/
  (r = str "DEVELOPER" /\ rank r = Some 2) \/
  (r = str "ANALYST" /\ rank r = Some 1) \/
  (r <> str "ADMIN" /\ r <> str "DEVELOPER" /\ r <> str "ANALYST" /\
   rank r = None).
Proof.
  unfold rank, ROLE_HIERARCHY. cbn [List.find fst].
  destruct (strEqb (str "ADMIN") r) eqn:E1;
    [apply strEqb_eq in E1; subst; auto|].
  destruct (strEqb (str "DEVELOPER") r) eqn:E2;
    [apply strEqb_eq in E2; subst; auto|].
  destruct (strEqb (str "ANALYST") r) eqn:E3;
    [apply strEqb_eq in E3; subst; auto 6|].
  right. right. right.
  split; [|split; [|split; [|reflexivity]]];
    intros ->; rewrite strEqb_refl in *; discriminate.
Qed.

Lemma hasRole_ranked (proto : Prototype) (r q : jsstring) :
  rank r <> None \/ rank q <> None ->
  hasRole proto r q = true <->
  exists a b, rank r = Some a /\ rank q = Some b /\ b <= a.
Proof.
  intros Hn. unfold hasRole, entryOf.
  destruct (rank r) as [a|], (rank q) as [b|]; simpl.
  - rewrite Z.leb_le. split.
    + intros H. exists a, b. auto.
    + intros (a' & b' & [= <-] & [= <-] & H). exact H.
  - split; [destruct (proto q); discriminate|].
    intros (a' & b' & _ & H & _). discriminate H.
  - split; [destruct (proto r); discriminate|].
    intros (a' & b' & H & _). discriminate H.
  - destruct Hn as [Hn|Hn]; contradiction.
Qed.

Lemma hasRole_admin (proto : Prototype) (r : jsstring) :
  hasRole proto r (str "ADMIN") = true <-> r = str "ADMIN".
Proof.
  rewrite hasRole_ranked by (right; discriminate).
  change (rank (str "ADMIN")) with (Some 3).
  destruct (rank_cases r) as [[E H]|[[E H]|[[E H]|(N1 & N2 & N3 & H)]]];
    rewrite H; split.
  - intros _. exact E.
  - intros _. exists 3, 3. repeat split. lia.
  - intros (a & b & [= <-] & [= <-] & Hle). lia.
  - intros Hc. rewrite E in Hc. discriminate Hc.
  - intros (a & b & [= <-] & [= <-] & Hle). lia.
  - intros Hc. rewrite E in Hc. discriminate Hc.
  - intros (a & b & [=] & _).
  - intros Hc. contradiction.
Qed.

Lemma hasRole_developer (proto : Prototype) (r : jsstring) :
  hasRole proto r (str "DEVELOPER") = true <->
  r = str "ADMIN" \/ r = str "DEVELOPER".
Proof.
  rewrite hasRole_ranked by (right; discriminate).
  change (rank (str "DEVELOPER")) with (Some 2).
  destruct (rank_cases r) as [[E H]|[[E H]|[[E H]|(N1 & N2 & N3 & H)]]];
    rewrite H; split.
  - intros _. left. exact E.
  - intros _. exists 3, 2. repeat split. lia.
  - intros _. right. exact E.
  - intros _. exists 2, 2. repeat split. lia.
  - intros (a & b & [= <-] & [= <-] & Hle). lia.
  - intros [Hc|Hc]; rewrite E in Hc; discriminate Hc.
  - intros (a & b & [=] & _).
  - intros [Hc|Hc]; contradiction.
Qed.

(** X5.  [hasRole] orders the three roles ANALYST, DEVELOPER, ADMIN.  When
    one of the two names it is given is one of the three roles, it holds
    exactly when both are and the user's is at least the required one;
    so does it for a required role ADMIN or DEVELOPER, whatever the
    caller's role is called.  Hence [requireAdmin] lets a request through
    exactly when a user with role ADMIN is attached, and
    [requireDeveloper] exactly for ADMIN and DEVELOPER; without a user the
    answer is 401, and with a role that is none of the three the answer to
    a requirement that is one of them is 403.  Between two names that are
    no roles the lookup falls through to what every object inherits:
    [hasRole] holds exactly when both name members and the text of the
    first is at least the text of the second, as for
    [hasRole('toString', 'toString')]. *)
Theorem requireRole_spec
    (proto : Prototype) (u : option User) (r q : jsstring) :
  (rank r <> None \/ rank q <> None ->
   (hasRole proto r q = true <->
    exists a b, rank r = Some a /\ rank q = Some b /\ b <= a)) /\
  (requireAdmin proto u = Next <->
   exists x, u = Some x /\ userRole x = str "ADMIN") /\
  (requireDeveloper proto u = Next <->
   exists x, u = Some x /\
     (userRole x = str "ADMIN" \/ userRole x = str "DEVELOPER")) /\
  (u = None ->
   requireRole proto q u = Status 401 (str "Authentication required") None) /\
  (forall x, u = Some x -> rank (userRole x) = None -> rank q <> None ->
     requireRole proto q u =
     Status 403 (str "Access denied. Required role: " ++ q)
       (Some (userRole x))) /\
  (rank r = None -> rank q = None ->
   (hasRole proto r q = true <->
    exists s t, proto r = Some s /\ proto q = Some t /\ textGeq s t = true)).
Proof.
  split; [|split; [|split; [|split; [|split]]]].
  - apply hasRole_ranked.
  - unfold requireAdmin, requireRole.
    destruct u as [x|]; [|split; [discriminate|intros (x & [=] & _)]].
    destruct (hasRole proto (userRole x) (str "ADMIN")) eqn:Hh; simpl; split.
    + intros _. exists x. split; [reflexivity|].
      apply (hasRole_admin proto), Hh.
    + reflexivity.
    + discriminate.
    + intros (y & [= <-] & H). apply (hasRole_admin proto) in H. congruence.
  - unfold requireDeveloper, requireRole.
    destruct u as [x|]; [|split; [discriminate|intros (x & [=] & _)]].
    destruct (hasRole proto (userRole x) (str "DEVELOPER")) eqn:Hh; simpl;
      split.
    + intros _. exists x. split; [reflexivity|].
      apply (hasRole_developer proto), Hh.
    + reflexivity.
    + discriminate.
    + intros (y & [= <-] & H). apply (hasRole_developer proto) in H.
      congruence.
  - intros ->. reflexivity.
  - intros x -> Hr Hq. unfold requireRole.
    destruct (hasRole proto (userRole x) q) eqn:Hh; [|reflexivity].
    apply hasRole_ranked in Hh as (a & b & Ha & _); [|right; exact Hq].
    congruence.
  - intros Hr Hq. unfold hasRole, entryOf. rewrite Hr, Hq.
    destruct (proto r) as [s|], (proto q) as [t|]; simpl; split;
      try discriminate;
      try (intros (s' & t' & H1 & H2 & _); discriminate).
    + intros H. exists s, t. auto.
    + intros (s' & t' & [= <-] & [= <-] & H). exact H.
Qed.

Lemma requireRole_spec_witness :
  requireRole nodePrototype (str "ANALYST")
    (Some (mkUser 8 (str "g@x") (str "Guest") (str "toString"))) =
    Status 403 (str "Access denied. Required role: ANALYST")
      (Some (str "toString")) /\
  hasRole nodePrototype (str "toString") (str "toString") = true.
Proof.
  split.
  - apply (proj1 (proj2 (proj2 (proj2 (proj2 (requireRole_spec nodePrototype
             (Some (mkUser 8 (str "g@x") (str "Guest") (str "toString")))
             (str "") (str "ANALYST"))))))
             (mkUser 8 (str "g@x") (str "Guest") (str "toString")));
      [reflexivity|reflexivity|discriminate].
  - apply (proj2 (proj2 (proj2 (proj2 (proj2 (proj2
             (requireRole_spec nodePrototype None
                (str "toString") (str "toString")))))) eq_refl eq_refl)).
    exists (nativeFunction "toString"), (nativeFunction "toString").
    repeat split.
Defined.

(** ** The permission check on the text *)

Lemma isSpace_upperChar (c : ascii) : isSpace (upperChar c) = isSpace c.
Proof. destruct c as [[] [] [] [] [] [] [] []]; reflexivity. Qed.

Lemma isWordChar_not_space (c : ascii) :
  isWordChar c = true -> isSpace c = false.
Proof. destruct c as [[] [] [] [] [] [] [] []]; vm_compute; congruence. Qed.

Lemma upperChar_idem (c : ascii) : upperChar (upperChar c) = upperChar c.
Proof. destruct c as [[] [] [] [] [] [] [] []]; reflexivity. Qed.

Lemma toUpperCase_app (a b : jsstring) :
  toUpperCase (a ++ b) = toUpperCase a ++ toUpperCase b.
Proof. apply flat_map_app. Qed.

Lemma toUpperCase_cons (c : ascii) (s : jsstring) :
  toUpperCase (c :: s) = upperUnits c ++ toUpperCase s.
Proof. reflexivity. Qed.

(** White space and word characters have one-character capitals. *)
Lemma upperUnits_space (c : ascii) : isSpace c = true -> upperUnits c = [c].
Proof. destruct c as [[] [] [] [] [] [] [] []]; intros H; try discriminate H; reflexivity. Qed.

Lemma upperUnits_word (c : ascii) :
  isWordChar c = true -> upperUnits c = [upperChar c].
Proof. destruct c as [[] [] [] [] [] [] [] []]; intros H; try discriminate H; reflexivity. Qed.

Lemma toUpperCase_blank (ws : jsstring) : isBlank ws -> toUpperCase ws = ws.
Proof.
  unfold isBlank. induction ws as [|c ws IH]; [reflexivity|].
  simpl. intros H. apply andb_true_iff in H as [Hc H].
  rewrite (upperUnits_space c Hc), (IH H). reflexivity.
Qed.

Lemma toUpperCase_word (m : jsstring) :
  forallb isWordChar m = true -> toUpperCase m = map upperChar m.
Proof.
  induction m as [|c m IH]; [reflexivity|].
  simpl. intros H. apply andb_true_iff in H as [Hc H].
  rewrite (upperUnits_word c Hc), (IH H). reflexivity.
Qed.

(** A word that is a keyword up to case becomes the keyword. *)
Lemma toUpperCase_sameWord (m kw : jsstring) :
  forallb isWordChar kw = true -> toUpperCase kw = kw -> sameWord m kw ->
  toUpperCase m = kw.
Proof.
  intros Hw Hup Hm.
  rewrite (toUpperCase_word m (sameWord_wordChars _ _ Hm Hw)).
  unfold sameWord in Hm. rewrite Hm, <- (toUpperCase_word kw Hw). exact Hup.
Qed.

Lemma isBlank_upper (ws : jsstring) : isBlank ws -> isBlank (toUpperCase ws).
Proof. intros H. rewrite (toUpperCase_blank ws H). exact H. Qed.

(** White space is taken off in front of a text that begins with something
    else, and no further. *)
Lemma trimStart_app_keep (a b : jsstring) (c : ascii) :
  head b = Some c -> isSpace c = false ->
  exists w z, a = w ++ z /\ isBlank w /\ trimStart (a ++ b) = z ++ b.
Proof.
  intros Hb Hc. induction a as [|x a (w & z & Ha & Hw & Ht)].
  - exists [], []. repeat split. simpl.
    destruct b as [|y b]; [discriminate|]. injection Hb as ->.
    apply trimStart_nonspace, Hc.
  - simpl. destruct (isSpace x) eqn:Ex.
    + exists (x :: w), z. repeat split.
      * rewrite Ha. reflexivity.
      * unfold isBlank in *. simpl. rewrite Ex, Hw. reflexivity.
      * exact Ht.
    + exists [], (x :: a). repeat split.
Qed.

Lemma trimEnd_app_keep (b a : jsstring) (c : ascii) :
  last b = Some c -> isSpace c = false ->
  exists z w, a = z ++ w /\ isBlank w /\ trimEnd (b ++ a) = b ++ z.
Proof.
  intros Hb Hc. unfold trimEnd. rewrite rev_app_distr.
  destruct (trimStart_app_keep (rev a) (rev b) c) as (w & z & Ha & Hw & Ht).
  - rewrite head_rev. exact Hb.
  - exact Hc.
  - exists (rev z), (rev w). repeat split.
    + rewrite <- rev_app_distr, <- Ha, rev_involutive. reflexivity.
    + unfold isBlank in *. rewrite forallb_forall in *.
      intros x Hx. apply Hw, in_rev. exact Hx.
    + rewrite Ht, rev_app_distr, rev_involutive. reflexivity.
Qed.

Lemma trim_blank_prefix (ws x : jsstring) :
  isBlank ws -> trim (ws ++ x) = trim x.
Proof. intros H. unfold trim. rewrite trimStart_blank by exact H. reflexivity. Qed.

Lemma keyword_ends (k : jsstring) :
  isKeyword k ->
  exists c d, head k = Some c /\ isSpace c = false /\
              last k = Some d /\ isSpace d = false.
Proof.
  intros [Hne Hw]. rewrite forallb_forall in Hw.
  destruct k as [|c k]; [contradiction|].
  destruct (last (c :: k)) as [d|] eqn:E;
    [|apply last_None in E; discriminate].
  exists c, d. repeat split; auto; apply isWordChar_not_space, Hw.
  - left. reflexivity.
  - apply list_elem_of_In, last_Some_elem_of, E.
Qed.

(** A text that begins with something that is no white space at either
    end still begins with it after [trim]. *)
Lemma trim_keep_ends (k y : jsstring) (c d : ascii) :
  head k = Some c -> isSpace c = false ->
  last k = Some d -> isSpace d = false ->
  exists y', trim (k ++ y) = k ++ y'.
Proof.
  intros Hh Hc Hl Hd. unfold trim.
  assert (E : trimStart (k ++ y) = k ++ y).
  { destruct k as [|x k]; [discriminate|]. injection Hh as ->.
    apply trimStart_nonspace, Hc. }
  rewrite E. destruct (trimEnd_app_keep k y d Hl Hd) as (z & w & _ & _ & Ht).
  eauto.
Qed.

Lemma trim_keep_prefix (k y : jsstring) :
  isKeyword k -> exists y', trim (k ++ y) = k ++ y'.
Proof.
  intros Hk. destruct (keyword_ends k Hk) as (c & d & Hh & Hc & Hl & Hd).
  exact (trim_keep_ends k y c d Hh Hc Hl Hd).
Qed.

Lemma beginsWith_trim_upper (kws : list jsstring) (sql : jsstring) :
  Forall (fun kw => isKeyword kw /\ toUpperCase kw = kw) kws ->
  beginsWith kws sql ->
  exists kw y, In kw kws /\ trim (toUpperCase sql) = kw ++ y.
Proof.
  intros Hk (ws & kw & m & rest & -> & Hws & Hin & Hm).
  rewrite List.Forall_forall in Hk. destruct (Hk kw Hin) as [Hkw Hup].
  rewrite !toUpperCase_app, trim_blank_prefix by (apply isBlank_upper, Hws).
  rewrite (toUpperCase_sameWord m kw (proj2 Hkw) Hup Hm).
  destruct (trim_keep_prefix kw (toUpperCase rest) Hkw) as (y & Hy).
  eauto.
Qed.

Lemma DDL_KEYWORDS_wellformed :
  Forall (fun kw => isKeyword kw /\ toUpperCase kw = kw) DDL_KEYWORDS.
Proof. repeat constructor; discriminate. Qed.

Lemma detectOperation_ddl_prefix (kw rest : jsstring) :
  In kw DDL_KEYWORDS -> detectOperation (kw ++ rest) = str "DDL".
Proof.
  intros Hin. unfold DDL_KEYWORDS in Hin. simpl in Hin.
  repeat (destruct Hin as [<-|Hin];
          [unfold detectOperation, startsRegex; rewrite !test_anchored;
           reflexivity|]).
  contradiction.
Qed.

Lemma ddl_check_refused (tbl : PermissionTable) (sql r : jsstring) :
  beginsWith DDL_KEYWORDS sql ->
  r <> str "ADMIN" ->
  validateSqlPermissions tbl sql r =
  mkCheck false
    (Some (str "You do not have permission to run DDL queries")) 0.
Proof.
  intros Hb Hr.
  destruct (beginsWith_trim_upper _ _ DDL_KEYWORDS_wellformed Hb)
    as (kw & y & Hin & E).
  unfold validateSqlPermissions.
  rewrite E, (detectOperation_ddl_prefix kw y Hin).
  unfold checkOperationPermission.
  change (strEqb (str "DDL") (str "DDL")) with true. cbv iota.
  rewrite (strEqb_neq _ _ Hr). reflexivity.
Qed.

(** X6.  Data definition is ADMIN's alone, whatever the permission table
    holds: a text that begins, after white space and in any case of
    letters, with CREATE, DROP, ALTER, TRUNCATE, GRANT, REVOKE or RENAME is
    refused with the DDL error and [maxRows = 0] for every other role. *)
Theorem ddl_refused_unless_admin (tbl : PermissionTable) (sql r : jsstring) :
  beginsWith DDL_KEYWORDS sql ->
  r <> str "ADMIN" ->
  validateSqlPermissions tbl sql r =
  mkCheck false
    (Some (str "You do not have permission to run DDL queries")) 0.
Proof. apply ddl_check_refused. Qed.

Lemma ddl_refused_unless_admin_witness :
  validateSqlPermissions
    [mkPerm (str "DEVELOPER") (str "DDL") 1 10000;
     mkPerm (str "DEVELOPER") (str "SELECT") 1 10000]
    (str "  create table dev_hack (id INT)") (str "DEVELOPER") =
  mkCheck false
    (Some (str "You do not have permission to run DDL queries")) 0.
Proof.
  apply ddl_refused_unless_admin; [|discriminate].
  exists (str "  "), (str "CREATE"), (str "create"),
    (str " table dev_hack (id INT)").
  repeat split. left. reflexivity.
Defined.

Lemma detectOperation_unknown (c : ascii) (y : jsstring) :
  isSpace c = false -> ~ In (upperChar c) KEYWORD_INITIALS ->
  detectOperation (upperUnits c ++ y) = str "UNKNOWN".
Proof.
  destruct c as [[] [] [] [] [] [] [] []]; intros Hs Hn;
    try discriminate Hs;
    try solve [exfalso; apply Hn; in_list];
    unfold detectOperation, startsRegex; rewrite !test_anchored; reflexivity.
Qed.

Lemma upperUnits_ends (c : ascii) :
  isSpace c = false ->
  exists a b, head (upperUnits c) = Some a /\ isSpace a = false /\
              last (upperUnits c) = Some b /\ isSpace b = false.
Proof.
  destruct c as [[] [] [] [] [] [] [] []]; intros Hs; try discriminate Hs;
    eexists; eexists; repeat split.
Qed.

(** X7.  Only the first letters of the thirteen keywords open an accepted
    text.  A text that is empty or white space, or whose first character
    after white space is a character up to U+00FF other than S, W, I, U,
    D, C, A, T, G, R in either case (an opening parenthesis, a comment,
    EXPLAIN, MERGE, U+00DF with its capital SS, ...), is classified
    UNKNOWN and refused for every role, ADMIN included, whatever the
    permission table holds. *)
Theorem other_openings_are_refused (tbl : PermissionTable) (sql r : jsstring) :
  (isBlank sql \/
   exists ws c rest,
     sql = ws ++ c :: rest /\ isBlank ws /\ isSpace c = false /\
     ~ In (upperChar c) KEYWORD_INITIALS) ->
  validateSqlPermissions tbl sql r =
  mkCheck false
    (Some (str "You do not have permission to run UNKNOWN queries")) 0.
Proof.
  intros H.
  assert (E : detectOperation (trim (toUpperCase sql)) = str "UNKNOWN").
  { destruct H as [Hb|(ws & c & rest & -> & Hws & Hc & Hn)].
    - rewrite trim_blank by (apply isBlank_upper, Hb). reflexivity.
    - rewrite toUpperCase_app, trim_blank_prefix by (apply isBlank_upper, Hws).
      destruct (upperUnits_ends c Hc) as (a & b & Ha & Hsa & Hb & Hsb).
      destruct (trim_keep_ends (upperUnits c) (toUpperCase rest) a b
                  Ha Hsa Hb Hsb) as (y & Hy).
      rewrite toUpperCase_cons, Hy. apply detectOperation_unknown; assumption. }
  unfold validateSqlPermissions. rewrite E. reflexivity.
Qed.

Lemma other_openings_are_refused_witness :
  validateSqlPermissions defaultPermissions
    (str " (select * from sales_orders)") (str "ADMIN") =
  mkCheck false
    (Some (str "You do not have permission to run UNKNOWN queries")) 0.
Proof.
  apply other_openings_are_refused. right.
  exists (str " "), "("%char, (str "select * from sales_orders)").
  repeat split. vm_compute. intuition discriminate.
Defined.

Lemma sameWord_isKeyword (m kw : jsstring) :
  isKeyword kw -> sameWord m kw -> isKeyword m.
Proof.
  intros [Hne Hw] Hm. split.
  - intros ->. apply sameWord_length in Hm. destruct kw; [contradiction|discriminate].
  - eapply sameWord_wordChars; eauto.
Qed.

Lemma blank_last_not_word (ws : jsstring) :
  isBlank ws -> isWordOpt (last ws) = false.
Proof.
  unfold isBlank. intros H. destruct (last ws) as [c|] eqn:E; [|reflexivity].
  rewrite forallb_forall in H.
  assert (Hc : isSpace c = true)
    by (apply H, list_elem_of_In, last_Some_elem_of, E).
  simpl. destruct (isWordChar c) eqn:Ew; [|reflexivity].
  apply isWordChar_not_space in Ew. congruence.
Qed.

Lemma blank_head_not_word (ws : jsstring) :
  isBlank ws -> isWordOpt (head ws) = false.
Proof.
  unfold isBlank. destruct ws as [|c ws]; [reflexivity|]. simpl.
  intros H. apply andb_true_iff in H as [Hc _].
  destruct (isWordChar c) eqn:Ew; [|reflexivity].
  apply isWordChar_not_space in Ew. congruence.
Qed.

Lemma last_app_cases {A : Type} (a b : list A) :
  (b = [] /\ last (a ++ b) = last a) \/ (b <> [] /\ last (a ++ b) = last b).
Proof.
  destruct b as [|x b _] using rev_ind.
  - left. rewrite app_nil_r. auto.
  - right. split; [intros E; apply app_eq_nil in E as [_ E]; discriminate|].
    rewrite app_assoc, !last_snoc. reflexivity.
Qed.

Lemma head_app_cases {A : Type} (a b : list A) :
  (a = [] /\ head (a ++ b) = head b) \/ (a <> [] /\ head (a ++ b) = head a).
Proof. destruct a; [left; auto|right; split; [discriminate|reflexivity]]. Qed.

(** Whether a keyword stands as a word is the same for a text and for its
    trimmed form. *)
Lemma occurs_trim_iff (kw s : jsstring) :
  isKeyword kw ->
  occursAsWholeWord kw (trim s) <-> occursAsWholeWord kw s.
Proof.
  intros Hk. unfold occursAsWholeWord. split.
  - intros (pre & m & post & Ht & Hm & Hpre & Hpost).
    destruct (trim_decompose s) as (ws1 & ws2 & Hs & H1 & H2 & _).
    exists (ws1 ++ pre), m, (post ++ ws2). repeat split.
    + rewrite Hs, Ht, <- !app_assoc. reflexivity.
    + exact Hm.
    + destruct (last_app_cases ws1 pre) as [[-> E]|[_ E]]; rewrite E;
        [apply blank_last_not_word, H1|exact Hpre].
    + destruct (head_app_cases post ws2) as [[-> E]|[_ E]]; rewrite E;
        [apply blank_head_not_word, H2|exact Hpost].
  - intros (pre & m & post & -> & Hm & Hpre & Hpost).
    destruct (keyword_ends m (sameWord_isKeyword _ _ Hk Hm))
      as (c & d & Hh & Hc & Hl & Hd).
    destruct (trimStart_app_keep pre (m ++ post) c) as (w & z & Hp & Hw & Ht).
    { destruct m; [discriminate|exact Hh]. }
    { exact Hc. }
    destruct (trimEnd_app_keep (z ++ m) post d) as (z' & w' & Hq & Hw' & Ht').
    { destruct (last_app_cases z m) as [[-> _]|[_ E]];
        [discriminate|rewrite E; exact Hl]. }
    { exact Hd. }
    exists z, m, z'. repeat split.
    + unfold trim. rewrite Ht, app_assoc, Ht', <- app_assoc. reflexivity.
    + exact Hm.
    + subst pre. destruct (last_app_cases w z) as [[-> _]|[_ E]];
        [reflexivity|rewrite <- E; exact Hpre].
    + subst post. destruct (head_app_cases z' w') as [[-> _]|[_ E]];
        [reflexivity|rewrite <- E; exact Hpost].
Qed.

Lemma join_isKeyword : isKeyword (str "JOIN").
Proof. split; [discriminate|reflexivity]. Qed.

Lemma with_isKeyword : isKeyword (str "WITH").
Proof. split; [discriminate|reflexivity]. Qed.

Lemma test_joinRegex (sql : jsstring) :
  test joinRegex (trim (toUpperCase sql)) = true <->
  occursAsWholeWord (str "JOIN") (toUpperCase sql).
Proof.
  unfold joinRegex. rewrite (test_keyword_spec _ _ join_isKeyword).
  apply occurs_trim_iff, join_isKeyword.
Qed.

(** X8.  A JOIN needs the JOIN permission wherever it stands: a text in
    whose upper-cased form JOIN stands as a word of its own is refused for
    a role whose JOIN lookup is not allowed, also when the statement itself
    is allowed; in that case the error is the JOIN error.  (The check is
    made on the upper-cased text: a JOIN in small letters counts, one
    followed by U+00DF, whose capital is SS, does not.) *)
Theorem join_needs_permission (tbl : PermissionTable) (sql r : jsstring) :
  occursAsWholeWord (str "JOIN") (toUpperCase sql) ->
  allowed (checkOperationPermission tbl r (str "JOIN")) = false ->
  valid (validateSqlPermissions tbl sql r) = false /\
  (allowed (checkOperationPermission tbl r
              (detectOperation (trim (toUpperCase sql)))) = true ->
   validateSqlPermissions tbl sql r =
   mkCheck false
     (Some (str "You do not have permission to use JOIN operations")) 0).
Proof.
  intros Hj Hp. apply test_joinRegex in Hj. unfold validateSqlPermissions.
  rewrite Hj, Hp.
  destruct (allowed (checkOperationPermission tbl r
                       (detectOperation (trim (toUpperCase sql)))));
    simpl; split; intros; try reflexivity; discriminate.
Qed.

Lemma join_needs_permission_witness :
  validateSqlPermissions defaultPermissions
    (str "select * from sales_orders o Join inventory i on o.id = i.id")
    (str "ANALYST") =
  mkCheck false
    (Some (str "You do not have permission to use JOIN operations")) 0.
Proof.
  apply (proj2 (join_needs_permission defaultPermissions
                  (str "select * from sales_orders o Join inventory i on o.id = i.id")
                  (str "ANALYST")
                  ltac:(apply test_keyword_spec;
                        [exact join_isKeyword|vm_compute; reflexivity])
                  ltac:(reflexivity))).
  vm_compute. reflexivity.
Defined.

Lemma detectOperation_select_prefix (kw rest : jsstring) :
  In kw [str "SELECT"; str "WITH"] ->
  detectOperation (kw ++ rest) = str "SELECT".
Proof.
  intros [<-|[<-|[]]];
    unfold detectOperation, startsRegex; rewrite !test_anchored; reflexivity.
Qed.

Lemma matchHere_keyword_prefix (kw : jsstring) (re : regex)
    (prev : option ascii) (s : jsstring) :
  matchHere (WordB :: Lit [kw] :: WordB :: re) prev s = true ->
  matchHere [WordB; Lit [kw]; WordB] prev s = true.
Proof.
  simpl. rewrite !orb_false_r, !andb_true_iff. intros [Hb H].
  split; [exact Hb|].
  destruct (litCI kw prev s) as [[prev' s']|]; [|discriminate].
  apply andb_true_iff in H as [H _]. rewrite H. reflexivity.
Qed.

Lemma test_cteRegex_with (s : jsstring) :
  test cteRegex s = true -> occursAsWholeWord (str "WITH") s.
Proof.
  intros H. apply (test_keyword_spec _ _ with_isKeyword).
  unfold test in *. apply searchFrom_spec in H as (pre & post & -> & H).
  apply searchFrom_spec. exists pre, post. split; [reflexivity|].
  apply (matchHere_keyword_prefix _ _ _ _ H).
Qed.

(** X9.  The permission check reads the first keyword and looks for JOIN
    and WITH, and for nothing else.  For a role whose SELECT row is
    allowed, every text that begins with SELECT (or the letters WITH) and
    whose upper-cased form has neither JOIN nor WITH as a word of its own
    is accepted with that row's [max_rows], whatever else it holds: a
    second statement after a semicolon is not seen. *)
Theorem select_prefix_is_all_that_counts
    (tbl : PermissionTable) (sql r : jsstring) (p : RolePermission) :
  beginsWith [str "SELECT"; str "WITH"] sql ->
  isOperationAllowed tbl r (str "SELECT") = Some p ->
  is_allowed p = 1 ->
  ~ occursAsWholeWord (str "JOIN") (toUpperCase sql) ->
  ~ occursAsWholeWord (str "WITH") (toUpperCase sql) ->
  validateSqlPermissions tbl sql r = mkCheck true None (max_rows p).
Proof.
  intros Hb Hrow Hall Hj Hw.
  destruct (beginsWith_trim_upper [str "SELECT"; str "WITH"] sql) as
    (kw & y & Hin & E); [repeat constructor; discriminate|exact Hb|].
  assert (Ej : test joinRegex (trim (toUpperCase sql)) = false).
  { destruct (test joinRegex _) eqn:T; [|reflexivity].
    apply test_joinRegex in T. contradiction. }
  assert (Ec : test cteRegex (trim (toUpperCase sql)) = false).
  { destruct (test cteRegex _) eqn:T; [|reflexivity].
    apply test_cteRegex_with in T.
    apply (proj1 (occurs_trim_iff _ _ with_isKeyword)) in T.
    contradiction. }
  unfold validateSqlPermissions. rewrite Ej, Ec, E.
  rewrite (detectOperation_select_prefix kw y Hin).
  unfold checkOperationPermission.
  replace (strEqb (str "SELECT") (str "DDL")) with false by reflexivity.
  replace (strEqb (str "SELECT") (str "UNKNOWN")) with false by reflexivity.
  change (toUpperCase (str "SELECT")) with (str "SELECT").
  rewrite Hrow, Hall. reflexivity.
Qed.

Lemma select_prefix_is_all_that_counts_witness :
  validateSqlPermissions defaultPermissions
    (str "select 1 from dual; drop table sales_orders") (str "ANALYST") =
  mkCheck true None 1000.
Proof.
  apply (select_prefix_is_all_that_counts defaultPermissions
           (str "select 1 from dual; drop table sales_orders") (str "ANALYST")
           (mkPerm (str "ANALYST") (str "SELECT") 1 1000)).
  - exists [], (str "SELECT"), (str "select"),
      (str " 1 from dual; drop table sales_orders").
    repeat split. left. reflexivity.
  - reflexivity.
  - reflexivity.
  - intros H. apply test_keyword_spec in H; [|exact join_isKeyword].
    vm_compute in H. discriminate H.
  - intros H. apply test_keyword_spec in H; [|exact with_isKeyword].
    vm_compute in H. discriminate H.
Defined.

(** The check is made on the upper-cased text: U+00DF becomes SS, so that
    a JOIN in front of it is no word of its own any more. *)
Example join_before_sharp_s :
  validateSqlPermissions defaultPermissions
    (str "select 1 join" ++ [ascii_of_nat 223]) (str "ANALYST") =
  mkCheck true None 1000.
Proof. vm_compute. reflexivity. Qed.

(** A no-break space is white space for [trim] and for [\s]. *)
Example no_break_space_is_blank :
  validateSqlPermissions defaultPermissions
    (ascii_of_nat 160 :: str "select 1") (str "ANALYST") =
  mkCheck true None 1000 /\
  validate (str "select 1;" ++ [ascii_of_nat 160]) ANALYST None =
  Validator.valid (str "SELECT * FROM (select 1) WHERE ROWNUM <= 1000").
Proof. split; vm_compute; reflexivity. Qed.

Lemma allowedOperations_In (tbl : PermissionTable) (r o : jsstring) :
  In o (allowedOperations (getRolePermissions tbl r)) <->
  exists p, In p tbl /\ role p = r /\ operation p = o /\ is_allowed p <> 0.
Proof.
  unfold getRolePermissions. rewrite getRolePermissions_loop. simpl.
  rewrite List.in_map_iff. unfold getByRole. split.
  - intros (p & Ho & Hin).
    apply List.filter_In in Hin as [Hin Ha].
    apply List.filter_In in Hin as [Hin Hr].
    apply strEqb_eq in Hr. apply negb_true_iff, Z.eqb_neq in Ha.
    exists p. auto.
  - intros (p & Hin & Hr & Ho & Ha). exists p. split; [exact Ho|].
    apply List.filter_In. split.
    + apply List.filter_In. split; [exact Hin|]. apply strEqb_eq, Hr.
    + apply negb_true_iff, Z.eqb_neq, Ha.
Qed.

Lemma isOperationAllowed_Some (tbl : PermissionTable) (r o : jsstring)
    (p : RolePermission) :
  isOperationAllowed tbl r o = Some p -> In p tbl /\ role p = r /\ operation p = o.
Proof.
  unfold isOperationAllowed. intros H. apply List.find_some in H as [Hin H].
  apply andb_true_iff in H as [Hr Ho]. apply strEqb_eq in Hr, Ho. auto.
Qed.

(** X10.  What the role is shown and what is enforced agree on a table
    that is well formed ([is_allowed] 0 or 1, one row per role and
    operation): an operation with an upper-case name other than DDL and
    UNKNOWN is listed by [getRolePermissions] exactly when
    [checkOperationPermission] allows it. *)
Theorem listed_iff_allowed (tbl : PermissionTable) (r o : jsstring) :
  wellFormedTable tbl ->
  o <> str "DDL" -> o <> str "UNKNOWN" -> toUpperCase o = o ->
  In o (allowedOperations (getRolePermissions tbl r)) <->
  allowed (checkOperationPermission tbl r o) = true.
Proof.
  intros [Hflag Huniq] Hddl Hunk Hup.
  rewrite allowedOperations_In. unfold checkOperationPermission.
  rewrite (strEqb_neq _ _ Hddl), (strEqb_neq _ _ Hunk), Hup. split.
  - intros (p & Hin & Hr & Ho & Ha).
    destruct (isOperationAllowed tbl r o) as [q|] eqn:E.
    + apply isOperationAllowed_Some in E as (Hq & Hqr & Hqo).
      assert (p = q) as <- by (apply Huniq; congruence).
      simpl. apply Z.eqb_eq. destruct (Hflag p Hin); [contradiction|assumption].
    + apply noRowFor_lookup in E. exfalso. exact (E p Hin (conj Hr Ho)).
  - destruct (isOperationAllowed tbl r o) as [q|] eqn:E; [|discriminate].
    simpl. intros Ha. apply Z.eqb_eq in Ha.
    apply isOperationAllowed_Some in E as (Hq & Hqr & Hqo).
    exists q. repeat split; auto. lia.
Qed.

Lemma listed_iff_allowed_witness :
  In (str "JOIN")
    (allowedOperations
       (getRolePermissions
          [mkPerm (str "DEVELOPER") (str "SELECT") 1 10000;
           mkPerm (str "DEVELOPER") (str "JOIN") 1 500;
           mkPerm (str "ANALYST") (str "JOIN") 0 0]
          (str "DEVELOPER"))).
Proof.
  apply (listed_iff_allowed
           [mkPerm (str "DEVELOPER") (str "SELECT") 1 10000;
            mkPerm (str "DEVELOPER") (str "JOIN") 1 500;
            mkPerm (str "ANALYST") (str "JOIN") 0 0]
           (str "DEVELOPER") (str "JOIN")).
  - split.
    + intros p Hp. repeat (destruct Hp as [<-|Hp]; [simpl; auto|]). contradiction.
    + intros p q Hp Hq.
      repeat (destruct Hp as [<-|Hp];
              [repeat (destruct Hq as [<-|Hq];
                       [simpl; intros; (reflexivity || discriminate)|]);
               contradiction|]).
      contradiction.
  - discriminate.
  - discriminate.
  - reflexivity.
  - reflexivity.
Defined.

(** ** The pool manager, continued *)

Import Lifecycle.

Lemma getConnection_borrowed
    (w : World) (conns : list DbConnection) (connectionId : Z)
    (st st' : State) (h : Handle) :
  getConnection w conns connectionId st = (inr h, st') ->
  borrowed st' = S (borrowed st).
Proof.
  unfold getConnection, createPool, acquireFrom.
  destruct (findById conns connectionId) as [c|]; [|discriminate].
  destruct (is_active c =? 0); [discriminate|].
  destruct (pools st !! connectionId) as [poolInfo|].
  - destruct (acquire w (pool poolInfo)); [|discriminate].
    intros [= _ <-]. reflexivity.
  - destruct (decrypt w (password_encrypted c)) as [pw|]; [|discriminate].
    destruct (engineOf (db_type c)) as [e|]; [|discriminate].
    destruct (negb (importDriver w e)); [discriminate|].
    destruct (negb (constructPool w e c)); [discriminate|].
    destruct (acquire w _); [|discriminate].
    intros [= _ <-]. reflexivity.
Qed.

Lemma getConnection_failed_borrowed
    (w : World) (conns : list DbConnection) (connectionId : Z)
    (st st' : State) (err : PoolError) :
  getConnection w conns connectionId st = (inl err, st') ->
  borrowed st' = borrowed st.
Proof.
  unfold getConnection, createPool, acquireFrom.
  destruct (findById conns connectionId) as [c|]; [|intros [= _ <-]; reflexivity].
  destruct (is_active c =? 0); [intros [= _ <-]; reflexivity|].
  destruct (pools st !! connectionId) as [poolInfo|].
  - destruct (acquire w (pool poolInfo)); [discriminate|].
    intros [= _ <-]. reflexivity.
  - destruct (decrypt w (password_encrypted c)) as [pw|];
      [|intros [= _ <-]; reflexivity].
    destruct (engineOf (db_type c)) as [e|]; [|intros [= _ <-]; reflexivity].
    destruct (negb (importDriver w e)); [intros [= _ <-]; reflexivity|].
    destruct (negb (constructPool w e c)); [intros [= _ <-]; reflexivity|].
    destruct (acquire w _); [discriminate|].
    intros [= _ <-]. reflexivity.
Qed.

(** X11.  [executeQuery] gives back what it borrows, on every way out:
    whether the connection cannot be had, the backend throws or the rows
    come back, as many connections are out afterwards as before; and the
    registry and the pools built are as [getConnection] left them. *)
Theorem executeQuery_releases
    (w : World) (conns : list DbConnection) (connectionId : Z)
    (sql : jsstring) (maxRows : option Z) (st : State) :
  borrowed (snd (executeQuery w conns connectionId sql maxRows st)) =
    borrowed st /\
  pools (snd (executeQuery w conns connectionId sql maxRows st)) =
    pools (snd (getConnection w conns connectionId st)) /\
  constructed (snd (executeQuery w conns connectionId sql maxRows st)) =
    constructed (snd (getConnection w conns connectionId st)).
Proof.
  unfold executeQuery.
  destruct (getConnection w conns connectionId st) as [[err|h] st'] eqn:E;
    simpl.
  - apply getConnection_failed_borrowed in E. auto.
  - apply getConnection_borrowed in E. rewrite E. auto.
Qed.

Lemma getConnection_hit
    (w : World) (conns : list DbConnection) (connectionId : Z)
    (st st' : State) (h : Handle) (poolInfo : PoolInfo) :
  pools st !! connectionId = Some poolInfo ->
  getConnection w conns connectionId st = (inr h, st') ->
  h = mkHandle (pool poolInfo) (type poolInfo) /\
  pools st' = pools st /\ constructed st' = constructed st.
Proof.
  unfold getConnection, acquireFrom. intros Hp.
  destruct (findById conns connectionId) as [c|]; [|discriminate].
  destruct (is_active c =? 0); [discriminate|].
  rewrite Hp. destruct (acquire w (pool poolInfo)); [|discriminate].
  intros [= <- <-]. auto.
Qed.

Lemma getConnection_miss
    (w : World) (conns : list DbConnection) (connectionId : Z)
    (st st' : State) (h : Handle) (c : DbConnection) :
  pools st !! connectionId = None ->
  findById conns connectionId = Some c ->
  getConnection w conns connectionId st = (inr h, st') ->
  builtFor (connection h) = c /\
  decrypt w (password_encrypted c) = Some (password (connection h)) /\
  engineOf (db_type c) = Some (handleType h) /\
  constructed st' = constructed st ++ [connection h] /\
  pools st' = <[connectionId := mkPoolInfo (handleType h) (connection h)]>
                (pools st).
Proof.
  unfold getConnection, createPool, acquireFrom. intros Hp Hc.
  rewrite Hc, Hp. destruct (is_active c =? 0); [discriminate|].
  destruct (decrypt w (password_encrypted c)) as [pw|]; [|discriminate].
  destruct (engineOf (db_type c)) as [e|]; [|discriminate].
  destruct (negb (importDriver w e)); [discriminate|].
  destruct (negb (constructPool w e c)); [discriminate|].
  destruct (acquire w _); [|discriminate].
  intros [= <- <-]. simpl. auto.
Qed.

(** X12.  An edited configuration is seen only after [closePool].  While
    a pool is registered for the id, [getConnection] hands out a connection
    of that pool and builds nothing, whatever [db_connections] holds by
    now.  After [closePool], a successful [getConnection] builds a new pool
    from the row as it is now (its settings and its credential), registers
    it and borrows from it; and [closePool] has called close on the old
    pool, or done nothing when there was none. *)
Theorem config_edit_needs_closePool
    (w : World) (conns : list DbConnection) (connectionId : Z)
    (st st' : State) (closed : list PoolObject) (h : Handle) :
  (forall poolInfo,
     pools st !! connectionId = Some poolInfo ->
     getConnection w conns connectionId st = (inr h, st') ->
     connection h = pool poolInfo /\ constructed st' = constructed st) /\
  (forall c,
     findById conns connectionId = Some c ->
     getConnection w conns connectionId
       (fst (closePool connectionId st closed)) = (inr h, st') ->
     builtFor (connection h) = c /\
     decrypt w (password_encrypted c) = Some (password (connection h)) /\
     constructed st' = constructed st ++ [connection h] /\
     pools st' !! connectionId =
       Some (mkPoolInfo (handleType h) (connection h))) /\
  snd (closePool connectionId st closed) =
    match pools st !! connectionId with
    | Some poolInfo => closed ++ [pool poolInfo]
    | None => closed
    end /\
  (pools st !! connectionId = None ->
   closePool connectionId st closed = (st, closed)).
Proof.
  split; [|split; [|split]].
  - intros poolInfo Hp Hg.
    destruct (getConnection_hit _ _ _ _ _ _ _ Hp Hg) as (-> & _ & Hc). auto.
  - intros c Hc Hg.
    assert (Hmiss : pools (fst (closePool connectionId st closed))
                      !! connectionId = None).
    { unfold closePool. destruct (pools st !! connectionId) eqn:E; simpl;
        [apply lookup_delete_eq|exact E]. }
    destruct (getConnection_miss _ _ _ _ _ _ _ Hmiss Hc Hg)
      as (H1 & H2 & _ & H4 & H5).
    repeat split; auto.
    + rewrite H4. unfold closePool.
      destruct (pools st !! connectionId); reflexivity.
    + rewrite H5. apply lookup_insert_eq.
  - unfold closePool. destruct (pools st !! connectionId); reflexivity.
  - intros Hp. unfold closePool. rewrite Hp. reflexivity.
Qed.

Lemma config_edit_needs_closePool_witness :
  let moved :=
    mkDbConnection 2 (str "shop") (str "MYSQL") (str "new.local") 3306
      (str "shop") (str "app") (str "c2VjcmV0") 1 in
  let st1 := snd (getConnection Scenario.world Scenario.connections 2
                    initialState) in
  (exists h st',
     getConnection Scenario.world [moved] 2 st1 = (inr h, st') /\
     host (builtFor (connection h)) = str "my.local") /\
  (exists h st',
     getConnection Scenario.world [moved] 2 (fst (closePool 2 st1 [])) =
       (inr h, st') /\
     builtFor (connection h) = moved).
Proof.
  intros moved st1. split.
  - eexists. eexists. split; [vm_compute; reflexivity|].
    match goal with
    | |- host (builtFor (connection ?h)) = _ =>
        destruct (proj1 (config_edit_needs_closePool Scenario.world [moved] 2
                           st1 (snd (getConnection Scenario.world [moved] 2 st1))
                           [] h)
                    (mkPoolInfo MYSQL
                       (mkPoolObject 0
                          (mkDbConnection 2 (str "shop") (str "MYSQL")
                             (str "my.local") 3306 (str "shop") (str "app")
                             (str "c2VjcmV0") 1)
                          (str "c2VjcmV0") 5)))
          as [Hc _]; [vm_compute; reflexivity|vm_compute; reflexivity|]
    end.
    rewrite Hc. reflexivity.
  - eexists. eexists. split; [vm_compute; reflexivity|].
    match goal with
    | |- builtFor (connection ?h) = _ =>
        destruct (proj1 (proj2 (config_edit_needs_closePool Scenario.world
                                  [moved] 2 st1
                                  (snd (getConnection Scenario.world [moved] 2
                                          (fst (closePool 2 st1 []))))
                                  [] h))
                    moved)
          as [Hb _]; [reflexivity|vm_compute; reflexivity|]
    end.
    exact Hb.
Defined.

(** X13.  A failed [getConnection] registers nothing it has not built: if
    the lookup, the credential, the engine type, the driver or the pool
    construction fails, the state is the one before the call.  Only when a
    pool was just built and borrowing from it fails is the state changed:
    the new pool stays registered. *)
Theorem failed_getConnection_state
    (w : World) (conns : list DbConnection) (connectionId : Z)
    (st st' : State) (err : PoolError) :
  getConnection w conns connectionId st = (inl err, st') ->
  st' = st \/
  exists poolInfo,
    err = AcquireFailed (type poolInfo) /\
    pools st !! connectionId = None /\
    st' = mkState (<[connectionId := poolInfo]> (pools st))
            (constructed st ++ [pool poolInfo]) (borrowed st).
Proof.
  unfold getConnection, createPool, acquireFrom.
  destruct (findById conns connectionId) as [c|]; [|intros [= _ <-]; auto].
  destruct (is_active c =? 0); [intros [= _ <-]; auto|].
  destruct (pools st !! connectionId) as [poolInfo|].
  - destruct (acquire w (pool poolInfo)); [discriminate|].
    intros [= _ <-]. auto.
  - destruct (decrypt w (password_encrypted c)) as [pw|];
      [|intros [= _ <-]; auto].
    destruct (engineOf (db_type c)) as [e|]; [|intros [= _ <-]; auto].
    destruct (negb (importDriver w e)); [intros [= _ <-]; auto|].
    destruct (negb (constructPool w e c)); [intros [= _ <-]; auto|].
    destruct (acquire w _); [discriminate|].
    intros [= <- <-]. right.
    exists (mkPoolInfo e (mkPoolObject (length (constructed st)) c pw 5)).
    auto.
Qed.

Lemma failed_getConnection_state_witness :
  let noMysql :=
    mkWorld (decrypt Scenario.world)
      (fun e => match e with MYSQL => false | _ => true end)
      (constructPool Scenario.world) (acquire Scenario.world)
      (oracleExecute Scenario.world) (mysqlExecute Scenario.world)
      (pgQuery Scenario.world) in
  snd (getConnection noMysql Scenario.connections 2 initialState) =
    initialState \/
  exists poolInfo,
    DriverNotInstalled MYSQL = AcquireFailed (type poolInfo) /\
    pools initialState !! 2 = None /\
    snd (getConnection noMysql Scenario.connections 2 initialState) =
      mkState (<[2 := poolInfo]> (pools initialState))
        (constructed initialState ++ [pool poolInfo]) (borrowed initialState).
Proof.
  intros noMysql.
  apply (failed_getConnection_state noMysql Scenario.connections 2
           initialState _ (DriverNotInstalled MYSQL)).
  vm_compute. reflexivity.
Defined.

Lemma flat_map_ext_In {A B : Type} (f g : A -> list B) (l : list A) :
  (forall x, In x l -> f x = g x) -> flat_map f l = flat_map g l.
Proof.
  induction l as [|x l IH]; intros H; [reflexivity|].
  simpl. rewrite (H x) by (left; reflexivity).
  rewrite IH by (intros y Hy; apply H; right; exact Hy). reflexivity.
Qed.

Lemma closePool_fold (ids : list Z) :
  List.NoDup ids ->
  forall (st : State) (closed : list PoolObject),
    fold_left (fun acc id => closePool id (fst acc) (snd acc)) ids
      (st, closed) =
    (mkState (fold_left (fun m id => delete id m) ids (pools st))
       (constructed st) (borrowed st),
     closed ++
     flat_map (fun id => match pools st !! id with
                         | Some poolInfo => [pool poolInfo]
                         | None => []
                         end) ids).
Proof.
  induction 1 as [|id ids Hid Hnd IH]; intros st closed.
  - simpl. rewrite app_nil_r. destruct st; reflexivity.
  - simpl. unfold closePool at 2. simpl.
    destruct (pools st !! id) as [poolInfo|] eqn:E; simpl.
    + rewrite IH. simpl. rewrite <- app_assoc. simpl. f_equal. f_equal. f_equal.
      apply flat_map_ext_In. intros j Hj.
      rewrite lookup_delete_ne by (intros ->; contradiction). reflexivity.
    + rewrite IH. rewrite (delete_id _ _ E). reflexivity.
Qed.

Lemma fold_delete_lookup (ids : list Z) (m : gmap Z PoolInfo) (k : Z) :
  fold_left (fun m id => delete id m) ids m !! k =
  if decide (k ∈ ids) then None else m !! k.
Proof.
  revert m; induction ids as [|id ids IH]; intros m; simpl.
  - destruct (decide (k ∈ [])) as [H|H]; [|reflexivity].
    apply elem_of_nil in H. contradiction.
  - rewrite IH. destruct (decide (k ∈ ids)) as [Hin|Hin].
    + destruct (decide (k ∈ id :: ids)) as [H|H]; [reflexivity|].
      exfalso. apply H. right. exact Hin.
    + destruct (decide (k ∈ id :: ids)) as [H|H].
      * apply elem_of_cons in H as [->|H]; [|contradiction].
        apply lookup_delete_eq.
      * apply lookup_delete_ne. intros ->. apply H. left.
Qed.

Lemma flat_map_entries (m : gmap Z PoolInfo) (l : list (Z * PoolInfo)) :
  (forall kv, In kv l -> m !! fst kv = Some (snd kv)) ->
  flat_map (fun id => match m !! id with
                      | Some poolInfo => [pool poolInfo]
                      | None => []
                      end) (map fst l) =
  map (fun kv => pool (snd kv)) l.
Proof.
  induction l as [|kv l IH]; intros H; [reflexivity|].
  simpl. rewrite (H kv) by (left; reflexivity). simpl.
  rewrite IH by (intros x Hx; apply H; right; exact Hx). reflexivity.
Qed.

(** X14.  [closeAllPools] empties the registry and calls close on exactly
    the pools that were registered: a pool is among the closed ones
    afterwards when it was before or the registry held it.  A pool that
    was built and is not in the registry is not closed. *)
Theorem closeAllPools_spec (st : State) (closed : list PoolObject) :
  pools (fst (closeAllPools st closed)) = ∅ /\
  constructed (fst (closeAllPools st closed)) = constructed st /\
  borrowed (fst (closeAllPools st closed)) = borrowed st /\
  (forall p, In p (snd (closeAllPools st closed)) <->
     In p closed \/
     exists connectionId poolInfo,
       pools st !! connectionId = Some poolInfo /\ pool poolInfo = p).
Proof.
  unfold closeAllPools.
  rewrite closePool_fold
    by (apply NoDup_ListNoDup, NoDup_fst_map_to_list).
  simpl. repeat split.
  - apply map_eq. intros k. rewrite fold_delete_lookup, lookup_empty.
    destruct (decide (k ∈ map fst (map_to_list (pools st)))) as [H|H];
      [reflexivity|].
    destruct (pools st !! k) as [v|] eqn:E; [|reflexivity].
    exfalso. apply H. apply list_elem_of_In, List.in_map_iff. exists (k, v).
    split; [reflexivity|]. apply list_elem_of_In, elem_of_map_to_list, E.
  - rewrite flat_map_entries
      by (intros [k v] H; apply list_elem_of_In, elem_of_map_to_list in H;
          exact H).
    intros H. apply in_app_or in H as [H|H]; [left; exact H|right].
    apply List.in_map_iff in H as ([k v] & <- & H).
    apply list_elem_of_In, elem_of_map_to_list in H. eauto.
  - rewrite flat_map_entries
      by (intros [k v] H; apply list_elem_of_In, elem_of_map_to_list in H;
          exact H).
    intros [H|(k & v & H & <-)]; apply in_or_app; [left; exact H|right].
    apply List.in_map_iff. exists (k, v). split; [reflexivity|].
    apply list_elem_of_In, elem_of_map_to_list, H.
Qed.

Lemma collect_spec (tables : list jsstring)
    (columnsOf : jsstring -> outcome (list (jsstring * jsstring)))
    (schema : list TableSchema) :
  collect tables columnsOf = inr schema ->
  Forall2
    (fun t entry =>
       exists cols, columnsOf t = Returns cols /\
         entry = mkTable t (map columnOf cols) None)
    tables schema.
Proof.
  revert schema; induction tables as [|t tables IH]; intros schema; simpl.
  - intros [= <-]. constructor.
  - destruct (columnsOf t) as [cols|msg] eqn:E; [|discriminate].
    destruct (collect tables columnsOf) as [err|rest]; [discriminate|].
    intros [= <-]. constructor; [eauto|apply IH; reflexivity].
Qed.

Lemma collect_shape (tables : list jsstring)
    (columnsOf : jsstring -> outcome (list (jsstring * jsstring)))
    (schema : list TableSchema) :
  collect tables columnsOf = inr schema ->
  map tableName schema = tables /\
  (forall t, In t schema ->
     restrictedRoles t = None /\
     forall c, In c (Validator.columns t) -> description c = []).
Proof.
  intros H. apply collect_spec in H.
  induction H as [|t entry tables schema (cols & _ & ->) _ [IH1 IH2]].
  - split; [reflexivity|contradiction].
  - split; [simpl; rewrite IH1; reflexivity|].
    intros x [<-|Hx]; [|auto]. split; [reflexivity|].
    simpl. intros c Hc. apply List.in_map_iff in Hc as (y & <- & _).
    reflexivity.
Qed.

Lemma getSchema_facts
    (w : World) (cat : Catalog) (conns : list DbConnection)
    (connectionId : Z) (st st' : State) (schema : list TableSchema) :
  borrowed (snd (getSchema w cat conns connectionId st)) = borrowed st /\
  (getSchema w cat conns connectionId st = (inr schema, st') ->
   (forall t, In t schema ->
      restrictedRoles t = None /\
      forall c, In c (Validator.columns t) -> description c = []) /\
   exists h st1,
     getConnection w conns connectionId st = (inr h, st1) /\
     match handleType h with
     | ORACLE =>
         exists r, oracleTables cat (connection h) = Returns r /\
                   map tableName schema = orEmpty r
     | MYSQL => mysqlTables cat (connection h) =
                  Returns (map tableName schema)
     | POSTGRESQL => pgTables cat (connection h) =
                       Returns (map tableName schema)
     end).
Proof.
  unfold getSchema.
  destruct (getConnection w conns connectionId st) as [[err|h] st1] eqn:E.
  - split; [simpl; eapply getConnection_failed_borrowed; exact E|discriminate].
  - split.
    { simpl. apply getConnection_borrowed in E. rewrite E. reflexivity. }
    intros [= Hr _]. unfold readSchema in Hr.
    destruct (handleType h) eqn:Eh.
    + destruct (negb (importDriver w ORACLE)); [discriminate|].
      destruct (oracleTables cat (connection h)) as [r|msg] eqn:Et;
        [|discriminate].
      apply collect_shape in Hr as [Hn Hs]. split; [exact Hs|].
      exists h, st1. rewrite Eh. eauto.
    + destruct (mysqlTables cat (connection h)) as [r|msg] eqn:Et;
        [|discriminate].
      apply collect_shape in Hr as [Hn Hs]. split; [exact Hs|].
      exists h, st1. rewrite Eh, Hn. auto.
    + destruct (pgTables cat (connection h)) as [r|msg] eqn:Et;
        [|discriminate].
      apply collect_shape in Hr as [Hn Hs]. split; [exact Hs|].
      exists h, st1. rewrite Eh, Hn. auto.
Qed.

(** X15.  A schema that [getSchema] returns has one entry per table the
    catalog listed, in the catalog's order; no entry carries
    [restrictedRoles] and every column description is empty.  The
    connection is given back whether the catalog answered or threw. *)
Theorem getSchema_spec
    (w : World) (cat : Catalog) (conns : list DbConnection)
    (connectionId : Z) (st st' : State) (schema : list TableSchema) :
  borrowed (snd (getSchema w cat conns connectionId st)) = borrowed st /\
  (getSchema w cat conns connectionId st = (inr schema, st') ->
   (forall t, In t schema ->
      restrictedRoles t = None /\
      forall c, In c (Validator.columns t) -> description c = []) /\
   exists h st1,
     getConnection w conns connectionId st = (inr h, st1) /\
     match handleType h with
     | ORACLE =>
         exists r, oracleTables cat (connection h) = Returns r /\
                   map tableName schema = orEmpty r
     | MYSQL => mysqlTables cat (connection h) =
                  Returns (map tableName schema)
     | POSTGRESQL => pgTables cat (connection h) =
                       Returns (map tableName schema)
     end).
Proof. apply getSchema_facts. Qed.

Lemma getSchema_spec_witness :
  exists schema st',
    getSchema Scenario.world Deployment.catalog Scenario.connections 2
      initialState = (inr schema, st') /\
    map tableName schema = [str "customers"; str "orders"] /\
    forall t, In t schema -> restrictedRoles t = None.
Proof.
  eexists. eexists. split; [vm_compute; reflexivity|].
  split; [reflexivity|].
  intros t Ht.
  refine (proj1 (proj1 (proj2 (getSchema_spec Scenario.world Deployment.catalog
            Scenario.connections 2 initialState _ _) _) t Ht)).
  vm_compute. reflexivity.
Defined.

Lemma tableAccessPass_unrestricted (sql : jsstring) (role : UserRole)
    (schema : list TableSchema) :
  (forall t, In t schema -> restrictedRoles t = None) ->
  tableAccessPass sql role schema = None.
Proof.
  intros H. destruct (tableAccessPass sql role schema) as [d|] eqn:E;
    [|reflexivity].
  apply tableAccessPass_Some in E as (_ & (t & Ht & Hn) & Hno).
  exfalso. apply Hno. exists t. repeat split; auto.
  unfold mayQuery. rewrite (H t Ht). reflexivity.
Qed.

(** X16.  With the schema that [getSchema] fetched, as the application
    passes it to [validate], the table step refuses nothing: whatever the
    text and the role, the result is not an access-denied error, and a
    text that passes the keyword and stacking steps is accepted. *)
Theorem fetched_schema_restricts_nothing
    (w : World) (cat : Catalog) (conns : list DbConnection)
    (connectionId : Z) (st st' : State) (schema : list TableSchema)
    (sql : jsstring) (role : UserRole) :
  getSchema w cat conns connectionId st = (inr schema, st') ->
  tableAccessPass sql role schema = None /\
  (forall d, validate sql role (Some schema) <>
             Validator.invalid (accessDeniedError d)) /\
  (forbiddenKeywordPass sql role = None -> multiStatementPass sql = false ->
   validate sql role (Some schema) = Validator.valid (enforceLimits sql)).
Proof.
  intros Hg.
  assert (Hu : forall t, In t schema -> restrictedRoles t = None).
  { intros t Ht.
    destruct (proj2 (getSchema_facts w cat conns connectionId st st' schema) Hg)
      as [Hs _].
    apply Hs, Ht. }
  pose proof (tableAccessPass_unrestricted sql role schema Hu) as Hn.
  split; [exact Hn|]. unfold validate, afterKeywordPass. rewrite Hn. split.
  - intros d. destruct (forbiddenKeywordPass sql role); [intros [=]|].
    destruct (multiStatementPass sql); intros [=].
  - intros -> ->. reflexivity.
Qed.

Lemma fetched_schema_restricts_nothing_witness :
  exists schema st',
    getSchema Scenario.world Deployment.catalog Scenario.connections 2
      initialState = (inr schema, st') /\
    validate (str "select * from Orders") ANALYST (Some schema) =
      Validator.valid
        (str "SELECT * FROM (select * from Orders) WHERE ROWNUM <= 1000").
Proof.
  eexists. eexists. split; [vm_compute; reflexivity|].
  refine (proj2 (proj2 (fetched_schema_restricts_nothing Scenario.world
            Deployment.catalog Scenario.connections 2 initialState _ _
            (str "select * from Orders") ANALYST _)) _ _);
    vm_compute; reflexivity.
Defined.

(** ** The route that runs a query *)

Import QueryRoute.

Lemma insertLog_cases (conns : list DbConnection) (entry : LogEntry)
    (logs : list LogEntry) :
  (exists c, findById conns (logConnection entry) = Some c /\
             insertLog conns entry logs = Some (logs ++ [entry])) \/
  (findById conns (logConnection entry) = None /\
   insertLog conns entry logs = None).
Proof.
  unfold insertLog. destruct (findById conns (logConnection entry)); eauto.
Qed.

Lemma executeQuery_not_found
    (w : World) (conns : list DbConnection) (cid : Z) (q : jsstring)
    (m : option Z) (st : State) :
  findById conns cid = None ->
  executeQuery w conns cid q m st = (inl (ConnectionNotFound cid), st).
Proof.
  intros H. unfold executeQuery, getConnection. rewrite H. reflexivity.
Qed.


Lemma block_answered (conns : list DbConnection) (req : Request)
    (cid : Z) (q : jsstring) (logged shown : option Message)
    (st : State) (logs : list LogEntry) :
  connectionId req = Some cid ->
  answered conns req
    (fst (block conns (userId (user req)) cid q logged shown st logs))
    st (fst (snd (block conns (userId (user req)) cid q logged shown st logs)))
    logs (snd (snd (block conns (userId (user req)) cid q logged shown st logs))).
Proof.
  intros Hc. unfold block.
  destruct (insertLog_cases conns
              (mkLog (userId (user req)) cid q BLOCKED logged 0) logs)
    as [(c & Hf & ->)|[Hf ->]]; simpl in *.
  - right. eexists. exists c. repeat split; eauto.
  - repeat split. eauto.
Qed.

Lemma onError_answered (conns : list DbConnection) (req : Request)
    (cid : Z) (q : jsstring) (msg : Message)
    (st st' : State) (logs : list LogEntry) :
  connectionId req = Some cid ->
  (findById conns cid = None -> st' = st) ->
  answered conns req
    (fst (onError conns (userId (user req)) cid q msg st' logs))
    st (fst (snd (onError conns (userId (user req)) cid q msg st' logs)))
    logs (snd (snd (onError conns (userId (user req)) cid q msg st' logs))).
Proof.
  intros Hc Hst. unfold onError.
  destruct (insertLog_cases conns
              (mkLog (userId (user req)) cid q FAILED (Some msg) 0) logs)
    as [(c & Hf & ->)|[Hf ->]]; simpl in *.
  - right. eexists. exists c. repeat split; eauto.
  - repeat split; eauto.
Qed.

Lemma execute_answered
    (w : World) (conns : list DbConnection) (grants : list Grant)
    (tbl : PermissionTable) (req : Request)
    (st : State) (logs : list LogEntry) :
  answered conns req
    (fst (execute w conns grants tbl req (st, logs)))
    st (fst (snd (execute w conns grants tbl req (st, logs))))
    logs (snd (snd (execute w conns grants tbl req (st, logs)))).
Proof.
  unfold execute.
  destruct (connectionId req) as [cid|] eqn:Hc; [|left; auto].
  destruct (Z.eq_dec cid 0) as [->|Hz]; [left; auto|].
  assert (Hrest : forall (X : option Response * ServerState),
            match cid with 0 => (Some (respond 400 "Database connection ID is required"), (st, logs)) | _ => X end = X)
    by (intros X; destruct cid; [contradiction|reflexivity|reflexivity]).
  rewrite Hrest. clear Hrest.
  destruct (QueryRoute.sql req) as [q|]; [|left; auto].
  destruct (_ || _); [left; auto|].
  destruct (_ && _); [apply block_answered; exact Hc|].
  destruct (negb _); [apply block_answered; exact Hc|].
  destruct (executeQuery w conns cid q _ st) as [[err|result] st'] eqn:E.
  - apply onError_answered; [exact Hc|].
    intros Hf. rewrite (executeQuery_not_found _ _ _ _ _ _ Hf) in E.
    congruence.
  - destruct (insertLog_cases conns
                (mkLog (userId (user req)) cid q SUCCESS None (rowCount result))
                logs) as [(c & Hf & ->)|[Hf ->]]; simpl in *.
    + right. eexists. exists c. repeat split; eauto.
    + rewrite (executeQuery_not_found _ _ _ _ _ _ Hf) in E. discriminate E.
Qed.

(** X17.  One log row per answered attempt.  A 400 leaves the logs and the
    pool manager as they were.  Every other answer comes with exactly one
    new row of [query_logs], for the caller and the connection asked for:
    BLOCKED with a 403 (and the pool manager untouched), SUCCESS without
    error with a 200, FAILED with a 500.  When the connection id is not in
    [db_connections], the insert of the row throws, the handler answers
    nothing, and neither logs nor pool manager change. *)
Theorem execute_logs_every_answer
    (w : World) (conns : list DbConnection) (grants : list Grant)
    (tbl : PermissionTable) (req : Request)
    (st : State) (logs : list LogEntry) :
  answered conns req
    (fst (execute w conns grants tbl req (st, logs)))
    st (fst (snd (execute w conns grants tbl req (st, logs))))
    logs (snd (snd (execute w conns grants tbl req (st, logs)))).
Proof. apply execute_answered. Qed.

Lemma block_status (conns : list DbConnection) (uid cid : Z) (q : jsstring)
    (logged shown : option Message) (st : State) (logs : list LogEntry) :
  snd (block conns uid cid q logged shown st logs) =
    (st, snd (snd (block conns uid cid q logged shown st logs))) /\
  forall r, fst (block conns uid cid q logged shown st logs) = Some r ->
    status r = 403.
Proof.
  unfold block. destruct (insertLog _ _ _); simpl; split;
    try reflexivity; intros r [= <-]; reflexivity.
Qed.

Lemma onError_status (conns : list DbConnection) (uid cid : Z) (q : jsstring)
    (msg : Message) (st : State) (logs : list LogEntry) (r : Response) :
  fst (onError conns uid cid q msg st logs) = Some r -> status r = 500.
Proof.
  unfold onError. destruct (insertLog _ _ _); simpl; intros [= <-]. reflexivity.
Qed.

(** X18.  Nothing runs unchecked.  When the handler answers 200, the
    caller is ADMIN or holds a grant for the connection, the permission
    check accepted the text, and the rows are those of [executeQuery] run
    with the [maxRows] of that check.  And whenever the pool manager's
    state differs after the request, both checks had passed. *)
Theorem execute_runs_only_checked
    (w : World) (conns : list DbConnection) (grants : list Grant)
    (tbl : PermissionTable) (req : Request)
    (st : State) (logs : list LogEntry) :
  (forall r,
     fst (execute w conns grants tbl req (st, logs)) = Some r ->
     status r = 200 ->
     exists cid q result,
       connectionId req = Some cid /\ QueryRoute.sql req = Some q /\
       (userRole (user req) = str "ADMIN" \/
        hasDbAccess grants (userId (user req)) cid = true) /\
       valid (validateSqlPermissions tbl q (userRole (user req))) = true /\
       executeQuery w conns cid q
         (Some (checkMaxRows
                  (validateSqlPermissions tbl q (userRole (user req))))) st =
         (inr result, fst (snd (execute w conns grants tbl req (st, logs)))) /\
       body r = RowsBody result q) /\
  (fst (snd (execute w conns grants tbl req (st, logs))) <> st ->
   exists cid q,
     connectionId req = Some cid /\ QueryRoute.sql req = Some q /\
     (userRole (user req) = str "ADMIN" \/
      hasDbAccess grants (userId (user req)) cid = true) /\
     valid (validateSqlPermissions tbl q (userRole (user req))) = true).
Proof.
  unfold execute.
  destruct (connectionId req) as [cid|] eqn:Hc;
    [|split; [intros r [= <-]; discriminate|intros H; contradiction H; reflexivity]].
  destruct (Z.eq_dec cid 0) as [->|Hz];
    [split; [intros r [= <-]; discriminate|intros H; contradiction H; reflexivity]|].
  assert (Hrest : forall (X : option Response * ServerState),
            match cid with 0 => (Some (respond 400 "Database connection ID is required"), (st, logs)) | _ => X end = X)
    by (intros X; destruct cid; [contradiction|reflexivity|reflexivity]).
  rewrite Hrest. clear Hrest.
  destruct (QueryRoute.sql req) as [q|];
    [|split; [intros r [= <-]; discriminate|intros H; contradiction H; reflexivity]].
  destruct (_ || _);
    [split; [intros r [= <-]; discriminate|intros H; contradiction H; reflexivity]|].
  destruct (negb (strEqb (userRole (user req)) (str "ADMIN"))
            && negb (hasDbAccess grants (userId (user req)) cid)) eqn:Ha.
  { destruct (block_status conns (userId (user req)) cid q
                (Some (Text (str "User does not have access to this database")))
                (Some (Text (str "You do not have access to this database")))
                st logs) as [Hs Hr].
    split.
    - intros r Hfst H200. rewrite (Hr r Hfst) in H200. discriminate H200.
    - rewrite Hs. intros H. contradiction H. reflexivity. }
  assert (Hacc : userRole (user req) = str "ADMIN" \/
                 hasDbAccess grants (userId (user req)) cid = true).
  { apply andb_false_iff in Ha as [Ha|Ha]; apply negb_false_iff in Ha;
      [left; apply strEqb_eq, Ha|right; exact Ha]. }
  destruct (valid (validateSqlPermissions tbl q (userRole (user req)))) eqn:Hv;
    simpl.
  2:{ destruct (block_status conns (userId (user req)) cid q
                  (option_map Text
                     (Rbac.error (validateSqlPermissions tbl q
                                    (userRole (user req)))))
                  (option_map Text
                     (Rbac.error (validateSqlPermissions tbl q
                                    (userRole (user req)))))
                  st logs) as [Hs Hr].
      split.
      - intros r Hfst H200. rewrite (Hr r Hfst) in H200. discriminate H200.
      - rewrite Hs. intros H. contradiction H. reflexivity. }
  split; [|intros _; exists cid, q; auto].
  destruct (executeQuery w conns cid q _ st) as [[err|result] st'] eqn:E.
  - intros r Hfst H200. apply onError_status in Hfst.
    rewrite Hfst in H200. discriminate H200.
  - destruct (insertLog conns _ logs) eqn:Ei.
    + simpl. intros r [= <-] _. exists cid, q, result. auto 10.
    + intros r Hfst H200. apply onError_status in Hfst.
      rewrite Hfst in H200. discriminate H200.
Qed.

Lemma execute_runs_only_checked_witness :
  hasDbAccess [mkGrant 5 2] 5 2 = true /\
  valid (validateSqlPermissions defaultPermissions
           (str "select * from orders") (str "ANALYST")) = true.
Proof.
  edestruct (proj1 (execute_runs_only_checked Scenario.world
                      Scenario.connections [mkGrant 5 2] defaultPermissions
                      (mkRequest
                         (mkUser 5 (str "a@x") (str "Ann") (str "ANALYST"))
                         (Some 2) (Some (str "select * from orders")))
                      initialState []))
    as (cid & q & result & Hc & Hq & Ha & Hv & _).
  - vm_compute. reflexivity.
  - reflexivity.
  - simpl in Hc, Hq. injection Hc as <-. injection Hq as <-.
    split; [reflexivity|exact Hv].
Defined.

Lemma beginsWith_nonblank (kws : list jsstring) (q : jsstring) :
  Forall (fun kw => isKeyword kw /\ toUpperCase kw = kw) kws ->
  beginsWith kws q ->
  Nat.eqb (length q) 0 || Nat.eqb (length (trim q)) 0 = false.
Proof.
  intros Hk (ws & kw & m & rest & -> & _ & Hin & Hm).
  rewrite List.Forall_forall in Hk. destruct (Hk kw Hin) as [Hkw _].
  destruct (keyword_ends m (sameWord_isKeyword _ _ Hkw Hm))
    as (c & _ & Hh & Hc & _).
  assert (Hin' : In c (ws ++ m ++ rest)).
  { apply in_or_app. right. apply in_or_app. left.
    destruct m; [discriminate|]. injection Hh as ->. left. reflexivity. }
  assert (Hnb : Nat.ltb 0 (length (trim (ws ++ m ++ rest))) = true)
    by (apply nonblank_iff; eauto).
  apply Nat.ltb_lt in Hnb. apply orb_false_iff. split; apply Nat.eqb_neq.
  - intros E. apply length_zero_iff_nil in E. rewrite E in Hin'. contradiction.
  - lia.
Qed.

(** X19.  What the RBAC check script expects of a developer's
    [CREATE TABLE]: for a caller whose role is not ADMIN, a request for a
    known connection whose text begins with a DDL keyword is answered 403,
    one BLOCKED row is written, and the pool manager is not touched,
    whatever grants and permissions are stored. *)
Theorem ddl_request_is_blocked
    (w : World) (conns : list DbConnection) (grants : list Grant)
    (tbl : PermissionTable) (req : Request)
    (st : State) (logs : list LogEntry)
    (cid : Z) (c : DbConnection) (q : jsstring) :
  connectionId req = Some cid -> cid <> 0 ->
  findById conns cid = Some c ->
  QueryRoute.sql req = Some q ->
  beginsWith DDL_KEYWORDS q ->
  userRole (user req) <> str "ADMIN" ->
  exists r entry,
    execute w conns grants tbl req (st, logs) =
      (Some r, (st, logs ++ [entry])) /\
    status r = 403 /\ logStatus entry = BLOCKED /\
    logConnection entry = cid /\ logSql entry = q.
Proof.
  intros Hc Hz Hf Hq Hb Hr. unfold execute. rewrite Hc, Hq.
  assert (Hrest : forall (X : option Response * ServerState),
            match cid with 0 => (Some (respond 400 "Database connection ID is required"), (st, logs)) | _ => X end = X)
    by (intros X; destruct cid; [contradiction|reflexivity|reflexivity]).
  rewrite Hrest. clear Hrest.
  rewrite (beginsWith_nonblank _ _ DDL_KEYWORDS_wellformed Hb).
  rewrite (ddl_check_refused tbl q _ Hb Hr). simpl.
  unfold block, insertLog. simpl. rewrite Hf.
  destruct (_ && _); eexists; eexists; repeat split.
Qed.

Lemma ddl_request_is_blocked_witness :
  exists r entry,
    execute Scenario.world Scenario.connections [mkGrant 7 1]
      defaultPermissions
      (mkRequest (mkUser 7 (str "dev@x") (str "Dev") (str "DEVELOPER"))
         (Some 1) (Some (str "CREATE TABLE dev_hack (id INT)")))
      (initialState, []) = (Some r, (initialState, [] ++ [entry])) /\
    status r = 403 /\ logStatus entry = BLOCKED /\
    logConnection entry = 1 /\
    logSql entry = str "CREATE TABLE dev_hack (id INT)".
Proof.
  apply (ddl_request_is_blocked Scenario.world Scenario.connections
           [mkGrant 7 1] defaultPermissions _ initialState [] 1
           (mkDbConnection 1 (str "hr") (str "ORACLE") (str "ora.local") 1521
              (str "XE") (str "hr") (str "c2VjcmV0") 1));
    try reflexivity; try discriminate.
  exists [], (str "CREATE"), (str "CREATE"), (str " TABLE dev_hack (id INT)").
  repeat split. left. reflexivity.
Defined.

(** ** The administrative routes *)

Import AdminRoutes.

Lemma updateRows_lookup (tbl : PermissionTable) (flag limit : Z)
    (r o r' o' : jsstring) :
  isOperationAllowed (updateRows tbl flag limit r o) r' o' =
  option_map
    (fun p => if strEqb (role p) r && strEqb (operation p) o
              then mkPerm (role p) (operation p) flag limit else p)
    (isOperationAllowed tbl r' o').
Proof.
  unfold isOperationAllowed, updateRows.
  induction tbl as [|p tbl IH]; [reflexivity|].
  cbn [map List.find].
  destruct (strEqb (role p) r && strEqb (operation p) o) eqn:E1; cbn [role operation];
    destruct (strEqb (role p) r' && strEqb (operation p) o') eqn:E2;
    cbn [option_map]; rewrite ?E1; auto.
Qed.

Lemma updateRows_wellFormed (tbl : PermissionTable) (flag limit : Z)
    (r o : jsstring) :
  flag = 0 \/ flag = 1 ->
  wellFormedTable tbl -> wellFormedTable (updateRows tbl flag limit r o).
Proof.
  intros Hflag [Hf Hu].
  assert (Hkeys : forall p,
            role (if strEqb (role p) r && strEqb (operation p) o
                  then mkPerm (role p) (operation p) flag limit else p) = role p /\
            operation (if strEqb (role p) r && strEqb (operation p) o
                       then mkPerm (role p) (operation p) flag limit else p) =
              operation p).
  { intros p. destruct (_ && _); auto. }
  unfold updateRows. split.
  - intros p' Hp'. apply List.in_map_iff in Hp' as (p & <- & Hp).
    destruct (_ && _); [exact Hflag|auto].
  - intros p' q' Hp' Hq' Hr Ho.
    apply List.in_map_iff in Hp' as (p & <- & Hp).
    apply List.in_map_iff in Hq' as (q & <- & Hq).
    destruct (Hkeys p) as [Hp1 Hp2], (Hkeys q) as [Hq1 Hq2].
    rewrite Hp1, Hq1 in Hr. rewrite Hp2, Hq2 in Ho.
    rewrite (Hu p q Hp Hq Hr Ho). reflexivity.
Qed.

(** X20.  An update of a permission keeps the table in shape and touches
    one pair.  For a request whose [max_rows] is an integer or missing,
    whatever its role, operation and [is_allowed], and on a well-formed
    table: the table is well formed afterwards and has as many rows; the
    lookup of any other (role, operation) pair is what it was; and after a
    200 the pair's row, if there is one, holds [is_allowed] 1 or 0 by the
    truth of the value sent, and as [max_rows] the integer sent, or 1000
    when that is 0 or missing. *)
Theorem putPermission_keeps_table
    (tbl : PermissionTable) (r o : jsstring) (v : JsValue) (m : option Z) :
  wellFormedTable tbl ->
  let '(code, _, tbl') := putPermission tbl r o v m in
  wellFormedTable tbl' /\
  length tbl' = length tbl /\
  (forall r' o', ~ (r' = r /\ o' = o) ->
     isOperationAllowed tbl' r' o' = isOperationAllowed tbl r' o') /\
  (code = 200 ->
   forall p, isOperationAllowed tbl r o = Some p ->
     exists limit,
       isOperationAllowed tbl' r o =
         Some (mkPerm r o (if truthy v then 1 else 0) limit) /\
       (forall n, m = Some n -> n <> 0 -> limit = n) /\
       (m = None \/ m = Some 0 -> limit = 1000)).
Proof.
  intros Hwf. unfold putPermission.
  destruct (negb (existsb (strEqb r) validRoles));
    [split; [exact Hwf|split; [reflexivity|split; [reflexivity|discriminate]]]|].
  destruct (negb (existsb (strEqb o) validOps));
    [split; [exact Hwf|split; [reflexivity|split; [reflexivity|discriminate]]]|].
  destruct (strEqb r (str "ADMIN") && isNumberZero v);
    [split; [exact Hwf|split; [reflexivity|split; [reflexivity|discriminate]]]|].
  set (flag := if truthy v then 1 else 0).
  set (limit := match m with
                | Some n => if n =? 0 then 1000 else n
                | None => 1000
                end).
  split; [|split; [|split]].
  - apply updateRows_wellFormed; [|exact Hwf].
    unfold flag. destruct (truthy v); auto.
  - unfold updateRows. apply length_map.
  - intros r' o' Hne. rewrite updateRows_lookup.
    destruct (isOperationAllowed tbl r' o') as [p|] eqn:E; [|reflexivity].
    apply isOperationAllowed_Some in E as (_ & Hr & Ho). simpl.
    destruct (strEqb (role p) r && strEqb (operation p) o) eqn:Ek;
      [|reflexivity].
    apply andb_true_iff in Ek as [E1 E2]. apply strEqb_eq in E1, E2.
    exfalso. apply Hne. split; congruence.
  - intros _ p Hp. exists limit. rewrite updateRows_lookup, Hp. simpl.
    apply isOperationAllowed_Some in Hp as (_ & Hr & Ho).
    rewrite Hr, Ho, !strEqb_refl. simpl. repeat split.
    + intros n -> Hn. unfold limit.
      rewrite (proj2 (Z.eqb_neq n 0) Hn). reflexivity.
    + intros [-> | ->]; reflexivity.
Qed.

Lemma putPermission_keeps_table_witness :
  isOperationAllowed
    (snd (putPermission
            [mkPerm (str "ANALYST") (str "SELECT") 1 1000;
             mkPerm (str "ANALYST") (str "JOIN") 0 0]
            (str "ANALYST") (str "JOIN") (JBool true) (Some 0)))
    (str "ANALYST") (str "SELECT") =
  Some (mkPerm (str "ANALYST") (str "SELECT") 1 1000).
Proof.
  pose proof (putPermission_keeps_table
                [mkPerm (str "ANALYST") (str "SELECT") 1 1000;
                 mkPerm (str "ANALYST") (str "JOIN") 0 0]
                (str "ANALYST") (str "JOIN") (JBool true) (Some 0)) as H.
  destruct (putPermission _ _ _ _ _) as [[code msg] tbl'] eqn:E.
  destruct H as (_ & _ & Hother & _).
  - split.
    + intros p Hp. repeat (destruct Hp as [<-|Hp]; [simpl; auto|]). contradiction.
    + intros p q Hp Hq.
      repeat (destruct Hp as [<-|Hp];
              [repeat (destruct Hq as [<-|Hq];
                       [simpl; intros; (reflexivity || discriminate)|]);
               contradiction|]).
      contradiction.
  - simpl. rewrite Hother; [reflexivity|].
    intros [_ H]. discriminate H.
Defined.

Lemma validOps_cases (o : jsstring) :
  existsb (strEqb o) validOps = true ->
  strEqb o (str "DDL") = false /\ strEqb o (str "UNKNOWN") = false /\
  toUpperCase o = o.
Proof.
  intros H. apply List.existsb_exists in H as (x & Hin & Hx).
  apply strEqb_eq in Hx. subst x.
  repeat (destruct Hin as [<-|Hin]; [vm_compute; auto|]). contradiction.
Qed.

(** X21.  The guard of ADMIN's permissions stops the number 0 and nothing
    else.  For ADMIN and one of the six operations that has a row: a
    request with [is_allowed] the number 0 is answered 400 and changes
    nothing; a request with any other value that counts as false
    ([false], [null], a missing field, the empty string) is answered 200,
    and afterwards [checkOperationPermission] refuses ADMIN that
    operation. *)
Theorem admin_guard_stops_only_zero
    (tbl : PermissionTable) (o : jsstring) (v : JsValue) (m : option Z)
    (p : RolePermission) :
  existsb (strEqb o) validOps = true ->
  isOperationAllowed tbl (str "ADMIN") o = Some p ->
  truthy v = false ->
  let '(code, _, tbl') := putPermission tbl (str "ADMIN") o v m in
  if isNumberZero v
  then code = 400 /\ tbl' = tbl
  else code = 200 /\
       allowed (checkOperationPermission tbl' (str "ADMIN") o) = false.
Proof.
  intros Ho Hp Hv. unfold putPermission.
  change (existsb (strEqb (str "ADMIN")) validRoles) with true.
  rewrite Ho. cbn [negb]. change (strEqb (str "ADMIN") (str "ADMIN")) with true.
  cbn [andb]. destruct (isNumberZero v); [split; reflexivity|].
  split; [reflexivity|].
  destruct (validOps_cases o Ho) as (H1 & H2 & H3).
  unfold checkOperationPermission. rewrite H1, H2, H3, Hv.
  rewrite updateRows_lookup, Hp. cbn [option_map].
  apply isOperationAllowed_Some in Hp as (_ & Hr & Hop).
  rewrite Hr, Hop, !strEqb_refl. reflexivity.
Qed.

Lemma admin_guard_stops_only_zero_witness :
  allowed
    (checkOperationPermission
       (snd (putPermission defaultPermissions (str "ADMIN") (str "SELECT")
               (JBool false) (Some 100000)))
       (str "ADMIN") (str "SELECT")) = false.
Proof.
  pose proof (admin_guard_stops_only_zero defaultPermissions (str "SELECT")
                (JBool false) (Some 100000)
                (mkPerm (str "ADMIN") (str "SELECT") 1 100000)
                eq_refl eq_refl eq_refl) as H.
  destruct (putPermission _ _ _ _ _) as [[code msg] tbl'].
  exact (proj2 H).
Defined.

Lemma hasDbAccess_true (grants : list Grant) (uid cid : Z) :
  hasDbAccess grants uid cid = true <-> In (mkGrant uid cid) grants.
Proof.
  unfold hasDbAccess. split.
  - destruct (List.find _ grants) as [g|] eqn:E; [|discriminate].
    intros _. apply List.find_some in E as [Hin H].
    apply andb_true_iff in H as [H1 H2]. apply Z.eqb_eq in H1, H2.
    destruct g as [u c]. simpl in *. subst. exact Hin.
  - intros Hin. destruct (List.find _ grants) as [g|] eqn:E; [reflexivity|].
    pose proof (List.find_none _ _ E _ Hin) as H. simpl in H.
    rewrite !Z.eqb_refl in H. discriminate H.
Qed.

Lemma hasDbAccess_iff (g g' : list Grant) (uid cid : Z) :
  (In (mkGrant uid cid) g' <-> In (mkGrant uid cid) g) ->
  hasDbAccess g' uid cid = hasDbAccess g uid cid.
Proof.
  intros H. destruct (hasDbAccess g uid cid) eqn:E.
  - apply hasDbAccess_true, H, hasDbAccess_true, E.
  - destruct (hasDbAccess g' uid cid) eqn:E'; [|reflexivity].
    apply hasDbAccess_true, H, hasDbAccess_true in E'. congruence.
Qed.

Lemma In_grantsOf (rows : list AccessRow) (u c : Z) :
  In (mkGrant u c) (grantsOf rows) <->
  In (mkAccessRow (Some u) (Some c)) rows.
Proof.
  unfold grantsOf. rewrite in_flat_map. split.
  - intros ([[u'|] [c'|]] & Hin & H); simpl in H;
      try contradiction.
    destruct H as [[= -> ->]|[]]. exact Hin.
  - intros Hin. exists (mkAccessRow (Some u) (Some c)). split; [exact Hin|].
    left. reflexivity.
Qed.

Lemma grantsOf_snoc (rows : list AccessRow) (uid cid : option Z) :
  grantsOf (rows ++ [mkAccessRow uid cid]) =
  grantsOf rows ++
  match uid, cid with
  | Some u, Some c => [mkGrant u c]
  | _, _ => []
  end.
Proof.
  unfold grantsOf. rewrite flat_map_app. simpl. rewrite app_nil_r.
  reflexivity.
Qed.

Lemma refersTo_false (ids : list Z) (v : option Z) :
  refersTo ids v = false <-> exists n, v = Some n /\ ~ In n ids.
Proof.
  destruct v as [n|]; simpl.
  - split.
    + intros H. exists n. split; [reflexivity|]. intros Hin.
      assert (E : existsb (Z.eqb n) ids = true); [|congruence].
      apply List.existsb_exists. exists n. split; [exact Hin|apply Z.eqb_refl].
    + intros (m & [= <-] & Hn). destruct (existsb (Z.eqb n) ids) eqn:E;
        [|reflexivity].
      apply List.existsb_exists in E as (x & Hin & Hx).
      apply Z.eqb_eq in Hx. subst x. contradiction.
  - split; [discriminate|intros (n & [=] & _)].
Qed.

(** What a revoke keeps. *)
Lemma deleteGrant_In (rows : list AccessRow) (u c u' c' : Z) :
  In (mkGrant u' c')
     (grantsOf (snd (deleteGrant rows (Some c) (Some u)))) <->
  In (mkGrant u' c') (grantsOf rows) /\ ~ (u' = u /\ c' = c).
Proof.
  rewrite !In_grantsOf. simpl. rewrite List.filter_In. simpl.
  rewrite negb_true_iff, andb_false_iff, !Z.eqb_neq. split.
  - intros [H1 H2]. split; [exact H1|]. intros [-> ->]. destruct H2; auto.
  - intros [H1 H2]. split; [exact H1|].
    destruct (Z.eq_dec u' u) as [->|]; [right|left; assumption].
    intros ->. apply H2. auto.
Qed.

(** X22.  Granting and revoking access round-trip through the access
    check, for ids that are numbers.  After a grant that is answered 200
    the check passes for that user and connection, after a revoke it
    fails, and neither changes the check for any other pair.  A grant is
    answered 500, and changes nothing, exactly when no such row is there
    yet and the user or the connection it names does not exist.
    Granting twice adds no second row, and a revoke after a grant leaves
    what the revoke alone leaves.  An id that is no number (NaN) is stored
    as NULL: such a grant passes the foreign key and the uniqueness
    constraint on that column, every 200 adds a row, and no check sees
    it; such a revoke removes nothing. *)
Theorem grant_revoke_round_trip
    (userIds : list Z) (conns : list DbConnection) (rows : list AccessRow)
    (cid uid : option Z) :
  (forall u c, uid = Some u -> cid = Some c ->
     (fst (postGrant userIds conns rows cid uid) = 200 ->
      hasDbAccess (grantsOf (snd (postGrant userIds conns rows cid uid))) u c
        = true) /\
     hasDbAccess (grantsOf (snd (deleteGrant rows cid uid))) u c = false /\
     snd (postGrant userIds conns
            (snd (postGrant userIds conns rows cid uid)) cid uid) =
       snd (postGrant userIds conns rows cid uid) /\
     snd (deleteGrant (snd (postGrant userIds conns rows cid uid)) cid uid) =
       snd (deleteGrant rows cid uid)) /\
  (fst (postGrant userIds conns rows cid uid) = 500 <->
   (forall u c, uid = Some u -> cid = Some c ->
      hasDbAccess (grantsOf rows) u c = false) /\
   ((exists u, uid = Some u /\ ~ In u userIds) \/
    (exists c, cid = Some c /\ ~ In c (map id conns)))) /\
  (fst (postGrant userIds conns rows cid uid) = 500 ->
   snd (postGrant userIds conns rows cid uid) = rows) /\
  (forall u c, ~ (uid = Some u /\ cid = Some c) ->
     hasDbAccess (grantsOf (snd (postGrant userIds conns rows cid uid))) u c =
       hasDbAccess (grantsOf rows) u c /\
     hasDbAccess (grantsOf (snd (deleteGrant rows cid uid))) u c =
       hasDbAccess (grantsOf rows) u c) /\
  (uid = None \/ cid = None ->
   grantsOf (snd (postGrant userIds conns rows cid uid)) = grantsOf rows /\
   snd (deleteGrant rows cid uid) = rows /\
   (fst (postGrant userIds conns rows cid uid) = 200 ->
    snd (postGrant userIds conns rows cid uid) =
      rows ++ [mkAccessRow uid cid])).
Proof.
  split; [|split; [|split; [|split]]].
  - intros u c -> ->.
    assert (Hnew : hasDbAccess
                     (grantsOf (rows ++ [mkAccessRow (Some u) (Some c)])) u c
                   = true).
    { apply hasDbAccess_true. rewrite grantsOf_snoc.
      apply in_or_app. right. left. reflexivity. }
    split; [|split; [|split]].
    + unfold postGrant, duplicates.
      destruct (hasDbAccess (grantsOf rows) u c) eqn:E; [intros _; exact E|].
      destruct (_ && _); [intros _; exact Hnew|discriminate].
    + destruct (hasDbAccess
                  (grantsOf (snd (deleteGrant rows (Some c) (Some u)))) u c)
        eqn:E; [|reflexivity].
      apply hasDbAccess_true, deleteGrant_In in E as [_ E].
      exfalso. apply E. auto.
    + unfold postGrant, duplicates.
      destruct (hasDbAccess (grantsOf rows) u c) eqn:E; simpl.
      * rewrite E. reflexivity.
      * destruct (_ && _) eqn:Ek; simpl.
        -- rewrite Hnew. reflexivity.
        -- rewrite E. reflexivity.
    + unfold postGrant, duplicates.
      destruct (hasDbAccess (grantsOf rows) u c); [reflexivity|].
      destruct (_ && _); [|reflexivity].
      simpl. rewrite List.filter_app. simpl. rewrite !Z.eqb_refl. simpl.
      apply app_nil_r.
  - unfold postGrant. split.
    + destruct (duplicates rows uid cid) eqn:Ed; [discriminate|].
      destruct (refersTo userIds uid) eqn:Eu;
        [destruct (refersTo (map id conns) cid) eqn:Ec; [discriminate|]|];
        intros _; (split; [intros u c -> ->; exact Ed|]).
      * right. apply refersTo_false, Ec.
      * left. apply refersTo_false, Eu.
    + intros [Hd Hr].
      assert (Ed : duplicates rows uid cid = false).
      { unfold duplicates. destruct uid as [u|], cid as [c|]; auto. }
      rewrite Ed. destruct Hr as [Hr|Hr]; apply refersTo_false in Hr;
        rewrite Hr; [reflexivity|].
      rewrite andb_false_r. reflexivity.
  - unfold postGrant. destruct (duplicates rows uid cid); [reflexivity|].
    destruct (_ && _); [discriminate|reflexivity].
  - intros u c Hne. split.
    + unfold postGrant. destruct (duplicates rows uid cid); [reflexivity|].
      destruct (_ && _); [|reflexivity]. simpl.
      apply hasDbAccess_iff. rewrite grantsOf_snoc, List.in_app_iff.
      destruct uid as [u'|], cid as [c'|]; simpl; try tauto.
      split; [|tauto]. intros [H|[[= -> ->]|[]]]; [exact H|].
      exfalso. apply Hne. auto.
    + destruct uid as [u'|], cid as [c'|]; try reflexivity.
      apply hasDbAccess_iff. rewrite deleteGrant_In.
      split; [tauto|]. intros H. split; [exact H|].
      intros [-> ->]. apply Hne. auto.
  - intros Hnan.
    assert (Ed : duplicates rows uid cid = false).
    { unfold duplicates. destruct Hnan as [-> | ->];
        [|destruct uid]; reflexivity. }
    split; [|split].
    + unfold postGrant. rewrite Ed. destruct (_ && _); [|reflexivity].
      simpl. rewrite grantsOf_snoc.
      destruct Hnan as [-> | ->]; [|destruct uid]; apply app_nil_r.
    + unfold deleteGrant. destruct Hnan as [-> | ->];
        [|destruct uid]; reflexivity.
    + unfold postGrant. rewrite Ed. destruct (_ && _);
        [reflexivity|discriminate].
Qed.

Lemma grant_revoke_round_trip_witness :
  hasDbAccess
    (grantsOf (snd (postGrant [5] Scenario.connections [] (Some 2) (Some 5))))
    5 2 = true.
Proof.
  apply (proj1 (grant_revoke_round_trip [5] Scenario.connections []
                  (Some 2) (Some 5)) 5 2 eq_refl eq_refl).
  reflexivity.
Defined.

Lemma find_filter_keep {A : Type} (f g : A -> bool) (l : list A) :
  (forall x, f x = true -> g x = true) ->
  List.find f (List.filter g l) = List.find f l.
Proof.
  intros H. induction l as [|x l IH]; [reflexivity|]. simpl.
  destruct (g x) eqn:Eg; simpl.
  - rewrite IH. reflexivity.
  - destruct (f x) eqn:Ef; [|exact IH]. rewrite (H x Ef) in Eg. discriminate.
Qed.

Lemma find_filter_drop {A : Type} (f g : A -> bool) (l : list A) :
  (forall x, f x = true -> g x = false) ->
  List.find f (List.filter g l) = None.
Proof.
  intros H. induction l as [|x l IH]; [reflexivity|]. simpl.
  destruct (g x) eqn:Eg; simpl; [|exact IH].
  destruct (f x) eqn:Ef; [|exact IH]. rewrite (H x Ef) in Eg. discriminate.
Qed.

Lemma closePool_lookup (cid : Z) (st : State) (closed : list PoolObject) :
  pools (fst (closePool cid st closed)) !! cid = None /\
  (forall k, k <> cid ->
     pools (fst (closePool cid st closed)) !! k = pools st !! k) /\
  (forall poolInfo, pools st !! cid = Some poolInfo ->
     In (pool poolInfo) (snd (closePool cid st closed))).
Proof.
  unfold closePool. destruct (pools st !! cid) as [pi|] eqn:E; simpl.
  - split; [apply lookup_delete_eq|]. split.
    + intros k Hk. apply lookup_delete_ne. congruence.
    + intros poolInfo [= <-]. apply in_or_app. right. left. reflexivity.
  - split; [exact E|]. split; [reflexivity|discriminate].
Qed.

Lemma deleteConnection_refused (s : Store) (cid : Z) (c : DbConnection) :
  findById (connections s) cid = Some c ->
  (exists l, In l (logs s) /\ logConnection l = cid) ->
  fst (deleteConnection s cid) = 500 /\
  connections (snd (deleteConnection s cid)) = connections s /\
  grants (snd (deleteConnection s cid)) = grants s /\
  logs (snd (deleteConnection s cid)) = logs s /\
  pools (manager (snd (deleteConnection s cid))) !! cid = None.
Proof.
  intros Hc (l & Hin & Hl). unfold deleteConnection. rewrite Hc.
  pose proof (closePool_lookup cid (manager s) (closedPools s)) as (Hp & _).
  destruct (closePool cid (manager s) (closedPools s)) as [st closed].
  assert (He : existsb (fun l => logConnection l =? cid) (logs s) = true).
  { apply List.existsb_exists. exists l. split; [exact Hin|].
    apply Z.eqb_eq, Hl. }
  rewrite He. simpl. auto.
Qed.

(** X23.  Deleting a connection.  An unknown id is answered 404 and
    changes nothing.  For a known id the pool of the connection is closed
    and leaves the registry, whatever follows, and no other pool is
    touched.  The answer is 500, with every row kept, exactly when a row
    of [query_logs] refers to the connection; otherwise it is 200, and
    then the connection and every grant for it are gone, and the other
    connections and grants are as before. *)
Theorem deleteConnection_spec (s : Store) (cid : Z) :
  (findById (connections s) cid = None /\
   deleteConnection s cid = (404, s)) \/
  (exists c, findById (connections s) cid = Some c /\
     pools (manager (snd (deleteConnection s cid))) !! cid = None /\
     (forall k, k <> cid ->
        pools (manager (snd (deleteConnection s cid))) !! k =
          pools (manager s) !! k) /\
     (forall poolInfo, pools (manager s) !! cid = Some poolInfo ->
        In (pool poolInfo) (closedPools (snd (deleteConnection s cid)))) /\
     logs (snd (deleteConnection s cid)) = logs s /\
     ((fst (deleteConnection s cid) = 500 /\
       (exists l, In l (logs s) /\ logConnection l = cid) /\
       connections (snd (deleteConnection s cid)) = connections s /\
       grants (snd (deleteConnection s cid)) = grants s) \/
      (fst (deleteConnection s cid) = 200 /\
       (forall l, In l (logs s) -> logConnection l <> cid) /\
       findById (connections (snd (deleteConnection s cid))) cid = None /\
       (forall k, k <> cid ->
          findById (connections (snd (deleteConnection s cid))) k =
            findById (connections s) k) /\
       (forall u, hasDbAccess (grants (snd (deleteConnection s cid))) u cid =
                    false) /\
       (forall u k, k <> cid ->
          hasDbAccess (grants (snd (deleteConnection s cid))) u k =
            hasDbAccess (grants s) u k)))).
Proof.
  unfold deleteConnection.
  destruct (findById (connections s) cid) as [c|] eqn:Hc; [right|left; auto].
  exists c. split; [reflexivity|].
  pose proof (closePool_lookup cid (manager s) (closedPools s))
    as (Hp1 & Hp2 & Hp3).
  destruct (closePool cid (manager s) (closedPools s)) as [st closed].
  simpl in Hp1, Hp2, Hp3.
  destruct (existsb (fun l => logConnection l =? cid) (logs s)) eqn:He; simpl.
  - repeat (split; [assumption || reflexivity|]). left.
    apply List.existsb_exists in He as (l & Hin & Hl).
    apply Z.eqb_eq in Hl. repeat split; eauto.
  - repeat (split; [assumption || reflexivity|]). right.
    split; [reflexivity|]. split; [|split; [|split; [|split]]].
    + intros l Hin Hl.
      assert (existsb (fun l => logConnection l =? cid) (logs s) = true);
        [|congruence].
      apply List.existsb_exists. exists l. split; [exact Hin|].
      apply Z.eqb_eq, Hl.
    + unfold findById. apply find_filter_drop.
      intros x Hx. rewrite Hx. reflexivity.
    + intros k Hk. unfold findById. apply find_filter_keep.
      intros x Hx. apply Z.eqb_eq in Hx. apply negb_true_iff, Z.eqb_neq.
      congruence.
    + intros u. unfold hasDbAccess. rewrite find_filter_drop; [reflexivity|].
      intros x Hx. apply andb_true_iff in Hx as [_ Hx]. rewrite Hx.
      reflexivity.
    + intros u k Hk. unfold hasDbAccess. rewrite find_filter_keep;
        [reflexivity|].
      intros x Hx. apply andb_true_iff in Hx as [_ Hx]. apply Z.eqb_eq in Hx.
      apply negb_true_iff, Z.eqb_neq. congruence.
Qed.

(** X24.  A connection that has been queried cannot be deleted.  Once
    [POST /api/query/execute] has answered for a connection with anything
    but a 400 (a refusal counts), [DELETE /api/connections/:id] for it is
    answered 500, and the connection, its grants and the logs stay. *)
Theorem queried_connection_stays
    (w : World) (conns : list DbConnection) (gs : list Grant)
    (tbl : PermissionTable) (req : Request) (st : State)
    (ls : list LogEntry) (closed : list PoolObject)
    (r : Response) (cid : Z) :
  fst (execute w conns gs tbl req (st, ls)) = Some r ->
  status r <> 400 ->
  connectionId req = Some cid ->
  let after := snd (execute w conns gs tbl req (st, ls)) in
  let s := mkStore conns gs (snd after) (fst after) closed in
  fst (deleteConnection s cid) = 500 /\
  connections (snd (deleteConnection s cid)) = conns /\
  grants (snd (deleteConnection s cid)) = gs /\
  logs (snd (deleteConnection s cid)) = snd after.
Proof.
  intros Hr Hs Hc after s.
  pose proof (execute_answered w conns gs tbl req st ls) as H.
  rewrite Hr in H. simpl in H.
  destruct H as [[H _]|(entry & c & Hl & _ & Hce & Hf & _)]; [contradiction|].
  rewrite Hc in Hce. injection Hce as ->.
  destruct (deleteConnection_refused s (logConnection entry) c)
    as (H1 & H2 & H3 & H4 & _); [exact Hf| |auto].
  exists entry. split; [|reflexivity].
  subst s after. simpl. rewrite Hl. apply in_or_app. right. left. reflexivity.
Qed.

Lemma queried_connection_stays_witness :
  fst (deleteConnection
         (mkStore Scenario.connections [mkGrant 5 2]
            (snd (snd (execute Scenario.world Scenario.connections
                         [mkGrant 5 2] defaultPermissions
                         (mkRequest
                            (mkUser 5 (str "a@x") (str "Ann") (str "ANALYST"))
                            (Some 2) (Some (str "drop table orders")))
                         (initialState, []))))
            (fst (snd (execute Scenario.world Scenario.connections
                         [mkGrant 5 2] defaultPermissions
                         (mkRequest
                            (mkUser 5 (str "a@x") (str "Ann") (str "ANALYST"))
                            (Some 2) (Some (str "drop table orders")))
                         (initialState, []))))
            []) 2) = 500.
Proof.
  apply (queried_connection_stays Scenario.world Scenario.connections
           [mkGrant 5 2] defaultPermissions
           (mkRequest (mkUser 5 (str "a@x") (str "Ann") (str "ANALYST"))
              (Some 2) (Some (str "drop table orders")))
           initialState [] []
           (mkResponse 403
              (ErrorBody
                 (Some (Text (operationError (str "DDL")))))) 2).
  - vm_compute. reflexivity.
  - discriminate.
  - reflexivity.
Defined.
